(** * Room / match state machine of the Dummy card game

    A shallow embedding of the lobby page ([src/app/r/[roomId]/page.tsx] and
    its earlier variant [src/unnamed/part_002]) and of the play page
    ([src/unnamed/part_003]): seat claiming, the start gate, the deal, the
    draw/discard turn machine and the meld classifier.

    Conventions of the embedding.
    - The realtime database is the external store.  Its [runTransaction]
      takes an update function old -> new; the function may also return
      [undefined] (abort) or throw.  Both leave the stored value as it was.
    - A JS object whose key order is observed ([Object.keys]) is an
      association list in enumeration order: the keys that are array
      indices first, in ascending numeric order, then the other keys in the
      order in which they were created.  The embedding takes the object that
      a later transaction receives to be the object the earlier one
      returned, keys in the same order; how the store itself orders the
      children of a node is not part of the source and is not modelled.
    - [Date.now()], [crypto.randomUUID()] and [Math.random()] are inputs.
    - Values are typed as the TypeScript declarations type them. *)

From stdpp Require Import gmap strings list pretty sorting.

Open Scope Z_scope.

(** ** The store's transaction primitive *)

Inductive TxReturn (A : Type) : Type :=
| Value (v : A)      (* the update function returned a value *)
| Undefined          (* [return;] : abort *)
| Throws.            (* a TypeError escaped the update function *)
Arguments Value {A} v.
Arguments Undefined {A}.
Arguments Throws {A}.

Record TxResult (A : Type) : Type := { committed : bool; snapshot : A }.
Arguments committed {A} _.
Arguments snapshot {A} _.

Definition runTransaction {A : Type} (f : A -> TxReturn A) (cur : A) : TxResult A :=
  match f cur with
  | Value v => {| committed := true; snapshot := v |}
  | Undefined => {| committed := false; snapshot := cur |}
  | Throws => {| committed := false; snapshot := cur |}
  end.

(** Sequencing of the steps of an update function: a throw or an abort
    ends it.  Written [x ← m; k] below. *)
Global Instance TxReturn_bind : MBind TxReturn := fun A B k m =>
  match m with
  | Value v => k v
  | Undefined => Undefined
  | Throws => Throws
  end.

(** [o[k]] for an object that must hold [k]: reading a property of
    [undefined] throws. *)
Definition orThrow {A : Type} (o : option A) : TxReturn A :=
  match o with Some v => Value v | None => Throws end.

(** ** JS values *)

(** Truthiness of [string | null] and [number | null]. *)
Definition truthyStr (o : option string) : bool :=
  match o with
  | Some u => negb (String.eqb u "")
  | None => false
  end.

Definition truthyNum (o : option Z) : bool :=
  match o with
  | Some n => negb (n =? 0)
  | None => false
  end.

(** [a === b] on [string | null | undefined] against a string. *)
Definition strictEqOpt (a : option string) (b : string) : bool :=
  match a with
  | Some x => String.eqb x b
  | None => false
  end.

(** [arr.pop()]: the last element and the array without it. *)
Definition pop {A : Type} (l : list A) : option (A * list A) :=
  match last l with
  | Some x => Some (x, removelast l)
  | None => None
  end.

(** [Array.from(new Set(xs))]: first occurrences, in order. *)
Fixpoint setFrom (seen : list string) (xs : list string) : list string :=
  match xs with
  | [] => seen
  | x :: rest =>
      if bool_decide (x ∈ seen) then setFrom seen rest
      else setFrom (seen ++ [x]) rest
  end.

(** *** Objects with observable key order *)

(** A property key is an array index when it is the decimal numeral of an
    integer below [2^32 - 1], written without sign or leading zero.
    [Object.keys] lists such keys first, in ascending numeric order, and the
    other keys after them in the order in which they were created. *)
Definition digitValue (a : Ascii.ascii) : option N :=
  let n := Ascii.N_of_ascii a in
  if (48 <=? n)%N && (n <=? 57)%N then Some (n - 48)%N else None.

Fixpoint parseDigits (acc : N) (s : string) : option N :=
  match s with
  | EmptyString => Some acc
  | String a rest =>
      match digitValue a with
      | Some d => parseDigits (10 * acc + d)%N rest
      | None => None
      end
  end.

Definition arrayIndex (k : string) : option N :=
  match k with
  | EmptyString => None
  | String a rest =>
      if (Ascii.N_of_ascii a =? 48)%N && negb (String.eqb rest "") then None
      else match parseDigits 0 k with
           | Some n => if (n <? 4294967295)%N then Some n else None
           | None => None
           end
  end.

(** Whether a new key [k] is listed before the existing key [k']. *)
Definition keyBefore (k k' : string) : bool :=
  match arrayIndex k with
  | Some n =>
      match arrayIndex k' with
      | Some n' => (n <? n')%N
      | None => true
      end
  | None => false
  end.

(** The keys of an object that already has the keys [ks], in this order,
    after the new key [k] is created. *)
Fixpoint keyInsert (k : string) (ks : list string) : list string :=
  match ks with
  | [] => [k]
  | k' :: rest => if keyBefore k k' then k :: ks else k' :: keyInsert k rest
  end.

(** [Object.keys] of an object created empty that was given the keys [l]
    one after the other. *)
Definition keysOf (l : list string) : list string :=
  foldl (fun ks k => if bool_decide (k ∈ ks) then ks else keyInsert k ks) [] l.

Section Obj.
Context {V : Type}.

(** [o[k]] *)
Fixpoint objGet (k : string) (o : list (string * V)) : option V :=
  match o with
  | [] => None
  | (k', v) :: rest => if String.eqb k' k then Some v else objGet k rest
  end.

(** [o[k] = v] on a key the object has: the key keeps its place. *)
Fixpoint objReplace (k : string) (v : V) (o : list (string * V)) : list (string * V) :=
  match o with
  | [] => []
  | (k', v') :: rest =>
      if String.eqb k' k then (k', v) :: rest else (k', v') :: objReplace k v rest
  end.

(** [o[k] = v] on a key the object does not have: an array index goes
    before the first key that is a larger array index or no array index,
    any other key goes last. *)
Fixpoint objInsert (k : string) (v : V) (o : list (string * V)) : list (string * V) :=
  match o with
  | [] => [(k, v)]
  | (k', v') :: rest =>
      if keyBefore k k' then (k, v) :: o else (k', v') :: objInsert k v rest
  end.

(** [o[k] = v] *)
Definition objSet (k : string) (v : V) (o : list (string * V)) : list (string * V) :=
  match objGet k o with
  | Some _ => objReplace k v o
  | None => objInsert k v o
  end.

(** [Object.keys(o)] *)
Definition objKeys (o : list (string * V)) : list string := o.*1.

Definition objValues (o : list (string * V)) : list V := o.*2.
End Obj.

(** [uids.indexOf(u)], -1 when absent. *)
Fixpoint indexOf (u : string) (l : list string) : Z :=
  match l with
  | [] => -1
  | x :: rest =>
      if String.eqb x u then 0
      else let i := indexOf u rest in if i <? 0 then -1 else i + 1
  end.

(** [arr[i]] for a numeric index. *)
Definition atIndex {A : Type} (l : list A) (i : Z) : option A :=
  if i <? 0 then None else l !! Z.to_nat i.

(** ** Cards, deck and meld classifier ([part_003], lines 25-141) *)

(** [type Suit = "C" | "D" | "H" | "S"] *)
Inductive Suit : Type := Clubs | Diamonds | Hearts | Spades.

Global Instance Suit_eq_dec : EqDecision Suit.
Proof. solve_decision. Defined.

Definition suitLetter (x : Suit) : string :=
  match x with
  | Clubs => "C"
  | Diamonds => "D"
  | Hearts => "H"
  | Spades => "S"
  end.

(** [type CardT = { id: string; r: number; s: Suit }] *)
Record CardT : Type := mkCard { id : string; r : Z; s : Suit }.

Global Instance CardT_eq_dec : EqDecision CardT.
Proof. solve_decision. Defined.

Inductive MeldKind : Type := KindSet | KindRun.

Global Instance MeldKind_eq_dec : EqDecision MeldKind.
Proof. solve_decision. Defined.

(** [`${s}-${r}-${crypto.randomUUID()}`] *)
Definition cardId (x : Suit) (rank : Z) (uuid : string) : string :=
  suitLetter x +:+ "-" +:+ pretty rank +:+ "-" +:+ uuid.

Definition ranks : list Z := [1; 2; 3; 4; 5; 6; 7; 8; 9; 10; 11; 12; 13].
Definition suits : list Suit := [Clubs; Diamonds; Hearts; Spades].

(** [makeDeck]: [uuid n] is the result of the [n]-th call of
    [crypto.randomUUID()]. *)
Definition makeDeck (uuid : nat -> string) : list CardT :=
  imap (fun n sr => mkCard (cardId sr.1 sr.2 (uuid n)) sr.2 sr.1)
       (x ← suits; (fun rank => (x, rank)) <$> ranks).

(** [[a[i], a[j]] = [a[j], a[i]]].  Both indices are inside the array in
    every call [shuffle] makes, see [shuffle]. *)
Definition swap {A : Type} (i j : nat) (a : list A) : list A :=
  match a !! i, a !! j with
  | Some x, Some y => <[j := x]> (<[i := y]> a)
  | _, _ => a
  end.

(** The loop [for (let i = ...; i > 0; i--)] of [shuffle], from [i] down
    to 1; [rnd i] is [Math.floor(Math.random() * (i + 1))], a number
    between 0 and [i]. *)
Fixpoint shuffleFrom {A : Type} (rnd : nat -> nat) (i : nat) (a : list A) : list A :=
  match i with
  | O => a
  | S i' => shuffleFrom rnd i' (swap i (rnd i) a)
  end.

Definition shuffle {A : Type} (rnd : nat -> nat) (arr : list A) : list A :=
  shuffleFrom rnd (length arr - 1)%nat arr.

(** [new Set(xs).size] *)
Fixpoint distinctCount {A : Type} `{EqDecision A} (xs : list A) : nat :=
  match xs with
  | [] => O
  | x :: rest =>
      if bool_decide (x ∈ rest) then distinctCount rest
      else S (distinctCount rest)
  end.

Definition isValidSet (cards : list CardT) : bool :=
  if (length cards <? 3)%nat then false
  else match cards with
       | [] => false
       | c0 :: _ =>
           if negb (forallb (fun c => r c =? r c0) cards) then false
           else (distinctCount (s <$> cards) =? length cards)%nat
       end.

(** The loop [for (i = 1; ...) if (rs[i] !== rs[i - 1] + 1) return false]. *)
Fixpoint consecutive (rs : list Z) : bool :=
  match rs with
  | a :: (b :: _) as rest => (b =? a + 1) && consecutive rest
  | _ => true
  end.

Definition isValidRun (cards : list CardT) : bool :=
  if (length cards <? 3)%nat then false
  else match cards with
       | [] => false
       | c0 :: _ =>
           if negb (forallb (fun c => bool_decide (s c = s c0)) cards) then false
           else consecutive (merge_sort Z.le (r <$> cards))
       end.

(** [{ ok: boolean; kind?: MeldKind }] *)
Record Classified : Type := { ok : bool; kind : option MeldKind }.

Definition classifyMeld (cards : list CardT) : Classified :=
  if isValidSet cards then {| ok := true; kind := Some KindSet |}
  else if isValidRun cards then {| ok := true; kind := Some KindRun |}
  else {| ok := false; kind := None |}.

(** ** The room document *)

(** ["lobby" | "playing"], the type of both [status] and [game.phase]. *)
Inductive Stage : Type := lobby | playing.

Global Instance Stage_eq_dec : EqDecision Stage.
Proof. solve_decision. Defined.

(** ["draw" | "discard"] *)
Inductive Step : Type := StepDraw | StepDiscard.

Global Instance Step_eq_dec : EqDecision Step.
Proof. solve_decision. Defined.

(** [type DiscardCard = CardT & { fromUid: string | null; at: number }] *)
Record DiscardCard : Type := { card : CardT; fromUid : option string; at_ : Z }.

(** [type Origin = { kind: "stock" | "discard"; fromUid: string | null }] *)
Inductive OriginKind : Type := FromStock | FromDiscard.

Global Instance OriginKind_eq_dec : EqDecision OriginKind.
Proof. solve_decision. Defined.

Record Origin : Type := { originKind : OriginKind; originFromUid : option string }.

(** [type Meld]; [meldKind] holds [cls.kind!], an assertion that is erased
    at run time. *)
Record Meld : Type := {
  meldId : string;
  ownerUid : string;
  meldKind : option MeldKind;
  cards : list CardT;
  createdAt : Z
}.

(** [type GamePlayer] *)
Record GamePlayer : Type := {
  name : string;
  hand : list CardT;
  hasMelded : bool;
  score : Z;
  scoredCards : list CardT;
  lastTurnTookDiscardFromUid : option string
}.

(** The value at [rooms/<id>/game], [Partial<GameState>]: a scalar that is
    absent or [null] is [None], an array or object that is absent is empty
    (every read of one goes through [Array.isArray(x) ? x : []] or
    [x ?? {}]).  [players] is enumerated with [Object.keys], so its key order
    is part of the value. *)
Record GameState : Type := {
  phase : option Stage;
  startedAt : option Z;
  turnUid : option string;
  step : option Step;
  headCardId : option string;
  stock : list CardT;
  discard : list DiscardCard;
  cardOrigins : gmap string Origin;
  tableMelds : list Meld;
  players : list (string * GamePlayer);
  winnerUid : option string;
  endedAt : option Z
}.

(** Assignments to one property of [cur], and of a player. *)
Definition setTurnUid (v : option string) (g : GameState) : GameState :=
  {| phase := phase g; startedAt := startedAt g; turnUid := v; step := step g;
     headCardId := headCardId g; stock := stock g; discard := discard g;
     cardOrigins := cardOrigins g; tableMelds := tableMelds g;
     players := players g; winnerUid := winnerUid g; endedAt := endedAt g |}.

Definition setStep (v : option Step) (g : GameState) : GameState :=
  {| phase := phase g; startedAt := startedAt g; turnUid := turnUid g; step := v;
     headCardId := headCardId g; stock := stock g; discard := discard g;
     cardOrigins := cardOrigins g; tableMelds := tableMelds g;
     players := players g; winnerUid := winnerUid g; endedAt := endedAt g |}.

Definition setHeadCardId (v : option string) (g : GameState) : GameState :=
  {| phase := phase g; startedAt := startedAt g; turnUid := turnUid g; step := step g;
     headCardId := v; stock := stock g; discard := discard g;
     cardOrigins := cardOrigins g; tableMelds := tableMelds g;
     players := players g; winnerUid := winnerUid g; endedAt := endedAt g |}.

Definition setStock (v : list CardT) (g : GameState) : GameState :=
  {| phase := phase g; startedAt := startedAt g; turnUid := turnUid g; step := step g;
     headCardId := headCardId g; stock := v; discard := discard g;
     cardOrigins := cardOrigins g; tableMelds := tableMelds g;
     players := players g; winnerUid := winnerUid g; endedAt := endedAt g |}.

Definition setDiscard (v : list DiscardCard) (g : GameState) : GameState :=
  {| phase := phase g; startedAt := startedAt g; turnUid := turnUid g; step := step g;
     headCardId := headCardId g; stock := stock g; discard := v;
     cardOrigins := cardOrigins g; tableMelds := tableMelds g;
     players := players g; winnerUid := winnerUid g; endedAt := endedAt g |}.

Definition setCardOrigins (v : gmap string Origin) (g : GameState) : GameState :=
  {| phase := phase g; startedAt := startedAt g; turnUid := turnUid g; step := step g;
     headCardId := headCardId g; stock := stock g; discard := discard g;
     cardOrigins := v; tableMelds := tableMelds g;
     players := players g; winnerUid := winnerUid g; endedAt := endedAt g |}.

Definition setTableMelds (v : list Meld) (g : GameState) : GameState :=
  {| phase := phase g; startedAt := startedAt g; turnUid := turnUid g; step := step g;
     headCardId := headCardId g; stock := stock g; discard := discard g;
     cardOrigins := cardOrigins g; tableMelds := v;
     players := players g; winnerUid := winnerUid g; endedAt := endedAt g |}.

Definition setPlayers (v : list (string * GamePlayer)) (g : GameState) : GameState :=
  {| phase := phase g; startedAt := startedAt g; turnUid := turnUid g; step := step g;
     headCardId := headCardId g; stock := stock g; discard := discard g;
     cardOrigins := cardOrigins g; tableMelds := tableMelds g;
     players := v; winnerUid := winnerUid g; endedAt := endedAt g |}.

Definition setWinnerUid (v : option string) (g : GameState) : GameState :=
  {| phase := phase g; startedAt := startedAt g; turnUid := turnUid g; step := step g;
     headCardId := headCardId g; stock := stock g; discard := discard g;
     cardOrigins := cardOrigins g; tableMelds := tableMelds g;
     players := players g; winnerUid := v; endedAt := endedAt g |}.

Definition setEndedAt (v : option Z) (g : GameState) : GameState :=
  {| phase := phase g; startedAt := startedAt g; turnUid := turnUid g; step := step g;
     headCardId := headCardId g; stock := stock g; discard := discard g;
     cardOrigins := cardOrigins g; tableMelds := tableMelds g;
     players := players g; winnerUid := winnerUid g; endedAt := v |}.

Definition setHand (v : list CardT) (p : GamePlayer) : GamePlayer :=
  {| name := name p; hand := v; hasMelded := hasMelded p; score := score p;
     scoredCards := scoredCards p;
     lastTurnTookDiscardFromUid := lastTurnTookDiscardFromUid p |}.

Definition setHasMelded (v : bool) (p : GamePlayer) : GamePlayer :=
  {| name := name p; hand := hand p; hasMelded := v; score := score p;
     scoredCards := scoredCards p;
     lastTurnTookDiscardFromUid := lastTurnTookDiscardFromUid p |}.

Definition setScoredCards (v : list CardT) (p : GamePlayer) : GamePlayer :=
  {| name := name p; hand := hand p; hasMelded := hasMelded p; score := score p;
     scoredCards := v;
     lastTurnTookDiscardFromUid := lastTurnTookDiscardFromUid p |}.

Definition setLastTook (v : option string) (p : GamePlayer) : GamePlayer :=
  {| name := name p; hand := hand p; hasMelded := hasMelded p; score := score p;
     scoredCards := scoredCards p; lastTurnTookDiscardFromUid := v |}.

(** [type Slot = null | { uid: string; name: string; ready: boolean }] *)
Record Seat : Type := { uid : string; seatName : string; ready : bool }.

(** [Record<"1" | "2" | "3" | "4", Slot>] *)
Record Slots : Type := {
  slot1 : option Seat;
  slot2 : option Seat;
  slot3 : option Seat;
  slot4 : option Seat
}.

(** [type Room], every property optional. *)
Record Room : Type := {
  roomCreatedAt : option Z;
  status : option Stage;
  hostUid : option string;
  slots : option Slots;
  game : option GameState
}.

Definition EMPTY_SLOTS : Slots :=
  {| slot1 := None; slot2 := None; slot3 := None; slot4 := None |}.

Definition seatList (sl : Slots) : list (option Seat) :=
  [slot1 sl; slot2 sl; slot3 sl; slot4 sl].

(** ** Lobby page ([src/app/r/[roomId]/page.tsx]) *)

Module Lobby.

(** [room?.status ?? "lobby"] and [room?.game?.phase ?? "lobby"] *)
Definition statusOf (room : option Room) : Stage :=
  default lobby (room ≫= status).

Definition phaseOf (room : option Room) : Stage :=
  default lobby ((room ≫= game) ≫= phase).

(** The normalised [slots]: a typed seat passes the shape test, so the
    seats are the stored ones, or four empty seats when [room.slots] is
    absent. *)
Definition slotsOf (room : option Room) : Slots :=
  default EMPTY_SLOTS (room ≫= slots).

(** Update function of [leaveSlot]. *)
Definition leaveSlotTx (me : string) (current : option Seat) : TxReturn (option Seat) :=
  if strictEqOpt (uid <$> current) me then Value None else Value current.

(** Update function of [claimSlot]. *)
Definition claimSlotTx (me name : string) (current : option Seat) : TxReturn (option Seat) :=
  match current with
  | None => Value (Some {| uid := me; seatName := name; ready := false |})
  | Some c => if String.eqb (uid c) me then Value current (* refresh ok *)
              else Undefined (* abort *)
  end.

(** Update function of [toggleReady]. *)
Definition toggleReadyTx (me : string) (current : option Seat) : TxReturn (option Seat) :=
  match current with
  | None => Value current
  | Some c =>
      if negb (String.eqb (uid c) me) then Value current
      else Value (Some {| uid := uid c; seatName := seatName c; ready := negb (ready c) |})
  end.

(** [[slots["1"], ..., slots["4"]].filter(Boolean)] *)
Definition currentPlayers (sl : Slots) : list Seat :=
  omap (fun x => x) (seatList sl).

Definition everyoneReady (ps : list Seat) : bool :=
  (0 <? length ps)%nat && forallb (fun p => bool_decide (ready p = true)) ps.

Definition startable (st ph : Stage) (ps : list Seat) : bool :=
  bool_decide (st = lobby) && bool_decide (ph = lobby)
  && (2 <=? length ps)%nat && (length ps <=? 4)%nat && everyoneReady ps.

Definition canStart (room : option Room) : bool :=
  startable (statusOf room) (phaseOf room) (currentPlayers (slotsOf room)).

(** The game written by a successful start. *)
Definition startedGame (slot1Uid : option string) (now : Z) : GameState :=
  {| phase := Some playing; startedAt := Some now; turnUid := slot1Uid;
     step := Some StepDraw; headCardId := None; stock := []; discard := [];
     cardOrigins := ∅; tableMelds := []; players := [];
     winnerUid := None; endedAt := None |}.

(** [update(ref(db, `rooms/${roomId}`), { status, game })] *)
Definition updateStatusGame (st : Stage) (g : GameState) (room : Room) : Room :=
  {| roomCreatedAt := roomCreatedAt room; status := Some st;
     hostUid := hostUid room; slots := slots room; game := Some g |}.

(** [startGameBySlot1].  [me] is the caller's [uid], [room] the client's
    last snapshot, [latest] the value of [get(roomRef)], [now] is
    [Date.now()].  The result is the write that is issued, if any. *)
Definition startGameBySlot1 (me : option string) (room latest : option Room) (now : Z)
  : option (Room -> Room) :=
  if negb (truthyStr me) then None
  else
    let u := default "" me in
    if negb (strictEqOpt (uid <$> slot1 (slotsOf room)) u) then None
    else if negb (canStart room) then None
    else
      match latest with
      | None => None
      | Some _ =>
          let latestSlots := slotsOf latest in
          let latestPlayers := currentPlayers latestSlots in
          let latestSlot1Uid := uid <$> slot1 latestSlots in
          if negb (strictEqOpt latestSlot1Uid u) then None
          else if negb (startable (statusOf latest) (phaseOf latest) latestPlayers)
          then None
          else Some (updateStatusGame playing (startedGame latestSlot1Uid now))
      end.

End Lobby.

(** ** Earlier lobby page ([src/unnamed/part_002]).  Its seat transactions
    are those of [Lobby]; the start differs in what it writes. *)

Module LobbyV1.

(** [[...].filter((x) => x !== null)] *)
Definition currentPlayers (sl : Slots) : list Seat :=
  omap (fun x => x) (seatList sl).

Definition canStart (room : option Room) : bool :=
  bool_decide (Lobby.statusOf room = lobby)
  && bool_decide (Lobby.phaseOf room = lobby)
  && (2 <=? length (currentPlayers (Lobby.slotsOf room)))%nat
  && (length (currentPlayers (Lobby.slotsOf room)) <=? 4)%nat
  && Lobby.everyoneReady (currentPlayers (Lobby.slotsOf room)).

(** Update function of the start transaction on [rooms/<id>/game]. *)
Definition startTx (now : Z) (g : option GameState) : TxReturn (option GameState) :=
  match g with
  | None => Value g
  | Some g0 =>
      if negb (bool_decide (phase g0 = Some lobby)) then Value g
      else Value (Some
        {| phase := Some playing; startedAt := Some now; turnUid := turnUid g0;
           step := step g0; headCardId := headCardId g0; stock := stock g0;
           discard := discard g0; cardOrigins := cardOrigins g0;
           tableMelds := tableMelds g0; players := players g0;
           winnerUid := winnerUid g0; endedAt := endedAt g0 |})
  end.

(** The transaction on the game followed by
    [update(roomRef, { status: "playing" })]. *)
Definition startWrites (now : Z) (room : Room) : Room :=
  {| roomCreatedAt := roomCreatedAt room; status := Some playing;
     hostUid := hostUid room; slots := slots room;
     game := snapshot (runTransaction (startTx now) (game room)) |}.

Definition startGameBySlot1 (me : option string) (room latest : option Room) (now : Z)
  : option (Room -> Room) :=
  if negb (truthyStr me) then None
  else
    let u := default "" me in
    if negb (strictEqOpt (uid <$> slot1 (Lobby.slotsOf room)) u) then None
    else if negb (canStart room) then None
    else
      match latest with
      | None => None
      | Some _ =>
          let latestSlots := Lobby.slotsOf latest in
          let latestPlayers := currentPlayers latestSlots in
          let latestCount := length latestPlayers in
          let latestEveryoneReady := Lobby.everyoneReady latestPlayers in
          let latestSlot1Uid := uid <$> slot1 latestSlots in
          if negb (strictEqOpt latestSlot1Uid u) then None
          else if negb (bool_decide (Lobby.statusOf latest = lobby)
                        && bool_decide (Lobby.phaseOf latest = lobby)
                        && (2 <=? latestCount)%nat && (latestCount <=? 4)%nat
                        && latestEveryoneReady)
          then None
          else Some (startWrites now)
      end.

End LobbyV1.

(** ** Play page ([src/unnamed/part_003]) *)

(** [cur.phase !== "playing"] and [cur.winnerUid || cur.endedAt] *)
Definition isPlaying (g : GameState) : bool := bool_decide (phase g = Some playing).

Definition isEnded (g : GameState) : bool :=
  truthyStr (winnerUid g) || truthyNum (endedAt g).

(** [joinedUids]: the seats' uids, [filter(Boolean)] (which also drops an
    empty string), then [Array.from(new Set(uids))]. *)
Definition joinedUids (sl : Slots) : list string :=
  setFrom [] (filter (fun u : string => u ≠ "") (omap (fmap uid) (seatList sl))).

(** The client's view [g] of the game, [null] unless the phase is playing. *)
Definition viewGame (room : option Room) : option GameState :=
  match room ≫= game with
  | None => None
  | Some gm =>
      if negb (bool_decide (default lobby (phase gm) = playing)) then None
      else Some
        {| phase := Some playing; startedAt := startedAt gm; turnUid := turnUid gm;
           step := Some (default StepDraw (step gm)); headCardId := headCardId gm;
           stock := stock gm; discard := discard gm; cardOrigins := cardOrigins gm;
           tableMelds := tableMelds gm; players := players gm;
           winnerUid := winnerUid gm; endedAt := endedAt gm |}
  end.

(** A loop whose body may throw. *)
Fixpoint foldTx {A B : Type} (f : A -> B -> TxReturn A) (a : A) (l : list B) : TxReturn A :=
  match l with
  | [] => Value a
  | x :: rest => a' ← f a x; foldTx f a' rest
  end.

(** [hands[puid].push(deck.pop()!)].  On an empty deck the source pushes
    [undefined] and throws a few lines later, at [c.id]. *)
Definition dealOne (st : list (string * list CardT) * list CardT) (puid : string)
  : TxReturn (list (string * list CardT) * list CardT) :=
  h ← orThrow (objGet puid st.1);
  cd ← orThrow (pop st.2);
  Value (objSet puid (h ++ [cd.1]) st.1, cd.2).

(** [for (let i = 0; i < 7; i++) for (const puid of joinedUids) ...] *)
Fixpoint dealRounds (n : nat) (joined : list string)
    (st : list (string * list CardT) * list CardT)
  : TxReturn (list (string * list CardT) * list CardT) :=
  match n with
  | O => Value st
  | S n' => st' ← foldTx dealOne st joined; dealRounds n' joined st'
  end.

Definition markStock (o : gmap string Origin) (c : CardT) : gmap string Origin :=
  <[id c := {| originKind := FromStock; originFromUid := None |}]> o.

(** Body of the loop that fills [players] and [cardOrigins]. *)
Definition addPlayer (cur : GameState) (hands : list (string * list CardT))
    (acc : list (string * GamePlayer) * gmap string Origin) (puid : string)
  : TxReturn (list (string * GamePlayer) * gmap string Origin) :=
  h ← orThrow (objGet puid hands);
  Value (objSet puid
           {| name := default "Player" (name <$> objGet puid (players cur));
              hand := h; hasMelded := false; score := 0; scoredCards := [];
              lastTurnTookDiscardFromUid := None |} acc.1,
         foldl markStock acc.2 h).

(** Update function of the init effect (the deal).  [joined] is the
    client's [joinedUids]. *)
Definition dealTx (joined : list string) (uuid : nat -> string) (rnd : nat -> nat)
    (now : Z) (cur : option GameState) : TxReturn (option GameState) :=
  match cur with
  | None => Value cur
  | Some g =>
      if negb (isPlaying g) then Value cur
      else if (0 <? length (stock g))%nat || (0 <? length (discard g))%nat
      then Value cur
      else
        let deck := shuffle rnd (makeDeck uuid) in
        let hands0 := foldl (fun h puid => objSet puid [] h) [] joined in
        st ← dealRounds 7 joined (hands0, deck);
        let popped := pop st.2 in
        let head := fst <$> popped in
        let stock' := default st.2 (snd <$> popped) in
        pc ← foldTx (addPlayer g st.1) ([], ∅) joined;
        Value (Some
          {| phase := phase g; startedAt := startedAt g;
             turnUid := match turnUid g with
                        | Some t => Some t
                        | None => joined !! O
                        end;
             step := Some StepDraw;
             headCardId := id <$> head;
             stock := stock';
             discard := match head with
                        | Some h => [{| card := h; fromUid := None; at_ := now |}]
                        | None => []
                        end;
             cardOrigins := pc.2; tableMelds := []; players := pc.1;
             winnerUid := None; endedAt := None |})
  end.

(** The checks shared by the five actions' update functions: the game is
    being played, has no winner, and it is [me]'s turn at step [st]. *)
Definition myMove (me : string) (st : Step) (g : GameState) : bool :=
  isPlaying g && negb (isEnded g)
  && strictEqOpt (turnUid g) me && bool_decide (step g = Some st).

(** Update function of [drawStock]. *)
Definition drawStockTx (me : string) (cur : option GameState) : TxReturn (option GameState) :=
  match cur with
  | None => Value cur
  | Some g =>
      if negb (myMove me StepDraw g) then Value cur
      else match pop (stock g) with
           | None => Value cur
           | Some (c, stock') =>
               p ← orThrow (objGet me (players g));
               let p' := setLastTook None (setHand (hand p ++ [c]) p) in
               Value (Some
                 (setStep (Some StepDiscard)
                   (setCardOrigins (markStock (cardOrigins g) c)
                     (setPlayers (objSet me p' (players g))
                       (setStock stock' g)))))
           end
  end.

Definition markDiscard (from : option string) (o : gmap string Origin) (cid : string)
  : gmap string Origin :=
  <[cid := {| originKind := FromDiscard; originFromUid := from |}]> o.

(** Update function of [takeTopDiscard].  The popped object is pushed on the
    hand as it is; the hand is a [CardT[]], and nothing reads the two extra
    properties back. *)
Definition takeTopDiscardTx (me : string) (cur : option GameState) : TxReturn (option GameState) :=
  match cur with
  | None => Value cur
  | Some g =>
      if negb (myMove me StepDraw g) then Value cur
      else if (length (discard g) <? 2)%nat then Value cur
      else match pop (discard g) with
           | None => Value cur
           | Some (d, pile') =>
               p ← orThrow (objGet me (players g));
               let p' := setLastTook (fromUid d) (setHand (hand p ++ [card d]) p) in
               Value (Some
                 (setStep (Some StepDiscard)
                   (setCardOrigins (markDiscard (fromUid d) (cardOrigins g) (id (card d)))
                     (setPlayers (objSet me p' (players g))
                       (setDiscard pile' g)))))
           end
  end.

(** Update function of [eatHead]. *)
Definition eatHeadTx (me : string) (now : Z) (cur : option GameState) : TxReturn (option GameState) :=
  match cur with
  | None => Value cur
  | Some g =>
      if negb (myMove me StepDraw g) then Value cur
      else
        let pile := discard g in
        p ← orThrow (objGet me (players g));
        let origins :=
          foldl (fun o d => markDiscard (fromUid d) o (id (card d))) (cardOrigins g) pile in
        let popped := pop (stock g) in
        let newHead := fst <$> popped in
        let stock' := default (stock g) (snd <$> popped) in
        let p' := setLastTook None (setHand (hand p ++ (card <$> pile)) p) in
        Value (Some
          (setStep (Some StepDiscard)
            (setHeadCardId (id <$> newHead)
              (setDiscard (match newHead with
                           | Some h => [{| card := h; fromUid := None; at_ := now |}]
                           | None => []
                           end)
                (setStock stock'
                  (setCardOrigins origins
                    (setPlayers (objSet me p' (players g)) g)))))))
  end.

(** [hand.findIndex((c) => c.id === cardId)] with the card found. *)
Definition findCard (cardId : string) (h : list CardT) : option (nat * CardT) :=
  list_find (fun c => id c = cardId) h.

(** Update function of [discardCardById].  Without a player record the hand
    read is [[]] and the card is not found. *)
Definition discardCardByIdTx (me cardId : string) (now : Z) (cur : option GameState)
  : TxReturn (option GameState) :=
  match cur with
  | None => Value cur
  | Some g =>
      if negb (myMove me StepDiscard g) then Value cur
      else match objGet me (players g) with
           | None => Value cur
           | Some p =>
               match findCard cardId (hand p) with
               | None => Value cur
               | Some (idx, c) =>
                   let players' := objSet me (setHand (delete idx (hand p)) p) (players g) in
                   let uids := objKeys players' in
                   let curIndex := indexOf me uids in
                   let nextUid := atIndex uids (Z.rem (curIndex + 1) (Z.of_nat (length uids))) in
                   Value (Some
                     (setStep (Some StepDraw)
                       (setTurnUid nextUid
                         (setCardOrigins (markDiscard (Some me) (cardOrigins g) (id c))
                           (setDiscard (discard g ++ [{| card := c; fromUid := Some me; at_ := now |}])
                             (setPlayers players' g))))))
               end
           end
  end.

(** The comparator [(a, b) => b - a]. *)
Definition descending (a b : nat) : Prop := (b ≤ a)%nat.

Global Instance descending_dec : RelDecision descending.
Proof. intros a b. unfold descending. apply _. Defined.

(** [pickedIdx.sort((a, b) => b - a).forEach((i) => hand.splice(i, 1))] *)
Definition spliceAll (pickedIdx : list nat) (h : list CardT) : list CardT :=
  foldl (fun acc i => delete i acc) h (merge_sort descending pickedIdx).

Definition hasDiscardOrigin (origins : gmap string Origin) (c : CardT) : bool :=
  match origins !! id c with
  | Some o => bool_decide (originKind o = FromDiscard)
  | None => false
  end.

(** Update function of [layMeld].  [ids] is [Object.keys(selected)],
    [meldUuid] the meld's [crypto.randomUUID()]. *)
Definition layMeldTx (me : string) (ids : list string) (meldUuid : string) (now : Z)
    (cur : option GameState) : TxReturn (option GameState) :=
  match cur with
  | None => Value cur
  | Some g =>
      if negb (myMove me StepDiscard g) then Value cur
      else
        let h := default [] (hand <$> objGet me (players g)) in
        match mapM (fun cid => findCard cid h) ids with
        | None => Value cur
        | Some found =>
            let picked := found.*2 in
            let pickedIdx := found.*1 in
            let cls := classifyMeld picked in
            if negb (ok cls) then Value cur
            else if negb (existsb (hasDiscardOrigin (cardOrigins g)) picked) then Value cur
            else
              p ← orThrow (objGet me (players g));
              let meld := {| meldId := meldUuid; ownerUid := me; meldKind := kind cls;
                             cards := picked; createdAt := now |} in
              let p' := setScoredCards (scoredCards p ++ picked)
                          (setHasMelded true (setHand (spliceAll pickedIdx h) p)) in
              Value (Some
                (setPlayers (objSet me p' (players g))
                  (setTableMelds (tableMelds g ++ [meld]) g)))
        end
  end.

(** *** The actions as the page calls them

    Each action first tests the client's own snapshot [room] and proposes
    its transaction only when the tests pass; [cur] is the stored game the
    transaction then runs on, and the result is the stored game afterwards. *)

(** [const canTakeTopDiscard = !!g && g.discard.length >= 2] *)
Definition canTakeTopDiscard (g : option GameState) : bool :=
  match g with
  | Some g0 => (2 <=? length (discard g0))%nat
  | None => false
  end.

(** [!uid || !g], [!isMyTurn], [ended], [g.step !== st] *)
Definition mayPropose (me : option string) (g : option GameState) (st : Step) : bool :=
  match g with
  | None => false
  | Some g0 =>
      truthyStr me
      && strictEqOpt (turnUid g0) (default "" me)
      && negb (truthyNum (endedAt g0) || truthyStr (winnerUid g0))
      && bool_decide (step g0 = Some st)
  end.

Definition propose (tx : option GameState -> TxReturn (option GameState))
    (cur : option GameState) : option GameState :=
  snapshot (runTransaction tx cur).

Definition initEffect (me : option string) (room : option Room) (uuid : nat -> string)
    (rnd : nat -> nat) (now : Z) (cur : option GameState) : option GameState :=
  match viewGame room with
  | None => cur
  | Some g =>
      if negb (truthyStr me) then cur
      else if (0 <? length (stock g))%nat || (0 <? length (discard g))%nat then cur
      else propose (dealTx (joinedUids (Lobby.slotsOf room)) uuid rnd now) cur
  end.

Definition drawStock (me : option string) (room : option Room) (cur : option GameState)
  : option GameState :=
  let g := viewGame room in
  if negb (mayPropose me g StepDraw) then cur
  else if (default O (length <$> (stock <$> g)) <=? 0)%nat then cur
  else propose (drawStockTx (default "" me)) cur.

Definition takeTopDiscard (me : option string) (room : option Room) (cur : option GameState)
  : option GameState :=
  let g := viewGame room in
  if negb (mayPropose me g StepDraw) then cur
  else if negb (canTakeTopDiscard g) then cur
  else propose (takeTopDiscardTx (default "" me)) cur.

Definition eatHead (me : option string) (room : option Room) (now : Z)
    (cur : option GameState) : option GameState :=
  let g := viewGame room in
  if negb (mayPropose me g StepDraw) then cur
  else if (default O (length <$> (discard <$> g)) =? 0)%nat then cur
  else propose (eatHeadTx (default "" me) now) cur.

Definition discardCardById (me : option string) (room : option Room) (cardId : string)
    (now : Z) (cur : option GameState) : option GameState :=
  let g := viewGame room in
  if negb (mayPropose me g StepDiscard) then cur
  else propose (discardCardByIdTx (default "" me) cardId now) cur.

Definition layMeld (me : option string) (room : option Room) (ids : list string)
    (meldUuid : string) (now : Z) (cur : option GameState) : option GameState :=
  let g := viewGame room in
  if negb (mayPropose me g StepDiscard) then cur
  else if (length ids <? 3)%nat then cur
  else propose (layMeldTx (default "" me) ids meldUuid now) cur.

(** The five game actions, as transactions proposed by some client. *)
Inductive Action : Type :=
| DrawStock (me : string)
| TakeTopDiscard (me : string)
| EatHead (me : string) (now : Z)
| Discard (me cardId : string) (now : Z)
| LayMeld (me : string) (ids : list string) (meldUuid : string) (now : Z).

Definition actionTx (a : Action) : option GameState -> TxReturn (option GameState) :=
  match a with
  | DrawStock me => drawStockTx me
  | TakeTopDiscard me => takeTopDiscardTx me
  | EatHead me now => eatHeadTx me now
  | Discard me cardId now => discardCardByIdTx me cardId now
  | LayMeld me ids meldUuid now => layMeldTx me ids meldUuid now
  end.

Definition perform (cur : option GameState) (a : Action) : option GameState :=
  propose (actionTx a) cur.

(** [Object.keys(selected)] never lists a key twice. *)
Definition wellFormed (a : Action) : Prop :=
  match a with
  | LayMeld _ ids _ _ => NoDup ids
  | _ => True
  end.

(** ** Quantities the properties speak of *)

Definition handCount (g : GameState) : nat :=
  sum_list ((fun p => length (hand p)) <$> objValues (players g)).

Definition meldedCount (g : GameState) : nat :=
  sum_list ((fun m => length (cards m)) <$> tableMelds g).

(** Cards in hands, stock and pile. *)
Definition inPlay (g : GameState) : nat :=
  (handCount g + length (stock g) + length (discard g))%nat.

Definition allCards (g : GameState) : list CardT :=
  mjoin (hand <$> objValues (players g)) ++ stock g ++ (card <$> discard g).

(** The identity after [u] in the cyclic order [order]: the next entry, or
    the first one after the last. *)
Fixpoint nextAfter (first : string) (order : list string) (u : string) : option string :=
  match order with
  | [] => None
  | x :: rest =>
      if String.eqb x u then Some (default first (rest !! O))
      else nextAfter first rest u
  end.

Definition nextInOrder (order : list string) (u : string) : option string :=
  match order with
  | [] => None
  | first :: _ => nextAfter first order u
  end.

(** The classifier's contract, in the words of the design: a set is three
    or more cards of one rank with pairwise-distinct suits; a run is three
    or more cards of one suit whose ranks, sorted ascending, go up by one. *)
Definition SetShape (cs : list CardT) : Prop :=
  (3 ≤ length cs)%nat
  ∧ (∀ c c', c ∈ cs → c' ∈ cs → r c = r c')
  ∧ NoDup (s <$> cs).

Definition StepsOfOne (rs : list Z) : Prop :=
  ∀ (i : nat) (a b : Z), rs !! i = Some a → rs !! S i = Some b → b = a + 1.

Definition RunShape (cs : list CardT) : Prop :=
  (3 ≤ length cs)%nat
  ∧ (∀ c c', c ∈ cs → c' ∈ cs → s c = s c')
  ∧ ∃ rs : list Z, rs ≡ₚ r <$> cs ∧ Sorted Z.le rs ∧ StepsOfOne rs.

(** Claims on one seat, applied one after the other in the order the store
    serialises them: each claim's [committed] flag, and the seat at the end. *)
Fixpoint claimsInOrder (claims : list (string * string)) (cur : option Seat)
  : list bool * option Seat :=
  match claims with
  | [] => ([], cur)
  | (me, nm) :: rest =>
      let res := runTransaction (Lobby.claimSlotTx me nm) cur in
      let out := claimsInOrder rest (snapshot res) in
      (committed res :: out.1, out.2)
  end.

(** The start conditions on a room value, in the words of the design. *)
Definition occupiedCount (sl : Slots) : nat :=
  length (filter (fun x : option Seat => is_Some x) (seatList sl)).

Definition StartConditions (me : string) (rm : Room) : Prop :=
  let sl := default EMPTY_SLOTS (slots rm) in
  (uid <$> slot1 sl) = Some me
  ∧ default lobby (status rm) = lobby
  ∧ default lobby (game rm ≫= phase) = lobby
  ∧ (2 ≤ occupiedCount sl ≤ 4)%nat
  ∧ ∀ x : Seat, Some x ∈ seatList sl → ready x = true.

(** What a deal that took effect leaves behind: from the game [g] it found,
    with the identities [joined], the game [g']. *)
Definition FreshDeal (joined : list string) (uuid : nat → string) (now : Z)
    (g g' : GameState) : Prop :=
  objKeys (players g') = keysOf joined
  ∧ Forall (λ p, length (hand p) = 7%nat ∧ hasMelded p = false
                 ∧ score p = 0 ∧ scoredCards p = []) (objValues (players g'))
  ∧ allCards g' ≡ₚ makeDeck uuid
  ∧ (∃ head : CardT,
        discard g' = [{| card := head; fromUid := None; at_ := now |}]
        ∧ headCardId g' = Some (id head))
  ∧ tableMelds g' = []
  ∧ phase g' = phase g
  ∧ step g' = Some StepDraw
  ∧ turnUid g' = match turnUid g with Some t => Some t | None => joined !! O end
  ∧ winnerUid g' = None ∧ endedAt g' = None.

(** The four actions that move cards between hands, stock and pile only. *)
Definition keepsCardsInPlay (a : Action) : Prop :=
  match a with
  | LayMeld _ _ _ _ => False
  | _ => True
  end.

(** What every action keeps: the cards in play together with the melded
    ones, and the players object's keys; and all but [layMeld] keep the
    cards in play. *)
Definition Kept (a : Action) (g g' : GameState) : Prop :=
  (inPlay g' + meldedCount g' = inPlay g + meldedCount g)%nat
  ∧ (keepsCardsInPlay a → inPlay g' = inPlay g)
  ∧ objKeys (players g') = objKeys (players g).

(** One client's attempt at the deal: the seats it saw and its own UUIDs,
    random numbers and clock. *)
Record DealAttempt : Type := {
  seenSlots : Slots;
  uuids : nat → string;
  randoms : nat → nat;
  clock : Z
}.

Definition attemptDeal (cur : option GameState) (a : DealAttempt) : option GameState :=
  propose (dealTx (joinedUids (seenSlots a)) (uuids a) (randoms a) (clock a)) cur.

(** The game is being played, has no winner and has not ended, and it is
    [me]'s turn at step [st]. *)
Definition CallersTurn (me : string) (st : Step) (g : GameState) : Prop :=
  phase g = Some playing
  ∧ truthyStr (winnerUid g) = false ∧ truthyNum (endedAt g) = false
  ∧ turnUid g = Some me
  ∧ step g = Some st.

(** An example game: a player holding 4♠ 5♠ 6♠ and Q♥, on turn at step
    discard; [origin] is the recorded origin of the 5♠. *)
Definition runInHand (origin : OriginKind) : GameState :=
  {| phase := Some playing; startedAt := Some 1; turnUid := Some "u1";
     step := Some StepDiscard; headCardId := Some "h";
     stock := [mkCard "x" 9 Hearts];
     discard := [{| card := mkCard "h" 2 Clubs; fromUid := None; at_ := 1 |}];
     cardOrigins := {[ "a" := {| originKind := FromStock; originFromUid := None |};
                       "b" := {| originKind := origin; originFromUid := None |};
                       "c" := {| originKind := FromStock; originFromUid := None |} ]};
     tableMelds := [];
     players := [("u1", {| name := "Ann";
                           hand := [mkCard "a" 4 Spades; mkCard "b" 5 Spades;
                                    mkCard "c" 6 Spades; mkCard "d" 12 Hearts];
                           hasMelded := false; score := 0; scoredCards := [];
                           lastTurnTookDiscardFromUid := None |})];
     winnerUid := None; endedAt := None |}.

(** The pile as [eatHead] re-bases it: the card popped from the stock as
    the new head, or nothing when the stock is exhausted. *)
Definition rebasedPile (now : Z) (st : list CardT) : list DiscardCard :=
  match last st with
  | Some h => [{| card := h; fromUid := None; at_ := now |}]
  | None => []
  end.

(** ** Further code of the pages *)

(** *** The lobby game of a new room ([src/app/page.tsx]) and room codes
    ([src/lib/room.ts]) *)

(** [{ phase: "lobby", startedAt: null }] *)
Definition lobbyGame : GameState :=
  {| phase := Some lobby; startedAt := None; turnUid := None; step := None;
     headCardId := None; stock := []; discard := []; cardOrigins := ∅;
     tableMelds := []; players := []; winnerUid := None; endedAt := None |}.

Definition roomCodeChars : string := "ABCDEFGHJKLMNPQRSTUVWXYZ23456789".

(** [genRoomCode(len)]: [rnd i] is [Math.floor(Math.random() * chars.length)]
    of the [i]-th character.  [join] writes an [undefined] entry as the empty
    string. *)
Definition genRoomCode (rnd : nat → nat) (len : nat) : string :=
  foldr (λ i acc, match String.get (rnd i) roomCodeChars with
                  | Some ch => String ch acc
                  | None => acc
                  end) "" (seq 0 len).

(** *** Lobby page: migration and the seat actions of one client *)

(** The effect that fills in an old room: the [update] it issues, written
    from the snapshot [room], if any field is missing. *)
Definition autoMigrate (room : option Room) (now : Z) : option (Room → Room) :=
  match room with
  | None => None
  | Some rm =>
      let needSlots := negb (bool_decide (is_Some (slots rm))) in
      let needGame := negb (bool_decide (is_Some (game rm))) in
      let needStatus := negb (bool_decide (is_Some (status rm))) in
      let needCreatedAt := negb (truthyNum (roomCreatedAt rm)) in
      if negb needSlots && negb needGame && negb needStatus && negb needCreatedAt
      then None
      else Some (λ stored,
        {| roomCreatedAt := Some (default now (roomCreatedAt rm));
           status := Some (default lobby (status rm));
           hostUid := hostUid stored;
           slots := Some (default EMPTY_SLOTS (slots rm));
           game := Some (default lobbyGame (game rm)) |})
  end.

(** [1 | 2 | 3 | 4] *)
Inductive SeatNo : Type := Seat1 | Seat2 | Seat3 | Seat4.

Global Instance SeatNo_eq_dec : EqDecision SeatNo.
Proof. solve_decision. Defined.

(** The value at [rooms/<id>/slots/<n>] and the write of it. *)
Definition slotAt (n : SeatNo) (sl : Slots) : option Seat :=
  match n with
  | Seat1 => slot1 sl
  | Seat2 => slot2 sl
  | Seat3 => slot3 sl
  | Seat4 => slot4 sl
  end.

Definition setSlotAt (n : SeatNo) (v : option Seat) (sl : Slots) : Slots :=
  match n with
  | Seat1 => {| slot1 := v; slot2 := slot2 sl; slot3 := slot3 sl; slot4 := slot4 sl |}
  | Seat2 => {| slot1 := slot1 sl; slot2 := v; slot3 := slot3 sl; slot4 := slot4 sl |}
  | Seat3 => {| slot1 := slot1 sl; slot2 := slot2 sl; slot3 := v; slot4 := slot4 sl |}
  | Seat4 => {| slot1 := slot1 sl; slot2 := slot2 sl; slot3 := slot3 sl; slot4 := v |}
  end.

(** A transaction on one seat of the stored seats. *)
Definition onSeat (n : SeatNo) (tx : option Seat → TxReturn (option Seat)) (sl : Slots)
  : TxResult Slots :=
  let res := runTransaction tx (slotAt n sl) in
  {| committed := committed res; snapshot := setSlotAt n (snapshot res) sl |}.

(** What the page keeps for its user: [uid], [name] and [mySlot]. *)
Record Client : Type := { clientUid : option string; clientName : string; mySlot : option SeatNo }.

Definition withMySlot (v : option SeatNo) (c : Client) : Client :=
  {| clientUid := clientUid c; clientName := clientName c; mySlot := v |}.

(** [leaveSlot]: the stored seats and the client afterwards. *)
Definition leaveSlot (c : Client) (sl : Slots) : Slots * Client :=
  match mySlot c with
  | Some n =>
      if negb (truthyStr (clientUid c)) then (sl, c)
      else (snapshot (onSeat n (Lobby.leaveSlotTx (default "" (clientUid c))) sl),
            withMySlot None c)
  | None => (sl, c)
  end.

(** How a call of [claimSlot] ends: silently without a [uid], with one of
    the two alerts, or seated. *)
Inductive ClaimOutcome : Type := NoUid | GameAlreadyStarted | SlotTaken | Seated.

(** [claimSlot(slot)]; [st] is the [status] of the client's snapshot. *)
Definition claimSlot (c : Client) (st : Stage) (slot : SeatNo) (sl : Slots)
  : Slots * Client * ClaimOutcome :=
  if negb (truthyStr (clientUid c)) then (sl, c, NoUid)
  else if negb (bool_decide (st = lobby)) then (sl, c, GameAlreadyStarted)
  else
    let afterLeave :=
      match mySlot c with
      | Some n => if bool_decide (n ≠ slot) then leaveSlot c sl else (sl, c)
      | None => (sl, c)
      end in
    let res := onSeat slot
                 (Lobby.claimSlotTx (default "" (clientUid c)) (clientName c))
                 afterLeave.1 in
    if negb (committed res) then (snapshot res, afterLeave.2, SlotTaken)
    else (snapshot res, withMySlot (Some slot) afterLeave.2, Seated).

(** [toggleReady]: the stored seats afterwards. *)
Definition toggleReady (c : Client) (st : Stage) (sl : Slots) : Slots :=
  if negb (truthyStr (clientUid c)) then sl
  else match mySlot c with
       | None => sl
       | Some n =>
           if negb (bool_decide (st = lobby)) then sl
           else snapshot (onSeat n (Lobby.toggleReadyTx (default "" (clientUid c))) sl)
       end.

(** *** Play page: what is shown and selected *)

Definition suitSymbol (x : Suit) : string :=
  match x with
  | Clubs => "♣"
  | Diamonds => "♦"
  | Hearts => "♥"
  | Spades => "♠"
  end.

Definition cardLabel (c : CardT) : string :=
  (if r c =? 1 then "A"
   else if r c =? 11 then "J"
   else if r c =? 12 then "Q"
   else if r c =? 13 then "K"
   else pretty (r c)) +:+ suitSymbol (s c).

(** [headCard]: the pile card whose id is [g.headCardId]. *)
Definition headCard (g : option GameState) : option DiscardCard :=
  match g with
  | None => None
  | Some g0 =>
      if negb (truthyStr (headCardId g0)) then None
      else snd <$> list_find (λ d, Some (id (card d)) = headCardId g0) (discard g0)
  end.

(** [topDiscard] *)
Definition topDiscard (g : option GameState) : option DiscardCard :=
  match g with
  | None => None
  | Some g0 => last (discard g0)
  end.

(** [showDiscard]: the head and the last one or two cards laid on it. *)
Definition showDiscard (g : GameState) : list DiscardCard :=
  let head := discard g !! O in
  let tail := if (1 <? length (discard g))%nat
              then drop (length (discard g) - 2) (discard g)
              else [] in
  option_list head
  ++ filter (λ x, Some (id (card x)) ≠ (id ∘ card <$> head)) tail.

(** [delete o[k]] *)
Definition objDelete {V : Type} (k : string) (o : list (string * V)) : list (string * V) :=
  filter (λ kv, kv.1 ≠ k) o.

(** [toggleSelect] and [clearSelection] on [selected : Record<string, true>]. *)
Definition toggleSelect (cardId : string) (selected : list (string * unit))
  : list (string * unit) :=
  if bool_decide (is_Some (objGet cardId selected)) then objDelete cardId selected
  else objSet cardId () selected.

Definition clearSelection : list (string * unit) := [].

(** [s.replace(pat, by)] for a string pattern: the first occurrence. *)
Definition replaceFirst (pat by_ s : string) : string :=
  match String.index 0 pat s with
  | Some i =>
      String.substring 0 i s +:+ by_
      +:+ String.substring (i + String.length pat)
            (String.length s - (i + String.length pat)) s
  | None => s
  end.

(** What [onDragEnd] calls. *)
Inductive DragEffect : Type :=
| DragIgnored
| DragDiscard (cardId : string)
| DragToggle (cardId : string).

(** [onDragEnd]; [overId] is [None] when the card is dropped on nothing. *)
Definition onDragEnd (activeId : string) (overId : option string) : DragEffect :=
  let over := default "" overId in
  if negb (String.prefix "hand:" activeId) then DragIgnored
  else
    let cardId := replaceFirst "hand:" "" activeId in
    if String.eqb over "zone:discard" then DragDiscard cardId
    else if String.eqb over "zone:meld" then DragToggle cardId
    else DragIgnored.

(** The id [DraggableCard] gives a hand card. *)
Definition dragId (c : CardT) : string := "hand:" +:+ id c.

(** *** Quantities the further properties speak of *)

Definition meldedCards (g : GameState) : list CardT := mjoin (cards <$> tableMelds g).

(** Every card of the game: hands, stock, pile and melds. *)
Definition everyCard (g : GameState) : list CardT := allCards g ++ meldedCards g.

(** The cards of the melds [u] laid, in the order laid. *)
Definition meldsOf (u : string) (g : GameState) : list CardT :=
  mjoin (cards <$> filter (λ m, ownerUid m = u) (tableMelds g)).

(** [headCardId], when set, names the card at the bottom of the pile. *)
Definition HeadAtBottom (g : GameState) : Prop :=
  match headCardId g with
  | Some h => id ∘ card <$> discard g !! O = Some h
  | None => True
  end.

(** *** First lobby page (the second document of
    [src/app/r/[roomId]/page.tsx]).  Its seat transactions and its writes
    are those of [LobbyV1]; whether to start is decided on the client's
    snapshot alone. *)

Module LobbyV0.

(** [canStartNow(r, currentUid)].  The result is [None] when the evaluation
    throws: on a room without [slots], and, once the status is found to be
    lobby, on a room without [game]. *)
Definition canStartNow (r : Room) (currentUid : option string) : option bool :=
  match slots r with
  | None => None
  | Some sl =>
      let players := omap (fun x => x) (seatList sl) in
      let playerCount := length players in
      let allReady := forallb (fun p => bool_decide (ready p = true)) players in
      let slot1IsStarter :=
        match currentUid with
        | Some u => strictEqOpt (uid <$> slot1 sl) u
        | None => false
        end in
      if negb (bool_decide (status r = Some lobby)) then Some false
      else match game r with
           | None => None
           | Some g =>
               Some (bool_decide (phase g = Some lobby)
                     && (2 <=? playerCount)%nat && (playerCount <=? 4)%nat
                     && allReady && slot1IsStarter)
           end
  end.

(** [startGameBySlot1]: the writes that are issued, if any. *)
Definition startGameBySlot1 (me : option string) (room : option Room) (now : Z)
  : option (Room -> Room) :=
  if negb (truthyStr me) then None
  else match room with
       | None => None
       | Some r =>
           match canStartNow r me with
           | Some true => Some (LobbyV1.startWrites now)
           | _ => None
           end
       end.

End LobbyV0.

(** *** The five actions as a step relation

    [actor a] is the identity that proposes [a], [stepOf a] the step its
    update function asks for. *)
Definition actor (a : Action) : string :=
  match a with
  | DrawStock me | TakeTopDiscard me | EatHead me _ | Discard me _ _
  | LayMeld me _ _ _ => me
  end.

Definition stepOf (a : Action) : Step :=
  match a with
  | DrawStock _ | TakeTopDiscard _ | EatHead _ _ => StepDraw
  | Discard _ _ _ | LayMeld _ _ _ _ => StepDiscard
  end.

(** [Effect a g g']: on the stored game [g] the update function of [a]
    passes every one of its checks and returns [g']. *)
Inductive Effect : Action → GameState → GameState → Prop :=
| Effect_draw (me : string) (g : GameState) (p : GamePlayer) (c : CardT) (st : list CardT) :
    CallersTurn me StepDraw g → objGet me (players g) = Some p →
    stock g = st ++ [c] →
    Effect (DrawStock me) g
      (setStep (Some StepDiscard)
        (setCardOrigins (markStock (cardOrigins g) c)
          (setPlayers
            (objSet me (setLastTook None (setHand (hand p ++ [c]) p)) (players g))
            (setStock st g))))
| Effect_take (me : string) (g : GameState) (p : GamePlayer) (d : DiscardCard)
    (pile : list DiscardCard) :
    CallersTurn me StepDraw g → objGet me (players g) = Some p →
    discard g = pile ++ [d] → pile ≠ [] →
    Effect (TakeTopDiscard me) g
      (setStep (Some StepDiscard)
        (setCardOrigins (markDiscard (fromUid d) (cardOrigins g) (id (card d)))
          (setPlayers
            (objSet me (setLastTook (fromUid d) (setHand (hand p ++ [card d]) p))
               (players g))
            (setDiscard pile g))))
| Effect_eat (me : string) (now : Z) (g : GameState) (p : GamePlayer) :
    CallersTurn me StepDraw g → objGet me (players g) = Some p →
    Effect (EatHead me now) g
      (setStep (Some StepDiscard)
        (setHeadCardId (id <$> last (stock g))
          (setDiscard (rebasedPile now (stock g))
            (setStock (removelast (stock g))
              (setCardOrigins
                (foldl (λ o d, markDiscard (fromUid d) o (id (card d)))
                   (cardOrigins g) (discard g))
                (setPlayers
                  (objSet me
                     (setLastTook None (setHand (hand p ++ (card <$> discard g)) p))
                     (players g))
                  g))))))
| Effect_discard (me cardId : string) (now : Z) (g : GameState) (p : GamePlayer)
    (idx : nat) (c : CardT) :
    CallersTurn me StepDiscard g → objGet me (players g) = Some p →
    findCard cardId (hand p) = Some (idx, c) →
    Effect (Discard me cardId now) g
      (setStep (Some StepDraw)
        (setTurnUid (nextInOrder (objKeys (players g)) me)
          (setCardOrigins (markDiscard (Some me) (cardOrigins g) (id c))
            (setDiscard
              (discard g ++ [{| card := c; fromUid := Some me; at_ := now |}])
              (setPlayers
                (objSet me (setHand (delete idx (hand p)) p) (players g)) g)))))
| Effect_meld (me : string) (ids : list string) (meldUuid : string) (now : Z)
    (g : GameState) (p : GamePlayer) (found : list (nat * CardT)) :
    CallersTurn me StepDiscard g → objGet me (players g) = Some p →
    mapM (λ cid, findCard cid (hand p)) ids = Some found →
    ok (classifyMeld found.*2) = true →
    existsb (hasDiscardOrigin (cardOrigins g)) found.*2 = true →
    Effect (LayMeld me ids meldUuid now) g
      (setPlayers
        (objSet me
           (setScoredCards (scoredCards p ++ found.*2)
              (setHasMelded true (setHand (spliceAll found.*1 (hand p)) p)))
           (players g))
        (setTableMelds
          (tableMelds g
           ++ [{| meldId := meldUuid; ownerUid := me;
                  meldKind := kind (classifyMeld found.*2);
                  cards := found.*2; createdAt := now |}])
          g)).

(** What no action touches: the phase, the start and end marks, the winner,
    and of every player the key, the name and the score. *)
Definition SameSetup (g g' : GameState) : Prop :=
  phase g' = phase g ∧ startedAt g' = startedAt g
  ∧ winnerUid g' = winnerUid g ∧ endedAt g' = endedAt g
  ∧ (λ kp : string * GamePlayer, (kp.1, name kp.2, score kp.2)) <$> players g'
    = (λ kp : string * GamePlayer, (kp.1, name kp.2, score kp.2)) <$> players g.

(** Each player's [scoredCards] are the cards of the melds the player laid,
    and [hasMelded] says whether there are any. *)
Definition ScoredAreMelded (g : GameState) : Prop :=
  ∀ (u : string) (p : GamePlayer), objGet u (players g) = Some p →
    scoredCards p = meldsOf u g ∧ (hasMelded p = true ↔ meldsOf u g ≠ []).

(** * Properties *)

(** ** Arrays and objects *)

Lemma pop_snoc {A : Type} (l : list A) (x : A) : pop (l ++ [x]) = Some (x, l).
Proof.
  unfold pop. rewrite last_snoc. by rewrite removelast_last.
Qed.

Lemma pop_nil {A : Type} : pop (@nil A) = None.
Proof. reflexivity. Qed.

Lemma pop_Some {A : Type} (l l' : list A) (x : A) :
  pop l = Some (x, l') ↔ l = l' ++ [x].
Proof.
  split.
  - destruct l as [|y l0] using rev_ind; [done|].
    rewrite pop_snoc. by intros [= -> ->].
  - intros ->. apply pop_snoc.
Qed.

Lemma pop_None {A : Type} (l : list A) : pop l = None ↔ l = [].
Proof.
  split; [|by intros ->].
  destruct l as [|y l0] using rev_ind; [done|]. by rewrite pop_snoc.
Qed.

Lemma String_eqb_decide (a b : string) : String.eqb a b = bool_decide (a = b).
Proof.
  destruct (String.eqb_spec a b) as [->| Hne].
  - by rewrite bool_decide_eq_true_2.
  - by rewrite bool_decide_eq_false_2.
Qed.

Section ObjFacts.
Context {V : Type}.
Implicit Types (o : list (string * V)) (k : string) (v : V).

Lemma objGet_Some_elem k v o : objGet k o = Some v → (k, v) ∈ o.
Proof.
  induction o as [|[k' v'] o IH]; simpl; [done|].
  rewrite String_eqb_decide. case_bool_decide as Hk.
  - intros [= ->]. subst. left.
  - intros Hg. right. by apply IH.
Qed.

Lemma objGet_is_Some k o : is_Some (objGet k o) ↔ k ∈ objKeys o.
Proof.
  unfold objKeys. induction o as [|[k' v'] o IH]; simpl.
  - split; [by intros [? ?]|]. by intros ?%elem_of_nil.
  - rewrite String_eqb_decide. case_bool_decide as Hk.
    + subst. split; [intros _; left | by eauto].
    + rewrite IH. split; [by right|].
      intros [?|?]%elem_of_cons; [congruence | done].
Qed.

Lemma objGet_None k o : objGet k o = None ↔ k ∉ objKeys o.
Proof.
  rewrite <- objGet_is_Some. rewrite eq_None_not_Some. done.
Qed.

Lemma objSet_present k v v0 o : objGet k o = Some v0 → objSet k v o = objReplace k v o.
Proof. unfold objSet. by intros ->. Qed.

Lemma objSet_absent k v o : objGet k o = None → objSet k v o = objInsert k v o.
Proof. unfold objSet. by intros ->. Qed.

Lemma objSet_keys k v o : is_Some (objGet k o) → objKeys (objSet k v o) = objKeys o.
Proof.
  intros [v0 Hv0]. rewrite (objSet_present k v v0 o Hv0). clear Hv0.
  unfold objKeys. induction o as [|[k' v'] o IH]; simpl; [done|].
  destruct (String.eqb k' k); simpl; [done|]. by f_equal.
Qed.

Lemma objInsert_keys k v o : objKeys (objInsert k v o) = keyInsert k (objKeys o).
Proof.
  unfold objKeys. induction o as [|[k' v'] o IH]; simpl; [done|].
  destruct (keyBefore k k'); simpl; [done|]. by f_equal.
Qed.

(** A new key takes one place among the entries, which keep theirs. *)
Lemma objInsert_split k v o :
  ∃ o1 o2, o = o1 ++ o2 ∧ objInsert k v o = o1 ++ (k, v) :: o2.
Proof.
  induction o as [|[k' v'] o IH]; simpl.
  - by exists [], [].
  - destruct (keyBefore k k').
    + by exists [], ((k', v') :: o).
    + destruct IH as (o1 & o2 & -> & ->). by exists ((k', v') :: o1), o2.
Qed.

Lemma objSet_new_split k v o :
  objGet k o = None → ∃ o1 o2, o = o1 ++ o2 ∧ objSet k v o = o1 ++ (k, v) :: o2.
Proof. intros Hn. rewrite objSet_absent by done. apply objInsert_split. Qed.

Lemma keyBefore_no_index k k' : arrayIndex k = None → keyBefore k k' = false.
Proof. unfold keyBefore. by intros ->. Qed.

(** A new key that is no array index goes last. *)
Lemma objSet_fresh k v o :
  arrayIndex k = None → objGet k o = None → objSet k v o = o ++ [(k, v)].
Proof.
  intros Hk Hn. rewrite objSet_absent by done. clear Hn.
  induction o as [|[k' v'] o IH]; simpl; [done|].
  rewrite keyBefore_no_index by done. by f_equal.
Qed.

Lemma objSet_new_keys k v o :
  objGet k o = None → objKeys (objSet k v o) ≡ₚ k :: objKeys o.
Proof.
  intros Hn. destruct (objSet_new_split k v o Hn) as (o1 & o2 & -> & ->).
  unfold objKeys. rewrite !fmap_app, fmap_cons. simpl.
  by rewrite <- Permutation_middle.
Qed.

Lemma objGet_app_None k o1 o2 :
  objGet k (o1 ++ o2) = None ↔ objGet k o1 = None ∧ objGet k o2 = None.
Proof.
  induction o1 as [|[k' v'] o1 IH]; simpl.
  - split; [done|]. by intros [_ ?].
  - destruct (String.eqb k' k); [|done]. split; [done|]. by intros [? _].
Qed.

Lemma objGet_objSet k k' v o :
  objGet k' (objSet k v o) = if bool_decide (k = k') then Some v else objGet k' o.
Proof.
  destruct (objGet k o) as [v0|] eqn:Hk.
  - rewrite (objSet_present k v v0 o Hk). revert Hk.
    induction o as [|[k0 v0'] o IH]; simpl; [done|].
    destruct (String.eqb_spec k0 k) as [->|Hne]; simpl.
    + intros _. destruct (String.eqb_spec k k') as [->|Hne'].
      * by rewrite bool_decide_eq_true_2.
      * by rewrite bool_decide_eq_false_2.
    + intros Hk. destruct (String.eqb_spec k0 k') as [->|Hne']; [|by apply IH].
      by rewrite bool_decide_eq_false_2 by congruence.
  - destruct (objSet_new_split k v o Hk) as (o1 & o2 & -> & ->).
    apply objGet_app_None in Hk as [Hk1 Hk2]. clear Hk2.
    induction o1 as [|[k0 v0] o1 IH]; simpl.
    + rewrite String_eqb_decide. by case_bool_decide.
    + simpl in Hk1. destruct (String.eqb_spec k0 k) as [->|Hne]; [done|].
      destruct (String.eqb_spec k0 k') as [->|Hne']; [|by apply IH].
      by rewrite bool_decide_eq_false_2 by congruence.
Qed.

(** Replacing the value under a present key changes any additive measure
    of the values by the difference of the two values' measures. *)
Lemma objSet_sum (f : V → nat) k v v' o :
  objGet k o = Some v →
  (sum_list (f <$> objValues (objSet k v' o)) + f v
   = sum_list (f <$> objValues o) + f v')%nat.
Proof.
  intros Hg. rewrite (objSet_present k v' v o Hg). revert Hg.
  unfold objValues. induction o as [|[k0 v0] o IH]; csimpl; [done|].
  rewrite String_eqb_decide. case_bool_decide as Hk.
  - intros [= ->]. csimpl. lia.
  - intros Hg. csimpl. specialize (IH Hg). lia.
Qed.

Lemma objSet_split k v v' o :
  objGet k o = Some v →
  ∃ o1 o2, o = o1 ++ (k, v) :: o2 ∧ objSet k v' o = o1 ++ (k, v') :: o2.
Proof.
  intros Hg. rewrite (objSet_present k v' v o Hg). revert Hg.
  induction o as [|[k0 v0] o IH]; simpl; [done|].
  rewrite String_eqb_decide. case_bool_decide as Hk.
  - intros [= ->]. subst. by exists [], o.
  - intros Hg. destruct (IH Hg) as (o1 & o2 & -> & ->).
    by exists ((k0, v0) :: o1), o2.
Qed.
End ObjFacts.

Lemma sum_list_mjoin_length {A : Type} (ls : list (list A)) :
  length (mjoin ls) = sum_list (length <$> ls).
Proof.
  induction ls as [|l ls IH]; simpl; [done|].
  rewrite length_app. by rewrite IH.
Qed.

(** ** Deck and shuffle *)

Lemma swap_Permutation {A : Type} (i j : nat) (a : list A) : swap i j a ≡ₚ a.
Proof.
  unfold swap.
  destruct (a !! i) as [x|] eqn:Hi; [|done].
  destruct (a !! j) as [y|] eqn:Hj; [|done].
  by apply Permutation_insert_swap.
Qed.

Lemma shuffle_Permutation {A : Type} (rnd : nat → nat) (arr : list A) :
  shuffle rnd arr ≡ₚ arr.
Proof.
  unfold shuffle. generalize (length arr - 1)%nat as n.
  intros n. revert arr.
  induction n as [|n IH]; intros arr; simpl; [done|].
  rewrite IH. apply swap_Permutation.
Qed.

Lemma makeDeck_length (uuid : nat → string) : length (makeDeck uuid) = 52%nat.
Proof. unfold makeDeck. by rewrite length_imap. Qed.

Lemma rankText_inj (rk rk' : Z) (u u' : string) :
  rk ∈ ranks → rk' ∈ ranks →
  pretty rk +:+ "-" +:+ u = pretty rk' +:+ "-" +:+ u' → rk = rk'.
Proof.
  unfold ranks. intros H1 H2.
  repeat (apply elem_of_cons in H1 as [->|H1]); [..|by apply elem_of_nil in H1];
    repeat (apply elem_of_cons in H2 as [->|H2]);
    try (by apply elem_of_nil in H2);
    intros Heq; vm_compute in Heq; congruence.
Qed.

Lemma cardId_inj (x x' : Suit) (rk rk' : Z) (u u' : string) :
  rk ∈ ranks → rk' ∈ ranks →
  cardId x rk u = cardId x' rk' u' → x = x' ∧ rk = rk'.
Proof.
  intros H1 H2 Heq. unfold cardId in Heq.
  destruct x, x'; simpl in Heq; try discriminate Heq;
    injection Heq as Heq; (split; [done|]);
    by apply (rankText_inj rk rk' u u').
Qed.

(** The card identities of a fresh deck are pairwise distinct whatever the
    UUIDs are: the suit and rank are part of the identity. *)
Lemma makeDeck_NoDup_id (uuid : nat → string) : NoDup (id <$> makeDeck uuid).
Proof.
  apply NoDup_alt. intros i j cid Hi Hj.
  rewrite list_lookup_fmap in Hi. rewrite list_lookup_fmap in Hj.
  unfold makeDeck in Hi, Hj.
  rewrite list_lookup_imap in Hi. rewrite list_lookup_imap in Hj.
  set (pairs := x ← suits; (λ rank : Z, (x, rank)) <$> ranks) in *.
  destruct (pairs !! i) as [[x rk]|] eqn:Ei; [|done].
  destruct (pairs !! j) as [[x' rk']|] eqn:Ej; [|done].
  simpl in Hi, Hj. injection Hi as Hi. injection Hj as Hj.
  assert (Hall : Forall (λ p : Suit * Z, p.2 ∈ ranks) pairs).
  { subst pairs. apply (bool_decide_unpack _). by vm_compute. }
  assert (Hnd : NoDup pairs).
  { subst pairs. apply (bool_decide_unpack _). by vm_compute. }
  pose proof (proj1 (Forall_lookup _ _) Hall i _ Ei) as Hri.
  pose proof (proj1 (Forall_lookup _ _) Hall j _ Ej) as Hrj.
  simpl in Hri, Hrj.
  destruct (cardId_inj x x' rk rk' (uuid i) (uuid j)) as [-> ->];
    [done | done | congruence |].
  eapply NoDup_lookup; eauto.
Qed.

(** ** Meld classifier *)

Lemma distinctCount_le {A : Type} `{EqDecision A} (xs : list A) :
  (distinctCount xs ≤ length xs)%nat.
Proof.
  induction xs as [|x xs IH]; simpl; [done|].
  case_bool_decide; lia.
Qed.

Lemma distinctCount_NoDup {A : Type} `{EqDecision A} (xs : list A) :
  distinctCount xs = length xs ↔ NoDup xs.
Proof.
  induction xs as [|x xs IH]; simpl.
  - split; [intros _; constructor | done].
  - rewrite NoDup_cons. pose proof (distinctCount_le xs) as Hle.
    case_bool_decide as Hin.
    + split; [lia | by intros [? _]].
    + split.
      * intros [= Heq]. split; [done | by apply IH].
      * intros [_ Hnd]. f_equal. by apply IH.
Qed.

Lemma consecutive_spec (rs : list Z) : consecutive rs = true ↔ StepsOfOne rs.
Proof.
  unfold StepsOfOne. induction rs as [|a rs IH]; [by split|].
  destruct rs as [|b rs].
  - split; [|done]. intros _ [|i] x y Hx Hy; simpl in *; done.
  - change (consecutive (a :: b :: rs)) with ((b =? a + 1) && consecutive (b :: rs)).
    rewrite andb_true_iff, Z.eqb_eq, IH. split.
    + intros [Hab Hrest] [|i] x y Hx Hy.
      * simpl in Hx, Hy. congruence.
      * by apply (Hrest i).
    + intros Hall. split.
      * by apply (Hall O).
      * intros i x y Hx Hy. by apply (Hall (S i)).
Qed.

Lemma forallb_elem {A : Type} (f : A → bool) (l : list A) :
  forallb f l = true ↔ ∀ x, x ∈ l → f x = true.
Proof.
  rewrite forallb_forall. by setoid_rewrite list_elem_of_In.
Qed.

Lemma isValidSet_spec (cs : list CardT) : isValidSet cs = true ↔ SetShape cs.
Proof.
  unfold isValidSet, SetShape.
  destruct (Nat.ltb_spec (length cs) 3) as [Hlt|Hge].
  { split; [done | lia]. }
  destruct cs as [|c0 cs']; [simpl in Hge; lia|].
  set (cs := c0 :: cs') in *.
  destruct (forallb (λ c, r c =? r c0) cs) eqn:Hall; cbn [negb].
  - rewrite forallb_elem in Hall.
    rewrite Nat.eqb_eq, <- (length_fmap s cs), distinctCount_NoDup.
    split.
    + intros Hnd. split; [by rewrite length_fmap|]. split; [|done].
      intros c c' Hc Hc'. apply Hall in Hc, Hc'.
      apply Z.eqb_eq in Hc, Hc'. congruence.
    + by intros (_ & _ & Hnd).
  - split; [done|]. intros (_ & Hsame & _).
    apply not_true_iff_false in Hall. destruct Hall.
    apply forallb_elem.
    intros c Hc. apply Z.eqb_eq, Hsame; [done|]. subst cs. left.
Qed.

Lemma isValidRun_spec (cs : list CardT) : isValidRun cs = true ↔ RunShape cs.
Proof.
  unfold isValidRun, RunShape.
  destruct (Nat.ltb_spec (length cs) 3) as [Hlt|Hge].
  { split; [done | lia]. }
  destruct cs as [|c0 cs']; [simpl in Hge; lia|].
  set (cs := c0 :: cs') in *.
  destruct (forallb (λ c, bool_decide (s c = s c0)) cs) eqn:Hall; cbn [negb].
  - rewrite forallb_elem in Hall.
    rewrite consecutive_spec. split.
    + intros Hsteps. split; [exact Hge|]. split.
      * intros c c' Hc Hc'. apply Hall in Hc, Hc'.
        apply bool_decide_eq_true_1 in Hc, Hc'. congruence.
      * exists (merge_sort Z.le (r <$> cs)). split; [apply merge_sort_Permutation|].
        split; [|done]. apply (Sorted_merge_sort Z.le).
    + intros (_ & _ & rs & Hperm & Hsorted & Hsteps).
      assert (merge_sort Z.le (r <$> cs) = rs) as ->; [|done].
      apply (Sorted_unique Z.le); [apply (Sorted_merge_sort Z.le) | done |].
      by rewrite merge_sort_Permutation.
  - split; [done|]. intros (_ & Hsame & _).
    apply not_true_iff_false in Hall. destruct Hall.
    apply forallb_elem.
    intros c Hc. apply bool_decide_eq_true_2, Hsame; [done|]. subst cs. left.
Qed.

Lemma SetShape_RunShape_exclusive (cs : list CardT) : SetShape cs → RunShape cs → False.
Proof.
  intros (Hlen & _ & Hnd) (_ & Hsuit & _).
  destruct cs as [|c1 [|c2 cs]]; simpl in Hlen; [lia | lia |].
  simpl in Hnd. apply NoDup_cons in Hnd as [Hnotin _].
  apply Hnotin. rewrite (Hsuit c1 c2); [left | left | right; left].
Qed.

(** C5. The classifier answers [set] exactly for three or more cards of one
    rank with pairwise-distinct suits, and [run] exactly for three or more
    cards of one suit whose ranks, sorted ascending, go up by one (so never
    around the king-ace corner); anything else is refused; the set test comes
    first; the three examples of the design classify as it says. *)
Theorem classifyMeld_contract (cs : list CardT) :
  (classifyMeld cs = {| ok := true; kind := Some KindSet |} ↔ SetShape cs)
  ∧ (classifyMeld cs = {| ok := true; kind := Some KindRun |} ↔ RunShape cs)
  ∧ (classifyMeld cs = {| ok := false; kind := None |} ↔ ¬ SetShape cs ∧ ¬ RunShape cs)
  ∧ (isValidSet cs = true → classifyMeld cs = {| ok := true; kind := Some KindSet |})
  ∧ (∀ i1 i2 i3 : string,
       classifyMeld [mkCard i1 5 Clubs; mkCard i2 5 Diamonds; mkCard i3 5 Hearts]
         = {| ok := true; kind := Some KindSet |}
       ∧ classifyMeld [mkCard i1 4 Spades; mkCard i2 5 Spades; mkCard i3 6 Spades]
         = {| ok := true; kind := Some KindRun |}
       ∧ classifyMeld [mkCard i1 13 Spades; mkCard i2 1 Spades; mkCard i3 2 Spades]
         = {| ok := false; kind := None |}
       ∧ classifyMeld [mkCard i1 12 Spades; mkCard i2 13 Spades; mkCard i3 1 Spades]
         = {| ok := false; kind := None |}).
Proof.
  pose proof (isValidSet_spec cs) as Hset.
  pose proof (isValidRun_spec cs) as Hrun.
  pose proof (SetShape_RunShape_exclusive cs) as Hex.
  unfold classifyMeld.
  set (isSet := SetShape cs) in *. set (isRun := RunShape cs) in *.
  clearbody isSet isRun.
  split; [|split; [|split; [|split]]].
  - destruct (isValidSet cs), (isValidRun cs); intuition discriminate.
  - destruct (isValidSet cs), (isValidRun cs); intuition discriminate.
  - destruct (isValidSet cs), (isValidRun cs); intuition discriminate.
  - by intros ->.
  - intros i1 i2 i3. repeat split; reflexivity.
Qed.

Lemma classifyMeld_contract_witness :
  classifyMeld [mkCard "a" 7 Hearts; mkCard "b" 7 Spades; mkCard "c" 7 Clubs;
                mkCard "d" 7 Diamonds]
  = {| ok := true; kind := Some KindSet |}.
Proof.
  apply (proj1 (proj2 (proj2 (proj2 (classifyMeld_contract _))))). reflexivity.
Defined.

(** ** Lobby: seats and the start gate *)

Lemma claimsInOrder_taken (c : Seat) (claims : list (string * string)) :
  claimsInOrder claims (Some c)
  = ((λ cl, bool_decide (cl.1 = uid c)) <$> claims, Some c).
Proof.
  induction claims as [|[me nm] rest IH]; [done|].
  simpl. unfold runTransaction, Lobby.claimSlotTx.
  rewrite String_eqb_decide.
  rewrite (bool_decide_ext (uid c = me) (me = uid c)) by done.
  case_bool_decide; simpl; by rewrite IH.
Qed.

(** C3, counterexample. Two claims on the same empty seat by the same
    identity both commit. *)
Lemma claimSlot_same_identity_commits_twice :
  (claimsInOrder [("u1", "Ann"); ("u1", "Ann")] None).1 = [true; true].
Proof. reflexivity. Qed.

(** C3, as amended. The claim transaction occupies an empty seat with
    [{uid, name, ready: false}], returns a seat the caller already holds
    unchanged and committed, and aborts ([committed = false], seat
    untouched) on a seat held by someone else.  Of the claims applied to an
    empty seat the first commits and takes it; a later one commits exactly
    when it comes from that same identity, as a refresh; so if every other
    claimant is a different identity, exactly one claim commits and all
    others observe [committed = false]. *)
Theorem claimSlot_contract (me name : string) (current : option Seat)
    (later : list (string * string)) :
  let mine := {| uid := me; seatName := name; ready := false |} in
  runTransaction (Lobby.claimSlotTx me name) current
    = match current with
      | None => {| committed := true; snapshot := Some mine |}
      | Some c =>
          if bool_decide (uid c = me)
          then {| committed := true; snapshot := Some c |}
          else {| committed := false; snapshot := Some c |}
      end
  ∧ claimsInOrder ((me, name) :: later) None
    = (true :: ((λ cl, bool_decide (cl.1 = me)) <$> later), Some mine)
  ∧ (me ∉ later.*1 →
     claimsInOrder ((me, name) :: later) None
     = (true :: ((λ _, false) <$> later), Some mine)).
Proof.
  intros mine.
  assert (Hall : claimsInOrder ((me, name) :: later) None
    = (true :: ((λ cl, bool_decide (cl.1 = me)) <$> later), Some mine)).
  { simpl. by rewrite claimsInOrder_taken. }
  split; [|split; [done|]].
  - unfold runTransaction, Lobby.claimSlotTx. destruct current as [c|]; [|done].
    rewrite String_eqb_decide. by case_bool_decide.
  - intros Hnot. rewrite Hall. do 2 f_equal.
    apply list_fmap_ext. intros i [u nm] Hi. simpl.
    apply bool_decide_eq_false_2. intros ->. apply Hnot.
    apply list_elem_of_lookup_2 in Hi.
    by apply (list_elem_of_fmap_2 fst) in Hi.
Qed.

Lemma claimSlot_contract_witness :
  claimsInOrder [("u1", "Ann"); ("u2", "Bob"); ("u3", "Cy")] None
  = ([true; false; false], Some {| uid := "u1"; seatName := "Ann"; ready := false |}).
Proof.
  apply (proj2 (proj2 (claimSlot_contract "u1" "Ann" None [("u2", "Bob"); ("u3", "Cy")]))).
  simpl. rewrite !elem_of_cons. rewrite elem_of_nil. intros [H|[H|H]]; done.
Defined.

Lemma occupiedCount_currentPlayers (sl : Slots) :
  length (Lobby.currentPlayers sl) = occupiedCount sl.
Proof.
  by destruct sl as [[?|] [?|] [?|] [?|]].
Qed.

Lemma everyoneReady_all (sl : Slots) :
  Lobby.everyoneReady (Lobby.currentPlayers sl) = true →
  ∀ x : Seat, Some x ∈ seatList sl → ready x = true.
Proof.
  unfold Lobby.everyoneReady. rewrite andb_true_iff, forallb_elem.
  intros [_ Hall] x Hx. specialize (Hall x).
  rewrite bool_decide_eq_true in Hall. apply Hall.
  unfold Lobby.currentPlayers. apply list_elem_of_omap. by exists (Some x).
Qed.

Lemma startable_conditions (me : option string) (u : string) (latest : option Room) :
  truthyStr me = true → u = default "" me →
  strictEqOpt (uid <$> slot1 (Lobby.slotsOf latest)) u = true →
  Lobby.startable (Lobby.statusOf latest) (Lobby.phaseOf latest)
    (Lobby.currentPlayers (Lobby.slotsOf latest)) = true →
  ∀ rm, latest = Some rm → me = Some u ∧ StartConditions u rm.
Proof.
  intros Hme -> Hs1 Hst rm ->.
  destruct me as [u|]; [|done]. simpl in *. split; [done|].
  unfold Lobby.startable in Hst. rewrite !andb_true_iff in Hst.
  destruct Hst as [[[[Hstat Hph] Hlo] Hhi] Hready].
  apply bool_decide_eq_true_1 in Hstat, Hph.
  apply Nat.leb_le in Hlo, Hhi.
  rewrite occupiedCount_currentPlayers in Hlo, Hhi.
  unfold StartConditions, Lobby.slotsOf, Lobby.statusOf, Lobby.phaseOf in *.
  simpl in *. repeat split; try done.
  - unfold strictEqOpt in Hs1.
    destruct (uid <$> slot1 (default EMPTY_SLOTS (slots rm))) as [v|]; [|done].
    by apply String.eqb_eq in Hs1 as ->.
  - by apply everyoneReady_all.
Qed.

(** C4. Either version of [startGameBySlot1] issues its write (the one that
    sets the room to playing) only if, on the value just fetched from the
    store, the caller holds seat 1, status and phase are lobby, between two
    and four seats are occupied, and every occupied seat is ready. *)
Theorem startGameBySlot1_gate (me : option string) (room latest : option Room)
    (now : Z) (write : Room → Room) :
  Lobby.startGameBySlot1 me room latest now = Some write
  ∨ LobbyV1.startGameBySlot1 me room latest now = Some write →
  ∃ (u : string) (rm : Room),
    me = Some u ∧ latest = Some rm ∧ StartConditions u rm
    ∧ (∀ sl, slots rm = Some sl → (2 ≤ occupiedCount sl ≤ 4)%nat)
    ∧ ∀ r0, status (write r0) = Some playing.
Proof.
  intros Hstart.
  assert (∃ rm, latest = Some rm ∧ truthyStr me = true
    ∧ strictEqOpt (uid <$> slot1 (Lobby.slotsOf latest)) (default "" me) = true
    ∧ Lobby.startable (Lobby.statusOf latest) (Lobby.phaseOf latest)
        (Lobby.currentPlayers (Lobby.slotsOf latest)) = true
    ∧ ∀ r0, status (write r0) = Some playing) as (rm & -> & Hme & Hs1 & Hst & Hw).
  { destruct Hstart as [H|H].
    - unfold Lobby.startGameBySlot1 in H.
      destruct (truthyStr me); [|done]. simpl in H.
      destruct (strictEqOpt (uid <$> slot1 (Lobby.slotsOf room)) (default "" me)); [|done].
      destruct (Lobby.canStart room); [|done]. simpl in H.
      destruct latest as [rm|]; [|done]. exists rm.
      destruct (strictEqOpt _ _); [|done].
      destruct (Lobby.startable _ _ _); [|done]. simpl in H.
      injection H as <-. done.
    - unfold LobbyV1.startGameBySlot1 in H.
      destruct (truthyStr me); [|done]. simpl in H.
      destruct (strictEqOpt (uid <$> slot1 (Lobby.slotsOf room)) (default "" me)); [|done].
      destruct (LobbyV1.canStart room); [|done]. simpl in H.
      destruct latest as [rm|]; [|done]. exists rm.
      destruct (strictEqOpt _ _); [|done].
      unfold Lobby.startable, Lobby.currentPlayers.
      unfold LobbyV1.currentPlayers in H.
      destruct (_ && _ && _ && _ && _); [|done]. simpl in H.
      injection H as <-. done. }
  destruct (startable_conditions me (default "" me) (Some rm) Hme eq_refl Hs1 Hst rm eq_refl)
    as [Hu Hcond].
  exists (default "" me), rm.
  split; [done|]. split; [done|]. split; [done|]. split; [|done].
  destruct Hcond as (_ & _ & _ & Hc & _). intros sl Hsl. by rewrite Hsl in Hc.
Qed.

Lemma startGameBySlot1_gate_witness :
  let seat u := Some {| uid := u; seatName := u; ready := true |} in
  let rm := {| roomCreatedAt := Some 1; status := Some lobby; hostUid := Some "u1";
               slots := Some {| slot1 := seat "u1"; slot2 := seat "u2";
                                slot3 := None; slot4 := None |};
               game := None |} in
  ∃ (u : string) (rm' : Room),
    Some "u1" = Some u ∧ Some rm = Some rm' ∧ StartConditions u rm'
    ∧ (∀ sl, slots rm' = Some sl → (2 ≤ occupiedCount sl ≤ 4)%nat)
    ∧ ∀ r0, status (Lobby.updateStatusGame playing
                      (Lobby.startedGame (Some "u1") 7) r0) = Some playing.
Proof.
  intros seat rm.
  apply (startGameBySlot1_gate (Some "u1") (Some rm) (Some rm) 7).
  left. reflexivity.
Defined.


(** ** The deal *)

Arguments makeDeck : simpl never.
Arguments shuffle : simpl never.

Lemma setFrom_NoDup (seen xs : list string) : NoDup seen → NoDup (setFrom seen xs).
Proof.
  revert seen. induction xs as [|x xs IH]; intros seen Hnd; simpl; [done|].
  case_bool_decide as Hin; [by apply IH|].
  apply IH. apply NoDup_app. split; [done|]. split.
  - intros y Hy ->%list_elem_of_singleton. done.
  - apply NoDup_singleton.
Qed.

Lemma setFrom_elem (seen xs : list string) (x : string) :
  x ∈ setFrom seen xs ↔ x ∈ seen ∨ x ∈ xs.
Proof.
  revert seen. induction xs as [|y xs IH]; intros seen; simpl.
  - rewrite elem_of_nil. tauto.
  - case_bool_decide as Hin.
    + rewrite IH, elem_of_cons. split; [tauto|]. intros [?|[->|?]]; tauto.
    + rewrite IH, elem_of_app, !elem_of_cons, elem_of_nil. tauto.
Qed.

Lemma setFrom_length (seen xs : list string) :
  (length (setFrom seen xs) ≤ length seen + length xs)%nat.
Proof.
  revert seen. induction xs as [|y xs IH]; intros seen; simpl; [lia|].
  case_bool_decide.
  - specialize (IH seen). lia.
  - specialize (IH (seen ++ [y])). rewrite length_app in IH. simpl in IH. lia.
Qed.

Lemma joinedUids_NoDup (sl : Slots) : NoDup (joinedUids sl).
Proof. apply setFrom_NoDup. constructor. Qed.

Lemma joinedUids_length (sl : Slots) : (length (joinedUids sl) ≤ 4)%nat.
Proof.
  unfold joinedUids.
  etrans; [apply setFrom_length|]. simpl.
  etrans; [apply length_filter|].
  by destruct sl as [[?|] [?|] [?|] [?|]]; simpl; lia.
Qed.

(** The joined identities are the non-empty uids found on the seats. *)
Lemma joinedUids_elem (sl : Slots) (u : string) :
  u ∈ joinedUids sl ↔ u ≠ "" ∧ ∃ x : Seat, Some x ∈ seatList sl ∧ uid x = u.
Proof.
  unfold joinedUids. rewrite setFrom_elem, elem_of_nil, list_elem_of_filter.
  rewrite list_elem_of_omap. split.
  - intros [[]|[Hne (o & Ho & Hu)]]. split; [done|].
    destruct o as [x|]; [|done]. exists x. simpl in Hu. by injection Hu as <-.
  - intros [Hne (x & Hx & <-)]. right. split; [done|]. by exists (Some x).
Qed.

(** How the keys of an object grow, key by key. *)
Lemma objKeys_objSet {V : Type} (k : string) (v : V) (o : list (string * V)) :
  objKeys (objSet k v o)
  = if bool_decide (k ∈ objKeys o) then objKeys o else keyInsert k (objKeys o).
Proof.
  case_bool_decide as Hin.
  - apply objSet_keys. by apply objGet_is_Some.
  - apply objGet_None in Hin. rewrite objSet_absent by done. apply objInsert_keys.
Qed.

Lemma keyInsert_Permutation (k : string) (ks : list string) : keyInsert k ks ≡ₚ k :: ks.
Proof.
  induction ks as [|k' ks IH]; simpl; [done|].
  destruct (keyBefore k k'); [done|]. rewrite IH. apply Permutation_swap.
Qed.

Lemma keyInsert_last (k : string) (ks : list string) :
  arrayIndex k = None → keyInsert k ks = ks ++ [k].
Proof.
  intros Hk. induction ks as [|k' ks IH]; simpl; [done|].
  rewrite keyBefore_no_index by done. by f_equal.
Qed.

Lemma keysFrom_Permutation (l ks : list string) :
  NoDup (ks ++ l) →
  foldl (λ ks k, if bool_decide (k ∈ ks) then ks else keyInsert k ks) ks l ≡ₚ ks ++ l.
Proof.
  revert ks. induction l as [|u l IH]; intros ks Hnd; simpl.
  - by rewrite app_nil_r.
  - assert (Hu : u ∉ ks).
    { apply NoDup_app in Hnd as (_ & Hdis & _). intros Hin. apply (Hdis u Hin). left. }
    rewrite bool_decide_eq_false_2 by done.
    rewrite IH.
    + rewrite keyInsert_Permutation. by rewrite <- Permutation_middle.
    + rewrite keyInsert_Permutation. simpl. by rewrite Permutation_middle.
Qed.


(** The keys of an object that was given distinct keys are those keys, and
    in the order given when none of them is an array index. *)
Lemma keysOf_Permutation (l : list string) : NoDup l → keysOf l ≡ₚ l.
Proof. intros Hnd. apply (keysFrom_Permutation l []). done. Qed.


Lemma keysOf_NoDup (l : list string) : NoDup l → NoDup (keysOf l).
Proof. intros Hnd. by rewrite keysOf_Permutation. Qed.

Lemma keyInsert_index_app (k : string) (n : N) (idx rest : list string) :
  arrayIndex k = Some n →
  Forall (λ u, arrayIndex u = None) rest →
  keyInsert k (idx ++ rest) = keyInsert k idx ++ rest.
Proof.
  intros Hk Hrest. induction idx as [|k' idx IH]; simpl.
  - destruct rest as [|r rest]; [done|]. simpl.
    apply Forall_cons in Hrest as [Hr _].
    unfold keyBefore. by rewrite Hk, Hr.
  - destruct (keyBefore k k'); [done|]. by rewrite IH.
Qed.

Lemma keyInsert_sorted (k : string) (n : N) (idx : list string) :
  arrayIndex k = Some n →
  Forall (λ u, is_Some (arrayIndex u)) idx →
  StronglySorted (λ a b, default 0 (arrayIndex a) ≤ default 0 (arrayIndex b))%N idx →
  StronglySorted (λ a b, default 0 (arrayIndex a) ≤ default 0 (arrayIndex b))%N
    (keyInsert k idx).
Proof.
  intros Hk Hidx Hs. induction idx as [|k' idx IH]; simpl.
  - repeat constructor.
  - apply Forall_cons in Hidx as [[n' Hn'] Hidx].
    apply StronglySorted_inv in Hs as [Hs Hle].
    unfold keyBefore. rewrite Hk, Hn'.
    destruct (N.ltb_spec n n') as [Hlt|Hge].
    + constructor; [by constructor|].
      constructor; [rewrite Hk, Hn'; simpl; lia|].
      eapply Forall_impl; [exact Hle|]. intros u. rewrite Hk, Hn'. simpl. lia.
    + constructor; [by apply IH|].
      rewrite keyInsert_Permutation. constructor; [|done].
      rewrite Hk, Hn'. simpl. lia.
Qed.

(** The order of the keys: the array indices among them first, ascending,
    then the other keys in the order given. *)
Lemma keysOf_order (l : list string) :
  NoDup l →
  ∃ idx, keysOf l = idx ++ filter (λ u, arrayIndex u = None) l
         ∧ idx ≡ₚ filter (λ u, is_Some (arrayIndex u)) l
         ∧ StronglySorted
             (λ a b, default 0 (arrayIndex a) ≤ default 0 (arrayIndex b))%N idx.
Proof.
  induction l as [|u l IH] using rev_ind; intros Hnd.
  - exists []. repeat split; constructor.
  - apply NoDup_app in Hnd as (Hnd & Hdis & _).
    destruct (IH Hnd) as (idx & Hk & Hperm & Hs).
    assert (Hfresh : u ∉ keysOf l).
    { rewrite keysOf_Permutation by done. intros Hin. apply (Hdis u Hin). left. }
    assert (Hstep : keysOf (l ++ [u]) = keyInsert u (keysOf l)).
    { unfold keysOf. rewrite foldl_app. cbn [foldl].
      by rewrite bool_decide_eq_false_2. }
    rewrite Hstep, Hk, !filter_app, !filter_cons, !filter_nil.
    destruct (arrayIndex u) as [n|] eqn:Hu.
    + rewrite decide_False by done.
      rewrite (decide_True (P := is_Some (Some n))) by eauto.
      rewrite app_nil_r.
      exists (keyInsert u idx). split; [|split].
      * apply (keyInsert_index_app u n); [done|].
        apply Forall_forall. intros x Hx. by apply list_elem_of_filter in Hx as [? _].
      * rewrite keyInsert_Permutation, Hperm. by rewrite <- Permutation_cons_append.
      * apply (keyInsert_sorted u n); [done| |done].
        apply Forall_forall. intros x Hx. rewrite Hperm in Hx.
        by apply list_elem_of_filter in Hx as [? _].
    + rewrite decide_True by done.
      rewrite (decide_False (P := is_Some None)) by (by intros [? ?]).
      rewrite app_nil_r. exists idx. split; [|done].
      rewrite keyInsert_last by done. by rewrite <- app_assoc.
Qed.

Lemma objGet_elem {V : Type} (k : string) (v : V) (o : list (string * V)) :
  NoDup (objKeys o) → (k, v) ∈ o → objGet k o = Some v.
Proof.
  unfold objKeys. induction o as [|[k' v'] o IH]; intros Hnd Hin.
  - by apply elem_of_nil in Hin.
  - rewrite fmap_cons in Hnd. apply NoDup_cons in Hnd as [Hk' Hnd]. simpl in *.
    apply elem_of_cons in Hin as [[= -> ->]|Hin].
    + by rewrite String.eqb_refl.
    + destruct (String.eqb_spec k' k) as [->|Hne]; [|by apply IH].
      destruct Hk'. apply list_elem_of_fmap. by exists (k, v).
Qed.

(** [for (const puid of joinedUids) hands[puid] = []] *)
Lemma emptyHands_spec (l : list string) (acc : list (string * list CardT)) :
  let hands := foldl (λ h puid, objSet puid [] h) acc l in
  objKeys hands
  = foldl (λ ks k, if bool_decide (k ∈ ks) then ks else keyInsert k ks) (objKeys acc) l
  ∧ (∀ u, objGet u hands = if bool_decide (u ∈ l) then Some [] else objGet u acc).
Proof.
  revert acc. induction l as [|u l IH]; intros acc; cbn [foldl].
  - split; [done|]. intros u. by rewrite bool_decide_eq_false_2 by apply not_elem_of_nil.
  - destruct (IH (objSet u [] acc)) as [Hk Hg]. split.
    + by rewrite Hk, objKeys_objSet.
    + intros v. rewrite Hg, objGet_objSet.
      destruct (decide (v ∈ l)) as [Hv|Hv].
      * rewrite !bool_decide_eq_true_2; [done| by right | done].
      * rewrite (bool_decide_eq_false_2 (v ∈ l)) by done.
        case_bool_decide as Huv.
        -- subst v. by rewrite bool_decide_eq_true_2 by left.
        -- rewrite bool_decide_eq_false_2; [done|].
           intros [?|?]%elem_of_cons; [congruence|done].
Qed.

Lemma objSet_push_Permutation (k : string) (h : list CardT) (c : CardT)
    (o : list (string * list CardT)) :
  objGet k o = Some h →
  mjoin (objValues (objSet k (h ++ [c]) o)) ≡ₚ c :: mjoin (objValues o).
Proof.
  intros Hg. destruct (objSet_split k h (h ++ [c]) o Hg) as (o1 & o2 & -> & ->).
  unfold objValues. rewrite !fmap_app, !fmap_cons, !join_app. simpl.
  rewrite <- !app_assoc. simpl.
  rewrite !app_assoc. by rewrite <- Permutation_middle.
Qed.

(** One round of dealing: every listed player receives one card from the
    end of the deck. *)
Lemma dealRound_spec (l : list string) (hands : list (string * list CardT))
    (deck : list CardT) :
  NoDup l → (∀ u, u ∈ l → u ∈ objKeys hands) → (length l ≤ length deck)%nat →
  ∃ hands' deck',
    foldTx dealOne (hands, deck) l = Value (hands', deck')
    ∧ objKeys hands' = objKeys hands
    ∧ (length deck' + length l = length deck)%nat
    ∧ mjoin (objValues hands') ++ deck' ≡ₚ mjoin (objValues hands) ++ deck
    ∧ ∀ u h, objGet u hands = Some h →
        ∃ h', objGet u hands' = Some h'
              ∧ length h' = (length h + if bool_decide (u ∈ l) then 1 else 0)%nat.
Proof.
  revert hands deck. induction l as [|u l IH]; intros hands deck Hnd Hin Hlen.
  - exists hands, deck. simpl. repeat split; try done.
    intros u h Hg. exists h. split; [done|]. simpl. lia.
  - apply NoDup_cons in Hnd as [Hu Hnd].
    destruct (proj2 (objGet_is_Some u hands)) as [h Hh]; [apply Hin; left|].
    destruct deck as [|c deck0 _] using rev_ind; [simpl in Hlen; lia|].
    rewrite length_app in Hlen. simpl in Hlen.
    assert (Hstep : dealOne (hands, deck0 ++ [c]) u
                    = Value (objSet u (h ++ [c]) hands, deck0)).
    { unfold dealOne. simpl. rewrite Hh. simpl. by rewrite pop_snoc. }
    destruct (IH (objSet u (h ++ [c]) hands) deck0 Hnd) as
      (hands' & deck' & Hrun & Hkeys & Hdeck & Hperm & Hlens).
    { intros v Hv. rewrite objSet_keys by eauto. apply Hin. by right. }
    { lia. }
    exists hands', deck'. split; [|split; [|split; [|split]]].
    + simpl. rewrite Hstep. simpl. exact Hrun.
    + rewrite Hkeys. apply objSet_keys. eauto.
    + rewrite length_app. simpl. lia.
    + rewrite Hperm. rewrite objSet_push_Permutation by done.
      rewrite (Permutation_app_comm deck0 [c]). simpl.
      by rewrite Permutation_middle.
    + intros v hv Hv.
      destruct (Hlens v (if bool_decide (u = v) then h ++ [c] else hv)) as (h' & Hh' & Hl).
      { rewrite objGet_objSet. case_bool_decide; [done|]. done. }
      exists h'. split; [done|]. rewrite Hl.
      case_bool_decide as Huv.
      * subst v. assert (hv = h) as -> by congruence.
        rewrite length_app. simpl.
        rewrite bool_decide_eq_false_2 by done.
        rewrite bool_decide_eq_true_2 by left. lia.
      * destruct (bool_decide (v ∈ l)) eqn:Evl.
        -- apply bool_decide_eq_true_1 in Evl.
           rewrite bool_decide_eq_true_2 by (by right). lia.
        -- apply bool_decide_eq_false_1 in Evl.
           rewrite bool_decide_eq_false_2; [lia|].
           intros [?|?]%elem_of_cons; [congruence | done].
Qed.

Lemma dealRounds_spec (n : nat) (joined : list string)
    (hands : list (string * list CardT)) (deck : list CardT) :
  NoDup joined → objKeys hands ≡ₚ joined → (n * length joined ≤ length deck)%nat →
  ∃ hands' deck',
    dealRounds n joined (hands, deck) = Value (hands', deck')
    ∧ objKeys hands' = objKeys hands
    ∧ (length deck' + n * length joined = length deck)%nat
    ∧ mjoin (objValues hands') ++ deck' ≡ₚ mjoin (objValues hands) ++ deck
    ∧ ∀ u h, objGet u hands = Some h →
        ∃ h', objGet u hands' = Some h' ∧ length h' = (length h + n)%nat.
Proof.
  intros Hnd. revert hands deck.
  induction n as [|n IH]; intros hands deck Hkeys Hlen.
  - exists hands, deck. simpl. repeat split; try done.
    intros u h Hu. exists h. split; [done | lia].
  - destruct (dealRound_spec joined hands deck Hnd) as
      (hands1 & deck1 & Hrun1 & Hkeys1 & Hdeck1 & Hperm1 & Hlens1).
    { intros u Hu. by rewrite Hkeys. }
    { simpl in Hlen. lia. }
    destruct (IH hands1 deck1) as (hands' & deck' & Hrun & Hkeys' & Hdeck & Hperm & Hlens).
    { by rewrite Hkeys1. }
    { simpl in Hlen. lia. }
    exists hands', deck'. split; [|split; [|split; [|split]]].
    + simpl. rewrite Hrun1. simpl. exact Hrun.
    + congruence.
    + simpl. lia.
    + by rewrite Hperm.
    + intros u h Hu. destruct (Hlens1 u h Hu) as (h1 & Hh1 & Hl1).
      destruct (Hlens u h1 Hh1) as (h' & Hh' & Hl').
      exists h'. split; [done|]. rewrite Hl', Hl1.
      rewrite bool_decide_eq_true_2; [lia|].
      rewrite <- Hkeys. apply objGet_is_Some. eauto.
Qed.

(** [for (const puid of joinedUids) players[puid] = {...}] *)
Lemma addPlayers_spec (g : GameState) (hands : list (string * list CardT))
    (l : list string) (acc : list (string * GamePlayer)) (og : gmap string Origin) :
  (∀ u, u ∈ l → is_Some (objGet u hands)) →
  ∃ pl og', foldTx (addPlayer g hands) (acc, og) l = Value (pl, og')
    ∧ objKeys pl
      = foldl (λ ks k, if bool_decide (k ∈ ks) then ks else keyInsert k ks) (objKeys acc) l
    ∧ ∀ u, objGet u pl
           = if bool_decide (u ∈ l)
             then Some {| name := default "Player" (name <$> objGet u (players g));
                          hand := default [] (objGet u hands); hasMelded := false;
                          score := 0; scoredCards := [];
                          lastTurnTookDiscardFromUid := None |}
             else objGet u acc.
Proof.
  revert acc og. induction l as [|u l IH]; intros acc og Hin; cbn [foldl foldTx].
  - exists acc, og. split; [done|]. split; [done|].
    intros u. by rewrite bool_decide_eq_false_2 by apply not_elem_of_nil.
  - destruct (Hin u) as [h Hh]; [left|].
    set (pu := {| name := default "Player" (name <$> objGet u (players g));
                  hand := default [] (objGet u hands); hasMelded := false;
                  score := 0; scoredCards := [];
                  lastTurnTookDiscardFromUid := None |}).
    assert (Hstep : addPlayer g hands (acc, og) u
                    = Value (objSet u pu acc, foldl markStock og h)).
    { unfold addPlayer, pu. simpl. by rewrite Hh. }
    rewrite Hstep. cbn [mbind TxReturn_bind].
    destruct (IH (objSet u pu acc) (foldl markStock og h)) as (pl & og' & Hrun & Hk & Hg).
    { intros v Hv. apply Hin. by right. }
    exists pl, og'. split; [done|]. split.
    + by rewrite Hk, objKeys_objSet.
    + intros v. rewrite Hg, objGet_objSet.
      destruct (decide (v ∈ l)) as [Hv|Hv].
      * rewrite !bool_decide_eq_true_2; [done| by right | done].
      * rewrite (bool_decide_eq_false_2 (v ∈ l)) by done.
        case_bool_decide as Huv.
        -- subst v. by rewrite bool_decide_eq_true_2 by left.
        -- rewrite bool_decide_eq_false_2; [done|].
           intros [?|?]%elem_of_cons; [congruence|done].
Qed.

Lemma objValues_by_keys {V : Type} (d : V) (o : list (string * V)) :
  NoDup (objKeys o) → (λ u, default d (objGet u o)) <$> objKeys o = objValues o.
Proof.
  unfold objKeys, objValues. induction o as [|[k v] o IH]; [done|].
  rewrite !fmap_cons. simpl. intros [Hk Hnd]%NoDup_cons.
  rewrite String.eqb_refl. simpl. f_equal. rewrite <- IH by done.
  apply list_fmap_ext. intros i u Hu.
  destruct (String.eqb_spec k u) as [->|Hne]; [|done].
  destruct Hk. by apply list_elem_of_lookup_2 in Hu.
Qed.

(** A deal on a playing game whose stock and pile are both empty takes
    effect, for at most four distinct identities. *)
Lemma dealTx_fresh (joined : list string) (uuid : nat → string) (rnd : nat → nat)
    (now : Z) (g : GameState) :
  NoDup joined → (length joined ≤ 4)%nat →
  isPlaying g = true → stock g = [] → discard g = [] →
  ∃ g', dealTx joined uuid rnd now (Some g) = Value (Some g')
        ∧ FreshDeal joined uuid now g g'.
Proof.
  intros Hnd Hlen Hplay Hstock Hpile.
  unfold dealTx. rewrite Hplay, Hstock, Hpile.
  cbn [negb length Nat.ltb Nat.leb orb].
  set (deck := shuffle rnd (makeDeck uuid)).
  assert (Hshuf : deck ≡ₚ makeDeck uuid) by apply shuffle_Permutation.
  assert (Hdeck : length deck = 52%nat).
  { by rewrite Hshuf, makeDeck_length. }
  clearbody deck.
  destruct (emptyHands_spec joined []) as [Hkeys0 Hget0].
  set (hands0 := foldl (λ h puid, objSet puid [] h) [] joined) in *.
  change (objKeys hands0 = keysOf joined) in Hkeys0.
  assert (Hkp : keysOf joined ≡ₚ joined) by (by apply keysOf_Permutation).
  destruct (dealRounds_spec 7 joined hands0 deck Hnd) as
    (hands & deck1 & Hrun & Hkeys & Hdeck1 & Hperm & Hlens);
    [by rewrite Hkeys0 | lia |].
  rewrite Hrun. cbn [mbind TxReturn_bind fst snd].
  destruct deck1 as [|head stock' _] using rev_ind.
  { simpl in Hdeck1. lia. }
  rewrite pop_snoc. simpl.
  destruct (addPlayers_spec g hands joined [] ∅) as (pl & og' & Hpl & Hplk & Hplg).
  { intros u Hu. apply objGet_is_Some. by rewrite Hkeys, Hkeys0, Hkp. }
  change (objKeys pl = keysOf joined) in Hplk.
  rewrite Hpl. simpl. eexists. split; [reflexivity|].
  unfold FreshDeal.
  cbn [players discard headCardId tableMelds phase step turnUid winnerUid endedAt stock].
  assert (Hndk : NoDup (keysOf joined)) by (by apply keysOf_NoDup).
  assert (Hvals : objValues pl
                  = (λ u, {| name := default "Player" (name <$> objGet u (players g));
                             hand := default [] (objGet u hands); hasMelded := false;
                             score := 0; scoredCards := [];
                             lastTurnTookDiscardFromUid := None |}) <$> keysOf joined).
  { rewrite <- (objValues_by_keys
                  {| name := ""; hand := []; hasMelded := false; score := 0;
                     scoredCards := []; lastTurnTookDiscardFromUid := None |} pl)
      by (by rewrite Hplk).
    rewrite Hplk. apply list_fmap_ext. intros i u Hu.
    rewrite Hplg. rewrite bool_decide_eq_true_2; [done|].
    rewrite <- Hkp. by apply list_elem_of_lookup_2 in Hu. }
  split; [done|]. split; [|split; [|split; [by exists head|done]]].
  - rewrite Hvals. apply Forall_fmap. apply Forall_forall. intros u Hu. simpl.
    rewrite Hkp in Hu.
    assert (Hu0 : objGet u hands0 = Some []).
    { rewrite Hget0. by rewrite bool_decide_eq_true_2. }
    destruct (Hlens u [] Hu0) as (h' & -> & Hl). simpl. by rewrite Hl.
  - unfold allCards. cbn [players discard stock fmap list_fmap card].
    rewrite <- Hshuf.
    assert (Hhands : hand <$> objValues pl = objValues hands).
    { rewrite Hvals, <- list_fmap_compose.
      rewrite <- (objValues_by_keys [] hands) by (by rewrite Hkeys, Hkeys0).
      by rewrite Hkeys, Hkeys0. }
    rewrite Hhands. rewrite Hperm.
    assert (Hempty : mjoin (objValues hands0) = []).
    { assert (Hall : Forall (λ h, h = []) (objValues hands0)).
      { rewrite <- (objValues_by_keys [] hands0) by (by rewrite Hkeys0).
        apply Forall_fmap, Forall_forall. intros u Hu. simpl.
        rewrite Hget0. by case_bool_decide. }
      clear -Hall. induction (objValues hands0) as [|h hs IH]; [done|].
      apply Forall_cons in Hall as [-> Hall]. simpl. by apply IH. }
    rewrite Hempty. by rewrite app_nil_l.
Qed.

(** ** The five actions *)

Global Instance descending_trans : Transitive descending.
Proof. unfold descending. intros a b c. lia. Qed.

Global Instance descending_total : Total descending.
Proof. unfold descending. intros a b. lia. Qed.

Lemma foldl_delete_length (l : list nat) (h : list CardT) :
  StronglySorted descending l → NoDup l → Forall (λ i, i < length h)%nat l →
  (length (foldl (λ acc i, delete i acc) h l) + length l = length h)%nat.
Proof.
  revert h. induction l as [|i l IH]; intros h Hs Hnd Hlt; simpl; [lia|].
  apply StronglySorted_inv in Hs as [Hs Hi].
  apply NoDup_cons in Hnd as [Hni Hnd].
  apply Forall_cons in Hlt as [Hih Hlt].
  assert (Hdel : length (delete i h) = (length h - 1)%nat).
  { apply length_delete. by apply lookup_lt_is_Some. }
  assert (Hlt' : Forall (λ j, j < length (delete i h))%nat l).
  { rewrite Forall_forall in Hi. apply Forall_forall. intros j Hj.
    specialize (Hi j Hj). unfold descending in Hi.
    assert (j ≠ i) by (intros ->; done). lia. }
  specialize (IH (delete i h) Hs Hnd Hlt'). lia.
Qed.

Lemma spliceAll_length (idxs : list nat) (h : list CardT) :
  NoDup idxs → Forall (λ i, i < length h)%nat idxs →
  (length (spliceAll idxs h) + length idxs = length h)%nat.
Proof.
  intros Hnd Hlt. unfold spliceAll.
  pose proof (merge_sort_Permutation descending idxs) as Hperm.
  rewrite <- (Permutation_length Hperm).
  apply foldl_delete_length.
  - apply (StronglySorted_merge_sort descending).
  - by rewrite Hperm.
  - by rewrite Hperm.
Qed.

(** The cards picked for a meld: each selected id is found in the hand, at
    pairwise distinct positions when the ids are distinct. *)
Lemma picked_spec (h : list CardT) (ids : list string) (found : list (nat * CardT)) :
  mapM (λ cid, findCard cid h) ids = Some found →
  Forall (λ f, h !! f.1 = Some f.2) found
  ∧ ids = (λ f, id f.2) <$> found
  ∧ length found = length ids
  ∧ (NoDup ids → NoDup found.*1).
Proof.
  intros Hm.
  assert (Hall : Forall (λ f, h !! f.1 = Some f.2) found).
  { apply mapM_Some_1 in Hm. induction Hm as [|cid [i c] ids found Hf _ IH]; [done|].
    constructor; [|done]. apply list_find_Some in Hf. simpl. tauto. }
  assert (Hids : ids = (λ f, id f.2) <$> found).
  { symmetry. apply (mapM_fmap_Some_inv _ _ _ _ Hm).
    intros cid [i c] Hf. apply list_find_Some in Hf. simpl. tauto. }
  split; [done|]. split; [done|]. split.
  - by rewrite (length_mapM _ _ _ Hm).
  - intros Hnd. rewrite Hids in Hnd.
    assert (Hvia : (λ f : nat * CardT, id f.2) <$> found
                   = (λ i, from_option id "" (h !! i)) <$> found.*1).
    { rewrite <- list_fmap_compose. apply Forall_fmap_ext_1.
      eapply Forall_impl; [exact Hall|]. intros [i c] Hic. simpl in *. by rewrite Hic. }
    rewrite Hvia in Hnd. by apply NoDup_fmap_1 in Hnd.
Qed.

Lemma handCount_objSet (me : string) (p p' : GamePlayer) (ps : list (string * GamePlayer)) :
  objGet me ps = Some p →
  (sum_list ((λ q, length (hand q)) <$> objValues (objSet me p' ps)) + length (hand p)
   = sum_list ((λ q, length (hand q)) <$> objValues ps) + length (hand p'))%nat.
Proof. apply (objSet_sum (λ q, length (hand q))). Qed.

Lemma meldedCount_snoc (ms : list Meld) (m : Meld) :
  sum_list ((λ m0, length (cards m0)) <$> (ms ++ [m]))
  = (sum_list ((λ m0, length (cards m0)) <$> ms) + length (cards m))%nat.
Proof.
  induction ms as [|m0 ms IH]; csimpl; [lia|]. rewrite IH. lia.
Qed.

Lemma Kept_refl (a : Action) (g : GameState) : Kept a g g.
Proof. by repeat split. Qed.

(** The branches in which an update function returns [cur]. *)
Ltac returned_as_is g := exists g; split; [done | apply Kept_refl].

Lemma perform_Kept (a : Action) (g : GameState) :
  wellFormed a → ∃ g', perform (Some g) a = Some g' ∧ Kept a g g'.
Proof.
  intros Hwf. unfold perform, propose, runTransaction.
  destruct a as [me|me|me now|me cardId now|me ids meldUuid now]; simpl.
  - (* drawStock *)
    destruct (myMove me StepDraw g); simpl; [|returned_as_is g].
    destruct (pop (stock g)) as [[c st]|] eqn:Hpop;
      [|returned_as_is g].
    destruct (objGet me (players g)) as [p|] eqn:Hp; simpl;
      [|returned_as_is g].
    eexists. split; [reflexivity|]. apply pop_Some in Hpop.
    unfold Kept, inPlay, handCount, meldedCount. simpl.
    rewrite objSet_keys by eauto.
    pose proof (handCount_objSet me p (setLastTook None (setHand (hand p ++ [c]) p))
                  (players g) Hp) as Hsum.
    simpl in Hsum. rewrite length_app in Hsum. simpl in Hsum.
    rewrite Hpop, length_app. simpl. repeat split; lia.
  - (* takeTopDiscard *)
    destruct (myMove me StepDraw g); simpl; [|returned_as_is g].
    destruct (length (discard g) <? 2)%nat; [returned_as_is g|].
    destruct (pop (discard g)) as [[d pile]|] eqn:Hpop;
      [|returned_as_is g].
    destruct (objGet me (players g)) as [p|] eqn:Hp; simpl;
      [|returned_as_is g].
    eexists. split; [reflexivity|]. apply pop_Some in Hpop.
    unfold Kept, inPlay, handCount, meldedCount. simpl.
    rewrite objSet_keys by eauto.
    pose proof (handCount_objSet me p
                  (setLastTook (fromUid d) (setHand (hand p ++ [card d]) p))
                  (players g) Hp) as Hsum.
    simpl in Hsum. rewrite length_app in Hsum. simpl in Hsum.
    rewrite Hpop, length_app. simpl. repeat split; lia.
  - (* eatHead *)
    destruct (myMove me StepDraw g); simpl; [|returned_as_is g].
    destruct (objGet me (players g)) as [p|] eqn:Hp; simpl;
      [|returned_as_is g].
    eexists. split; [reflexivity|].
    unfold Kept, inPlay, handCount, meldedCount. simpl.
    rewrite objSet_keys by eauto.
    pose proof (handCount_objSet me p
                  (setLastTook None (setHand (hand p ++ (card <$> discard g)) p))
                  (players g) Hp) as Hsum.
    simpl in Hsum. rewrite length_app, length_fmap in Hsum.
    destruct (pop (stock g)) as [[c st]|] eqn:Hpop; simpl.
    + apply pop_Some in Hpop. rewrite Hpop, length_app. simpl. repeat split; lia.
    + repeat split; lia.
  - (* discardCardById *)
    destruct (myMove me StepDiscard g); simpl; [|returned_as_is g].
    destruct (objGet me (players g)) as [p|] eqn:Hp; simpl;
      [|returned_as_is g].
    destruct (findCard cardId (hand p)) as [[idx c]|] eqn:Hf;
      [|returned_as_is g].
    eexists. split; [reflexivity|].
    apply list_find_Some in Hf as (Hidx & _).
    unfold Kept, inPlay, handCount, meldedCount. simpl.
    rewrite objSet_keys by eauto.
    pose proof (handCount_objSet me p (setHand (delete idx (hand p)) p)
                  (players g) Hp) as Hsum.
    simpl in Hsum. rewrite length_delete in Hsum by eauto.
    apply lookup_lt_Some in Hidx.
    rewrite length_app. simpl. repeat split; lia.
  - (* layMeld *)
    destruct (myMove me StepDiscard g); simpl; [|returned_as_is g].
    destruct (mapM _ ids) as [found|] eqn:Hm;
      [|returned_as_is g].
    destruct (ok (classifyMeld found.*2)); simpl;
      [|returned_as_is g].
    destruct (existsb _ _); simpl; [|returned_as_is g].
    destruct (objGet me (players g)) as [p|] eqn:Hp; simpl;
      [|returned_as_is g].
    simpl in Hm.
    eexists. split; [reflexivity|].
    destruct (picked_spec _ _ _ Hm) as (Hall & _ & Hlen & Hnd).
    unfold Kept, inPlay, handCount, meldedCount. simpl.
    rewrite objSet_keys by eauto. rewrite meldedCount_snoc. simpl.
    pose proof (handCount_objSet me p
      (setScoredCards (scoredCards p ++ found.*2)
         (setHasMelded true (setHand (spliceAll found.*1 (hand p)) p)))
      (players g) Hp) as Hsum.
    simpl in Hsum.
    pose proof (spliceAll_length found.*1 (hand p) (Hnd Hwf)) as Hsp.
    rewrite !length_fmap in *.
    assert (Hlt : Forall (λ i : nat, (i < length (hand p))%nat) found.*1).
    { apply Forall_fmap. eapply Forall_impl; [exact Hall|].
      intros [i c] Hic. simpl in *. by apply lookup_lt_Some in Hic. }
    specialize (Hsp Hlt). repeat split; try done; lia.
Qed.

Lemma myMove_CallersTurn (me : string) (st : Step) (g : GameState) :
  myMove me st g = true ↔ CallersTurn me st g.
Proof.
  unfold myMove, CallersTurn, isPlaying, isEnded, strictEqOpt.
  rewrite !andb_true_iff, negb_true_iff, orb_false_iff, !bool_decide_eq_true.
  destruct (turnUid g) as [t|].
  - rewrite String.eqb_eq. split.
    + intros [[[? [? ?]] ->] ?]. done.
    + intros (? & ? & ? & [= ->] & ?). done.
  - split; [intros [[_ ?] _]; done | intros (_ & _ & _ & ? & _); done].
Qed.

Lemma run_Kept (acts : list Action) (g : GameState) :
  Forall wellFormed acts →
  ∃ g', foldl perform (Some g) acts = Some g'
        ∧ (inPlay g' + meldedCount g' = inPlay g + meldedCount g)%nat
        ∧ (Forall keepsCardsInPlay acts → inPlay g' = inPlay g)
        ∧ objKeys (players g') = objKeys (players g).
Proof.
  revert g. induction acts as [|a acts IH]; intros g Hwf.
  - exists g. by repeat split.
  - apply Forall_cons in Hwf as [Ha Hwf].
    destruct (perform_Kept a g Ha) as (g1 & Hg1 & Hsum1 & Hin1 & Hk1).
    destruct (IH g1 Hwf) as (g' & Hg' & Hsum & Hin & Hk).
    exists g'. simpl. rewrite Hg1. split; [done|].
    split; [lia|]. split; [|congruence].
    intros [Hka Hkacts]%Forall_cons. rewrite Hin by done. by apply Hin1.
Qed.

Lemma allCards_length (g : GameState) : length (allCards g) = inPlay g.
Proof.
  unfold allCards, inPlay, handCount.
  rewrite !length_app, length_fmap, sum_list_mjoin_length.
  rewrite <- list_fmap_compose. unfold compose. lia.
Qed.

Lemma FreshDeal_counts (joined : list string) (uuid : nat → string) (now : Z)
    (g g' : GameState) :
  FreshDeal joined uuid now g g' →
  inPlay g' = 52%nat ∧ meldedCount g' = 0%nat ∧ NoDup (id <$> allCards g').
Proof.
  intros (_ & _ & Hperm & _ & Hmelds & _).
  split; [|split].
  - by rewrite <- allCards_length, Hperm, makeDeck_length.
  - unfold meldedCount. by rewrite Hmelds.
  - rewrite Hperm. apply makeDeck_NoDup_id.
Qed.

Lemma dealTx_joinedUids (sl : Slots) (uuid : nat → string) (rnd : nat → nat)
    (now : Z) (g : GameState) :
  isPlaying g = true → stock g = [] → discard g = [] →
  ∃ g', propose (dealTx (joinedUids sl) uuid rnd now) (Some g) = Some g'
        ∧ FreshDeal (joinedUids sl) uuid now g g'.
Proof.
  intros Hplay Hstock Hpile.
  destruct (dealTx_fresh (joinedUids sl) uuid rnd now g) as (g' & Htx & Hfresh);
    [apply joinedUids_NoDup | apply joinedUids_length | done..|].
  exists g'. split; [|done]. unfold propose, runTransaction. by rewrite Htx.
Qed.

(** ** C1: conservation of cards *)

(** C1, counterexample. From a deal for two players, a draw, a discard and
    a take lead to a state with 52 cards in hands, stock and pile; the
    [layMeld] that follows takes effect and leaves 49. *)
Lemma layMeld_breaks_card_count :
  let seat u := Some {| uid := u; seatName := u; ready := true |} in
  let sl := {| slot1 := seat "u1"; slot2 := seat "u2"; slot3 := None; slot4 := None |} in
  let dealt := propose (dealTx (joinedUids sl) (λ _, "") (λ i, i) 7)
                 (Some (Lobby.startedGame (Some "u1") 5)) in
  let before := foldl perform dealt
                  [DrawStock "u1"; Discard "u1" "S-11-" 8; TakeTopDiscard "u2"] in
  let after := perform before (LayMeld "u2" ["S-10-"; "S-11-"; "S-12-"] "m" 9) in
  inPlay <$> before = Some 52%nat ∧ inPlay <$> after = Some 49%nat.
Proof. vm_compute. done. Qed.

(** C1, as amended. A deal that takes effect leaves 52 cards in hands, stock
    and pile and none melded.  Whatever actions follow, the cards in hands,
    stock and pile together with the cards of the melds on the table stay
    52; and as long as the actions are draws, takes, eats and discards, the
    cards in hands, stock and pile alone stay 52. *)
Theorem cards_conserved (sl : Slots) (uuid : nat → string) (rnd : nat → nat)
    (now : Z) (g : GameState) (acts : list Action) :
  isPlaying g = true → stock g = [] → discard g = [] →
  Forall wellFormed acts →
  ∃ g0 g1,
    propose (dealTx (joinedUids sl) uuid rnd now) (Some g) = Some g0
    ∧ inPlay g0 = 52%nat ∧ meldedCount g0 = 0%nat
    ∧ foldl perform (Some g0) acts = Some g1
    ∧ (inPlay g1 + meldedCount g1 = 52)%nat
    ∧ (Forall keepsCardsInPlay acts → inPlay g1 = 52%nat).
Proof.
  intros Hplay Hstock Hpile Hwf.
  destruct (dealTx_joinedUids sl uuid rnd now g Hplay Hstock Hpile) as (g0 & Hg0 & Hfresh).
  destruct (FreshDeal_counts _ _ _ _ _ Hfresh) as (H52 & H0 & _).
  destruct (run_Kept acts g0 Hwf) as (g1 & Hg1 & Hsum & Hin & _).
  exists g0, g1. repeat split; try done; [lia|].
  intros Hk. rewrite Hin by done. done.
Qed.

Lemma cards_conserved_witness :
  let seat u := Some {| uid := u; seatName := u; ready := true |} in
  let sl := {| slot1 := seat "u1"; slot2 := seat "u2"; slot3 := None; slot4 := None |} in
  let acts := [DrawStock "u1"; Discard "u1" "S-11-" 8; TakeTopDiscard "u2";
               LayMeld "u2" ["S-10-"; "S-11-"; "S-12-"] "m" 9] in
  ∃ g0 g1,
    propose (dealTx (joinedUids sl) (λ _, "") (λ i, i) 7)
      (Some (Lobby.startedGame (Some "u1") 5)) = Some g0
    ∧ inPlay g0 = 52%nat ∧ meldedCount g0 = 0%nat
    ∧ foldl perform (Some g0) acts = Some g1
    ∧ (inPlay g1 + meldedCount g1 = 52)%nat
    ∧ (Forall keepsCardsInPlay acts → inPlay g1 = 52%nat).
Proof.
  intros seat sl acts.
  apply (cards_conserved sl (λ _, "") (λ i, i) 7 (Lobby.startedGame (Some "u1") 5) acts);
    [reflexivity | reflexivity | reflexivity |].
  repeat (apply Forall_cons_2;
          [first [exact I | apply (bool_decide_unpack _); by vm_compute]|]).
  apply Forall_nil_2.
Defined.


(** ** C2 and C10: the deal happens once, one hand per identity *)

Lemma dealTx_noop (joined : list string) (uuid : nat → string) (rnd : nat → nat)
    (now : Z) (g : GameState) :
  stock g ≠ [] ∨ discard g ≠ [] → dealTx joined uuid rnd now (Some g) = Value (Some g).
Proof.
  intros Hne. unfold dealTx. destruct (isPlaying g); [|done]. simpl.
  destruct Hne as [Hne|Hne].
  - destruct (stock g); [done|]. done.
  - destruct (discard g); [done|]. simpl. by rewrite orb_true_r.
Qed.

Lemma attemptDeal_again (g : GameState) (attempts : list DealAttempt) :
  discard g ≠ [] → foldl attemptDeal (Some g) attempts = Some g.
Proof.
  intros Hpile. induction attempts as [|a attempts IH]; [done|].
  simpl. unfold attemptDeal at 2, propose, runTransaction.
  rewrite dealTx_noop by (by right). simpl. exact IH.
Qed.

(** C2. The deal transaction returns a game whose stock or pile is not empty
    as it is.  So of any number of deal attempts on a playing game with
    empty stock and pile, in whatever order the store applies them, only the
    first takes effect: the final game is the one the first attempt dealt,
    with 52 cards in hands, stock and pile and no card identity twice. *)
Theorem deal_reentrant (first : DealAttempt) (others : list DealAttempt)
    (busy g : GameState) :
  (stock busy ≠ [] ∨ discard busy ≠ [] →
   dealTx (joinedUids (seenSlots first)) (uuids first) (randoms first) (clock first)
     (Some busy) = Value (Some busy)
   ∧ attemptDeal (Some busy) first = Some busy)
  ∧ (isPlaying g = true → stock g = [] → discard g = [] →
     ∃ g', attemptDeal (Some g) first = Some g'
           ∧ foldl attemptDeal (Some g) (first :: others) = Some g'
           ∧ length (allCards g') = 52%nat
           ∧ NoDup (id <$> allCards g')).
Proof.
  split.
  - intros Hne. split; [by apply dealTx_noop|].
    unfold attemptDeal, propose, runTransaction. by rewrite dealTx_noop.
  - intros Hplay Hstock Hpile.
    destruct (dealTx_joinedUids (seenSlots first) (uuids first) (randoms first)
                (clock first) g Hplay Hstock Hpile) as (g' & Hg' & Hfresh).
    destruct (FreshDeal_counts _ _ _ _ _ Hfresh) as (H52 & _ & Hnd).
    exists g'. split; [done|]. split; [|split; [|done]].
    + simpl. unfold attemptDeal at 2. rewrite Hg'. apply attemptDeal_again.
      destruct Hfresh as (_ & _ & _ & (head & -> & _) & _). done.
    + by rewrite allCards_length.
Qed.

Lemma deal_reentrant_witness :
  let seat u := Some {| uid := u; seatName := u; ready := true |} in
  let sl := {| slot1 := seat "u1"; slot2 := seat "u2"; slot3 := None; slot4 := None |} in
  let a1 := {| seenSlots := sl; uuids := λ _, "a"; randoms := λ i, i; clock := 7 |} in
  let a2 := {| seenSlots := sl; uuids := λ _, "b"; randoms := λ _, O; clock := 8 |} in
  let g := Lobby.startedGame (Some "u1") 5 in
  let busy := runInHand FromStock in
  (dealTx (joinedUids sl) (λ _, "a") (λ i, i) 7 (Some busy) = Value (Some busy)
   ∧ attemptDeal (Some busy) a1 = Some busy)
  ∧ ∃ g', attemptDeal (Some g) a1 = Some g'
          ∧ foldl attemptDeal (Some g) [a1; a2; a2] = Some g'
          ∧ length (allCards g') = 52%nat
          ∧ NoDup (id <$> allCards g').
Proof.
  intros seat sl a1 a2 g busy. split.
  - apply (proj1 (deal_reentrant a1 [a2; a2] busy g)). by left.
  - apply (proj2 (deal_reentrant a1 [a2; a2] busy g)); reflexivity.
Defined.

(** C10. The identities dealt to are the seats' uids with repetitions
    removed: whatever the seats hold, after the deal the players object has
    exactly one record per joined identity, and every record
    has a hand of seven cards. *)
Theorem deal_one_hand_per_identity (sl : Slots) (uuid : nat → string)
    (rnd : nat → nat) (now : Z) (g : GameState) :
  isPlaying g = true → stock g = [] → discard g = [] →
  ∃ g', propose (dealTx (joinedUids sl) uuid rnd now) (Some g) = Some g'
        ∧ NoDup (objKeys (players g'))
        ∧ (∀ u, u ∈ objKeys (players g')
                ↔ u ≠ "" ∧ ∃ x : Seat, Some x ∈ seatList sl ∧ uid x = u)
        ∧ (∀ u, u ∈ objKeys (players g') →
                ∃ p, objGet u (players g') = Some p ∧ length (hand p) = 7%nat)
        ∧ length (players g') = length (joinedUids sl)
        ∧ Forall (λ p, length (hand p) = 7%nat) (objValues (players g')).
Proof.
  intros Hplay Hstock Hpile.
  destruct (dealTx_joinedUids sl uuid rnd now g Hplay Hstock Hpile) as (g' & Hg' & Hfresh).
  destruct Hfresh as (Hkeys & Hhands & _).
  assert (H7 : Forall (λ p, length (hand p) = 7%nat) (objValues (players g'))).
  { eapply Forall_impl; [exact Hhands|]. by intros p (? & _). }
  assert (Hkp : objKeys (players g') ≡ₚ joinedUids sl).
  { rewrite Hkeys. apply keysOf_Permutation, joinedUids_NoDup. }
  exists g'. split; [done|].
  split; [rewrite Hkp; apply joinedUids_NoDup|].
  split; [intros u; rewrite Hkp; apply joinedUids_elem|].
  split; [|split; [|done]].
  - intros u Hu. apply objGet_is_Some in Hu as [p Hp].
    exists p. split; [done|].
    apply objGet_Some_elem in Hp. rewrite Forall_forall in H7. apply H7.
    unfold objValues. by apply (list_elem_of_fmap_2 snd) in Hp.
  - rewrite <- Hkp. unfold objKeys. by rewrite length_fmap.
Qed.

Lemma deal_one_hand_per_identity_witness :
  let seat u := Some {| uid := u; seatName := u; ready := true |} in
  let sl := {| slot1 := seat "u1"; slot2 := seat "u2"; slot3 := seat "u1"; slot4 := seat "u2" |} in
  ∃ g', propose (dealTx (joinedUids sl) (λ _, "") (λ i, i) 7)
          (Some (Lobby.startedGame (Some "u1") 5)) = Some g'
        ∧ NoDup (objKeys (players g'))
        ∧ (∀ u, u ∈ objKeys (players g')
                ↔ u ≠ "" ∧ ∃ x : Seat, Some x ∈ seatList sl ∧ uid x = u)
        ∧ (∀ u, u ∈ objKeys (players g') →
                ∃ p, objGet u (players g') = Some p ∧ length (hand p) = 7%nat)
        ∧ length (players g') = length (joinedUids sl)
        ∧ Forall (λ p, length (hand p) = 7%nat) (objValues (players g')).
Proof.
  intros seat sl.
  apply (deal_one_hand_per_identity sl (λ _, "") (λ i, i) 7
           (Lobby.startedGame (Some "u1") 5)); reflexivity.
Defined.

(** ** C9: turn order *)

Lemma indexOf_first (pre rest : list string) (u : string) :
  u ∉ pre → indexOf u (pre ++ u :: rest) = Z.of_nat (length pre).
Proof.
  induction pre as [|x pre IH]; intros Hnot; simpl.
  - by rewrite String.eqb_refl.
  - apply not_elem_of_cons in Hnot as [Hne Hnot].
    destruct (String.eqb_spec x u) as [->|_]; [done|].
    rewrite IH by done.
    destruct (Z.ltb_spec (Z.of_nat (length pre)) 0); lia.
Qed.

Lemma nextAfter_first (first : string) (pre rest : list string) (u : string) :
  u ∉ pre → nextAfter first (pre ++ u :: rest) u = Some (default first (rest !! O)).
Proof.
  induction pre as [|x pre IH]; intros Hnot; simpl.
  - by rewrite String.eqb_refl.
  - apply not_elem_of_cons in Hnot as [Hne Hnot].
    destruct (String.eqb_spec x u) as [->|_]; [done|]. by apply IH.
Qed.

(** The index arithmetic of [discardCardById] picks the identity that
    follows the caller in the key order, the first one after the last. *)
Lemma nextUid_spec (order : list string) (u : string) :
  u ∈ order →
  atIndex order (Z.rem (indexOf u order + 1) (Z.of_nat (length order)))
  = nextInOrder order u.
Proof.
  intros Hin. apply list_elem_of_split_l in Hin as (pre & rest & -> & Hnot).
  rewrite indexOf_first by done. unfold nextInOrder, atIndex.
  assert (Hfirst : ∃ first,
    (pre ++ u :: rest) !! O = Some first
    ∧ match pre ++ u :: rest with
      | [] => None
      | f :: _ => nextAfter f (pre ++ u :: rest) u
      end = Some (default first (rest !! O))).
  { destruct pre as [|x pre].
    - exists u. split; [done|]. cbn. by rewrite String.eqb_refl.
    - exists x. split; [done|]. apply (nextAfter_first x (x :: pre) rest u Hnot). }
  destruct Hfirst as (first & Hhead & ->).
  rewrite length_app.
  destruct rest as [|y rest].
  - replace (Z.of_nat (length pre + length [u]))
      with (Z.of_nat (length pre) + 1) by (simpl; lia).
    rewrite Z.rem_same by lia. exact Hhead.
  - replace (Z.of_nat (length pre + length (u :: y :: rest)))
      with (Z.of_nat (length pre) + 2 + Z.of_nat (length rest)) by (simpl; lia).
    rewrite Z.rem_small by lia.
    destruct (Z.ltb_spec (Z.of_nat (length pre) + 1) 0) as [?|_]; [lia|].
    replace (Z.to_nat (Z.of_nat (length pre) + 1)) with (length pre + 1)%nat by lia.
    rewrite lookup_app_r by lia.
    by replace (length pre + 1 - length pre)%nat with 1%nat by lia.
Qed.

(** A discard that passes its checks: what it leaves. *)
Lemma discardCardByIdTx_done (me cardId : string) (now : Z) (g : GameState)
    (p : GamePlayer) (idx : nat) (c : CardT) :
  CallersTurn me StepDiscard g → objGet me (players g) = Some p →
  findCard cardId (hand p) = Some (idx, c) →
  ∃ g', discardCardByIdTx me cardId now (Some g) = Value (Some g')
        ∧ discard g' = discard g ++ [{| card := c; fromUid := Some me; at_ := now |}]
        ∧ turnUid g' = nextInOrder (objKeys (players g)) me
        ∧ step g' = Some StepDraw
        ∧ headCardId g' = headCardId g
        ∧ stock g' = stock g
        ∧ objGet me (players g') = Some (setHand (delete idx (hand p)) p)
        ∧ cardOrigins g' !! id c
          = Some {| originKind := FromDiscard; originFromUid := Some me |}.
Proof.
  intros Hturn Hp Hf. unfold discardCardByIdTx.
  rewrite (proj2 (myMove_CallersTurn me StepDiscard g) Hturn). simpl.
  rewrite Hp, Hf. eexists. split; [reflexivity|]. simpl.
  rewrite objSet_keys by eauto.
  repeat split.
  - apply nextUid_spec. apply objGet_is_Some. eauto.
  - rewrite objGet_objSet. by rewrite bool_decide_eq_true_2.
  - unfold markDiscard. apply lookup_insert_eq.
Qed.




(** ** C8: taking the top of the pile *)

Lemma takeTopDiscardTx_short (me : string) (g : GameState) :
  (length (discard g) < 2)%nat → takeTopDiscardTx me (Some g) = Value (Some g).
Proof.
  intros Hlt. unfold takeTopDiscardTx.
  destruct (myMove me StepDraw g); [|done]. simpl.
  destruct (Nat.ltb_spec (length (discard g)) 2); [done | lia].
Qed.

(** C8. With fewer than two cards on the pile the take is refused, by the
    page (no transaction is proposed) and by the transaction (the game is
    returned as it is).  With two or more, on the caller's turn at step
    draw, the transaction moves exactly the pile's last card to the end of
    the caller's hand, records its origin as the pile with the identity
    that discarded it, and sets the step to discard. *)
Theorem takeTopDiscard_contract (me : string) (g : GameState) (who : option string)
    (room : option Room) (cur : option GameState)
    (p : GamePlayer) (pile : list DiscardCard) (top : DiscardCard) :
  ((length (discard g) < 2)%nat →
     takeTopDiscardTx me (Some g) = Value (Some g)
     ∧ takeTopDiscard who room (Some g) = Some g
     ∧ canTakeTopDiscard (Some g) = false)
  ∧ (viewGame room = Some g → (length (discard g) < 2)%nat →
     takeTopDiscard who room cur = cur)
  ∧ (CallersTurn me StepDraw g → objGet me (players g) = Some p →
     discard g = pile ++ [top] → (2 ≤ length (discard g))%nat →
     ∃ g' p',
       takeTopDiscardTx me (Some g) = Value (Some g')
       ∧ discard g' = pile
       ∧ objGet me (players g') = Some p'
       ∧ hand p' = hand p ++ [card top]
       ∧ lastTurnTookDiscardFromUid p' = fromUid top
       ∧ (∀ u, u ≠ me → objGet u (players g') = objGet u (players g))
       ∧ cardOrigins g' !! id (card top)
         = Some {| originKind := FromDiscard; originFromUid := fromUid top |}
       ∧ step g' = Some StepDiscard
       ∧ turnUid g' = turnUid g
       ∧ stock g' = stock g
       ∧ inPlay g' = inPlay g).
Proof.
  split; [|split].
  - intros Hlt. split; [by apply takeTopDiscardTx_short|]. split.
    + unfold takeTopDiscard.
      destruct (mayPropose who (viewGame room) StepDraw); [|done]. simpl.
      destruct (canTakeTopDiscard (viewGame room)); [|done]. simpl.
      unfold propose, runTransaction. by rewrite takeTopDiscardTx_short.
    + unfold canTakeTopDiscard. apply Nat.leb_gt. lia.
  - intros Hview Hlt. unfold takeTopDiscard. rewrite Hview.
    destruct (mayPropose who (Some g) StepDraw); [|done]. cbn [negb].
    assert (canTakeTopDiscard (Some g) = false) as ->; [|done].
    unfold canTakeTopDiscard. apply Nat.leb_gt. lia.
  - intros Hturn Hp Hpile Hlen.
    pose proof (perform_Kept (TakeTopDiscard me) g I) as (g'' & Hperf & _ & Hin & _).
    unfold perform, propose, runTransaction in Hperf. cbn [actionTx] in Hperf.
    unfold takeTopDiscardTx in *.
    rewrite (proj2 (myMove_CallersTurn me StepDraw g) Hturn) in *. simpl in *.
    destruct (Nat.ltb_spec (length (discard g)) 2) as [?|_]; [lia|].
    rewrite Hpile, pop_snoc, Hp in *. simpl in *.
    eexists _, _. split; [reflexivity|]. simpl.
    injection Hperf as <-.
    split; [done|]. split.
    { rewrite objGet_objSet. by rewrite bool_decide_eq_true_2. }
    split; [done|]. split; [done|]. split.
    { intros u Hu. rewrite objGet_objSet. by rewrite bool_decide_eq_false_2. }
    split; [apply lookup_insert_eq|].
    split; [done|]. split; [done|]. split; [done|]. by apply Hin.
Qed.

Lemma takeTopDiscard_contract_witness :
  let seat u := Some {| uid := u; seatName := u; ready := true |} in
  let sl := {| slot1 := seat "u1"; slot2 := seat "u2"; slot3 := None; slot4 := None |} in
  let g0 := Lobby.startedGame (Some "u1") 5 in
  let dealt := default g0 (propose (dealTx (joinedUids sl) (λ _, "") (λ i, i) 7) (Some g0)) in
  let g := default g0 (foldl perform (Some dealt) [DrawStock "u1"; Discard "u1" "S-11-" 8]) in
  let top := {| card := mkCard "S-11-" 11 Spades; fromUid := Some "u1"; at_ := 8 |} in
  let head := {| card := mkCard "H-12-" 12 Hearts; fromUid := None; at_ := 7 |} in
  let p := default {| name := ""; hand := []; hasMelded := false; score := 0;
                      scoredCards := []; lastTurnTookDiscardFromUid := None |}
             (objGet "u2" (players g)) in
  (takeTopDiscardTx "u1" (Some dealt) = Value (Some dealt)
   ∧ takeTopDiscard (Some "u1") None (Some dealt) = Some dealt
   ∧ canTakeTopDiscard (Some dealt) = false)
  ∧ ∃ g' p',
      takeTopDiscardTx "u2" (Some g) = Value (Some g')
      ∧ discard g' = [head]
      ∧ objGet "u2" (players g') = Some p'
      ∧ hand p' = hand p ++ [card top]
      ∧ lastTurnTookDiscardFromUid p' = fromUid top
      ∧ (∀ u, u ≠ "u2" → objGet u (players g') = objGet u (players g))
      ∧ cardOrigins g' !! id (card top)
        = Some {| originKind := FromDiscard; originFromUid := fromUid top |}
      ∧ step g' = Some StepDiscard
      ∧ turnUid g' = turnUid g
      ∧ stock g' = stock g
      ∧ inPlay g' = inPlay g.
Proof.
  intros seat sl g0 dealt g top head p.
  split.
  - apply (proj1 (takeTopDiscard_contract "u1" dealt (Some "u1") None None p [head] top)).
    vm_compute. lia.
  - apply (proj2 (proj2 (takeTopDiscard_contract "u2" g None None None p [head] top))).
    + vm_compute. repeat split; reflexivity.
    + vm_compute. reflexivity.
    + vm_compute. reflexivity.
    + vm_compute. lia.
Defined.

(** ** C7: a meld needs a card taken from the pile *)

Lemma existsb_none {A : Type} (f : A → bool) (l : list A) :
  (∀ x, x ∈ l → f x = false) → existsb f l = false.
Proof.
  induction l as [|x l IH]; intros Hall; simpl; [done|].
  rewrite (Hall x) by left. simpl. apply IH. intros y Hy. apply Hall. by right.
Qed.

(** C7. If no selected card id has an origin of kind discard recorded in
    [cardOrigins], the [layMeld] transaction returns the game as it is,
    whatever else holds (in particular when the selection is three or more
    cards of the caller's hand that form a valid set or run, on the caller's
    turn at step discard); so does the page's action. *)
Theorem layMeld_needs_pile_card (me : string) (ids : list string) (meldUuid : string)
    (now : Z) (g : GameState) (who : option string) (room : option Room) :
  (∀ cid o, cid ∈ ids → cardOrigins g !! cid = Some o → originKind o ≠ FromDiscard) →
  layMeldTx me ids meldUuid now (Some g) = Value (Some g)
  ∧ layMeld who room ids meldUuid now (Some g) = Some g.
Proof.
  intros Hnone.
  assert (Htx : ∀ u, layMeldTx u ids meldUuid now (Some g) = Value (Some g)).
  { intros u. unfold layMeldTx.
    destruct (myMove u StepDiscard g); [|done]. cbn [negb].
    destruct (mapM _ ids) as [found|] eqn:Hm; [|done].
    destruct (ok (classifyMeld found.*2)); [|done]. cbn [negb].
    rewrite existsb_none; [done|].
    intros c Hc. unfold hasDiscardOrigin.
    destruct (cardOrigins g !! id c) as [o|] eqn:Ho; [|done].
    apply bool_decide_eq_false_2. apply (Hnone (id c)); [|done].
    destruct (picked_spec _ _ _ Hm) as (_ & -> & _).
    apply list_elem_of_fmap in Hc as ([i c'] & -> & Hin).
    by apply (list_elem_of_fmap_2 (λ f : nat * CardT, id f.2)) in Hin. }
  split; [apply Htx|].
  unfold layMeld. destruct (mayPropose who (viewGame room) StepDiscard); [|done].
  cbn [negb]. destruct (length ids <? 3)%nat; [done|].
  unfold propose, runTransaction. by rewrite Htx.
Qed.

Lemma layMeld_needs_pile_card_witness :
  let g := runInHand FromStock in
  CallersTurn "u1" StepDiscard g
  ∧ ok (classifyMeld [mkCard "a" 4 Spades; mkCard "b" 5 Spades; mkCard "c" 6 Spades]) = true
  ∧ layMeldTx "u1" ["a"; "b"; "c"] "m" 9 (Some g) = Value (Some g)
  ∧ layMeld (Some "u1") None ["a"; "b"; "c"] "m" 9 (Some g) = Some g.
Proof.
  intros g. split; [by repeat split|]. split; [reflexivity|].
  apply (layMeld_needs_pile_card "u1" ["a"; "b"; "c"] "m" 9 g (Some "u1") None).
  intros cid o Hcid Ho.
  repeat (apply elem_of_cons in Hcid as [->|Hcid]);
    [vm_compute in Ho; by injection Ho as <-..|by apply elem_of_nil in Hcid].
Defined.

(** The same selection is accepted once one of its cards came from the
    pile: the rejection above is due to the origins alone. *)
Lemma layMeld_accepts_with_pile_card :
  ∃ g', layMeldTx "u1" ["a"; "b"; "c"] "m" 9 (Some (runInHand FromDiscard))
        = Value (Some g')
        ∧ length (tableMelds g') = 1%nat
        ∧ hand <$> objGet "u1" (players g') = Some [mkCard "d" 12 Hearts].
Proof. eexists. split; [vm_compute; reflexivity|]. by vm_compute. Qed.

(** ** C6: eating the head, then discarding *)

Lemma pop_last {A : Type} (l : list A) : fst <$> pop l = last l.
Proof. unfold pop. by destruct (last l). Qed.

(** An [eatHead] that passes its checks: what it leaves. *)
Lemma eatHeadTx_done (me : string) (now : Z) (g : GameState) (p : GamePlayer) :
  CallersTurn me StepDraw g → objGet me (players g) = Some p →
  ∃ g', eatHeadTx me now (Some g) = Value (Some g')
        ∧ discard g' = rebasedPile now (stock g)
        ∧ headCardId g' = id <$> last (stock g)
        ∧ objGet me (players g')
          = Some (setLastTook None (setHand (hand p ++ (card <$> discard g)) p))
        ∧ CallersTurn me StepDiscard g'.
Proof.
  intros Hturn Hp. unfold eatHeadTx.
  rewrite (proj2 (myMove_CallersTurn me StepDraw g) Hturn). cbn [negb].
  rewrite Hp. eexists. split; [reflexivity|]. simpl.
  rewrite pop_last. unfold rebasedPile.
  split; [done|]. split; [done|]. split.
  - rewrite objGet_objSet. by rewrite bool_decide_eq_true_2.
  - destruct Hturn as (? & ? & ? & ? & ?). by repeat split.
Qed.

(** C6, counterexample. Right after a deal for two players the first
    player eats the head and discards the king of spades: the pile then
    holds two cards, the new head drawn from the stock and the king. *)
Lemma eatHead_discard_leaves_two_cards :
  let seat u := Some {| uid := u; seatName := u; ready := true |} in
  let sl := {| slot1 := seat "u1"; slot2 := seat "u2"; slot3 := None; slot4 := None |} in
  let dealt := propose (dealTx (joinedUids sl) (λ _, "") (λ i, i) 7)
                 (Some (Lobby.startedGame (Some "u1") 5)) in
  let after := foldl perform dealt [EatHead "u1" 8; Discard "u1" "S-13-" 9] in
  (λ g, (turnUid g, step g, id ∘ card <$> discard g)) <$> dealt
    = Some (Some "u1", Some StepDraw, ["H-12-"])
  ∧ (λ g, (headCardId g, id ∘ card <$> discard g)) <$> after
    = Some (Some "H-11-", ["H-11-"; "S-13-"]).
Proof. by vm_compute. Qed.

(** C6, as amended. On the caller's turn at step draw, [eatHead] followed
    by the discard of a card the caller then holds leaves the pile as
    re-based by [eatHead] with the discarded card on top: the new head
    popped from the stock and the discarded card, two cards, when the stock
    was not empty; the discarded card alone, with no head card id, only when
    the stock was exhausted. *)
Theorem eatHead_then_discard (me cardId : string) (now1 now2 : Z) (g : GameState)
    (p : GamePlayer) (idx : nat) (c : CardT) :
  CallersTurn me StepDraw g →
  objGet me (players g) = Some p →
  findCard cardId (hand p ++ (card <$> discard g)) = Some (idx, c) →
  let thrown := {| card := c; fromUid := Some me; at_ := now2 |} in
  ∃ g1 g2,
    perform (Some g) (EatHead me now1) = Some g1
    ∧ perform (Some g1) (Discard me cardId now2) = Some g2
    ∧ discard g2 = rebasedPile now1 (stock g) ++ [thrown]
    ∧ headCardId g2 = id <$> last (stock g)
    ∧ (stock g = [] → discard g2 = [thrown] ∧ headCardId g2 = None)
    ∧ (stock g ≠ [] →
       ∃ h, last (stock g) = Some h
            ∧ discard g2 = [{| card := h; fromUid := None; at_ := now1 |}; thrown]
            ∧ headCardId g2 = Some (id h)).
Proof.
  intros Hturn Hp Hf thrown.
  destruct (eatHeadTx_done me now1 g p Hturn Hp) as (g1 & Htx1 & Hpile1 & Hhead1 & Hp1 & Hturn1).
  destruct (discardCardByIdTx_done me cardId now2 g1 _ idx c Hturn1 Hp1 Hf)
    as (g2 & Htx2 & Hpile2 & _ & _ & Hhead2 & _).
  exists g1, g2. unfold perform, propose, runTransaction. cbn [actionTx].
  rewrite Htx1, Htx2. cbn [snapshot].
  assert (Hpile : discard g2 = rebasedPile now1 (stock g) ++ [thrown]).
  { by rewrite Hpile2, Hpile1. }
  assert (Hhead : headCardId g2 = id <$> last (stock g)) by congruence.
  split; [done|]. split; [done|]. split; [done|]. split; [done|]. split.
  - intros Hempty. rewrite Hpile, Hhead. unfold rebasedPile. by rewrite Hempty.
  - intros Hne. destruct (stock g) as [|x st _] using rev_ind; [done|].
    exists x. rewrite Hpile, Hhead. unfold rebasedPile. by rewrite !last_snoc.
Qed.

Lemma eatHead_then_discard_witness :
  let seat u := Some {| uid := u; seatName := u; ready := true |} in
  let sl := {| slot1 := seat "u1"; slot2 := seat "u2"; slot3 := None; slot4 := None |} in
  let g0 := Lobby.startedGame (Some "u1") 5 in
  let g := default g0 (propose (dealTx (joinedUids sl) (λ _, "") (λ i, i) 7) (Some g0)) in
  let thrown := {| card := mkCard "S-13-" 13 Spades; fromUid := Some "u1"; at_ := 9 |} in
  ∃ g1 g2,
    perform (Some g) (EatHead "u1" 8) = Some g1
    ∧ perform (Some g1) (Discard "u1" "S-13-" 9) = Some g2
    ∧ discard g2 = rebasedPile 8 (stock g) ++ [thrown]
    ∧ headCardId g2 = id <$> last (stock g)
    ∧ (stock g = [] → discard g2 = [thrown] ∧ headCardId g2 = None)
    ∧ (stock g ≠ [] →
       ∃ h, last (stock g) = Some h
            ∧ discard g2 = [{| card := h; fromUid := None; at_ := 8 |}; thrown]
            ∧ headCardId g2 = Some (id h)).
Proof.
  intros seat sl g0 g thrown.
  eapply (eatHead_then_discard "u1" "S-13-" 8 9 g _ O (mkCard "S-13-" 13 Spades)).
  - vm_compute. repeat split; reflexivity.
  - vm_compute. reflexivity.
  - vm_compute. reflexivity.
Defined.

(** ** The page's actions and the transactions *)

(** Each action of the page either leaves the stored game alone (a test on
    the client's snapshot failed) or proposes its transaction in the
    caller's name; so what holds of every transaction holds of every
    action. *)
Lemma page_actions_are_transactions (who : option string) (room : option Room)
    (cardId : string) (ids : list string) (meldUuid : string) (now : Z)
    (cur : option GameState) :
  let me := default "" who in
  (drawStock who room cur = cur ∨ drawStock who room cur = perform cur (DrawStock me))
  ∧ (takeTopDiscard who room cur = cur
     ∨ takeTopDiscard who room cur = perform cur (TakeTopDiscard me))
  ∧ (eatHead who room now cur = cur
     ∨ eatHead who room now cur = perform cur (EatHead me now))
  ∧ (discardCardById who room cardId now cur = cur
     ∨ discardCardById who room cardId now cur = perform cur (Discard me cardId now))
  ∧ (layMeld who room ids meldUuid now cur = cur
     ∨ layMeld who room ids meldUuid now cur = perform cur (LayMeld me ids meldUuid now)).
Proof.
  intros me.
  unfold drawStock, takeTopDiscard, eatHead, discardCardById, layMeld, perform.
  cbn [actionTx].
  repeat split;
    repeat match goal with
           | |- context [if ?b then _ else _] => destruct b
           end; auto.
Qed.


(** * Further properties *)

(** ** Seats *)

Lemma slotAt_setSlotAt (m n : SeatNo) (v : option Seat) (sl : Slots) :
  slotAt m (setSlotAt n v sl) = if bool_decide (m = n) then v else slotAt m sl.
Proof. by destruct m, n. Qed.

Lemma truthyStr_Some (me : option string) :
  truthyStr me = true → ∃ u, me = Some u ∧ u ≠ "".
Proof.
  destruct me as [u|]; [|done]. simpl. intros Hu. exists u. split; [done|].
  intros ->. done.
Qed.

Lemma seatTx_spares (me name : string) (x : Seat) :
  uid x ≠ me →
  snapshot (runTransaction (Lobby.claimSlotTx me name) (Some x)) = Some x
  ∧ snapshot (runTransaction (Lobby.leaveSlotTx me) (Some x)) = Some x
  ∧ snapshot (runTransaction (Lobby.toggleReadyTx me) (Some x)) = Some x.
Proof.
  intros Hne. unfold runTransaction, Lobby.claimSlotTx, Lobby.leaveSlotTx,
    Lobby.toggleReadyTx, strictEqOpt. simpl.
  destruct (String.eqb_spec (uid x) me) as [?|_]; done.
Qed.

Lemma onSeat_spares (me : string) (n m : SeatNo) (tx : option Seat → TxReturn (option Seat))
    (sl : Slots) (x : Seat) :
  snapshot (runTransaction tx (Some x)) = Some x →
  slotAt m sl = Some x →
  slotAt m (snapshot (onSeat n tx sl)) = Some x.
Proof.
  intros Htx Hm. unfold onSeat. cbn [snapshot]. rewrite slotAt_setSlotAt.
  case_bool_decide as Hmn; [|done]. subst m. by rewrite Hm.
Qed.

(** X1. No eviction: whatever a client does on the lobby page (leave, claim
    any seat, toggle ready), a seat held by another identity stays exactly
    as it was. *)
Theorem seats_of_others_untouched (c : Client) (st : Stage) (slot m : SeatNo)
    (sl : Slots) (x : Seat) :
  slotAt m sl = Some x → Some (uid x) ≠ clientUid c →
  slotAt m (leaveSlot c sl).1 = Some x
  ∧ slotAt m (claimSlot c st slot sl).1.1 = Some x
  ∧ slotAt m (toggleReady c st sl) = Some x.
Proof.
  intros Hm Hother.
  assert (Hne : uid x ≠ default "" (clientUid c) ∨ truthyStr (clientUid c) = false).
  { destruct (clientUid c) as [u|]; [|by right]. left. simpl. congruence. }
  assert (Hleave : slotAt m (leaveSlot c sl).1 = Some x).
  { unfold leaveSlot. destruct (mySlot c) as [n|]; [|done].
    destruct (truthyStr (clientUid c)) eqn:Hu; [|done]. cbn [negb fst].
    destruct Hne as [Hne|?]; [|congruence].
    apply (onSeat_spares (default "" (clientUid c))); [|done].
    by apply (seatTx_spares _ "" x Hne). }
  split; [done|]. split.
  - unfold claimSlot.
    destruct (truthyStr (clientUid c)) eqn:Hu; [|done]. cbn [negb].
    destruct (bool_decide (st = lobby)); [|done]. cbn [negb].
    destruct Hne as [Hne|?]; [|congruence].
    set (afterLeave := match mySlot c with
                       | Some n => if bool_decide (n ≠ slot) then leaveSlot c sl else (sl, c)
                       | None => (sl, c)
                       end).
    assert (Hafter : slotAt m afterLeave.1 = Some x).
    { subst afterLeave. destruct (mySlot c) as [n|] eqn:Hn; [|done].
      case_bool_decide; [|done]. exact Hleave. }
    assert (slotAt m (snapshot (onSeat slot
              (Lobby.claimSlotTx (default "" (clientUid c)) (clientName c))
              afterLeave.1)) = Some x) as Hres.
    { apply (onSeat_spares (default "" (clientUid c))); [|done].
      by apply (seatTx_spares _ (clientName c) x Hne). }
    by destruct (committed _).
  - unfold toggleReady.
    destruct (truthyStr (clientUid c)) eqn:Hu; [|done]. cbn [negb].
    destruct (mySlot c) as [n|]; [|done].
    destruct (bool_decide (st = lobby)); [|done]. cbn [negb].
    destruct Hne as [Hne|?]; [|congruence].
    apply (onSeat_spares (default "" (clientUid c))); [|done].
    by apply (seatTx_spares _ "" x Hne).
Qed.

Lemma seats_of_others_untouched_witness :
  let bob := {| uid := "u2"; seatName := "Bob"; ready := true |} in
  let sl := {| slot1 := Some {| uid := "u1"; seatName := "Ann"; ready := false |};
               slot2 := Some bob; slot3 := None; slot4 := None |} in
  let ann := {| clientUid := Some "u1"; clientName := "Ann"; mySlot := Some Seat1 |} in
  slotAt Seat2 (leaveSlot ann sl).1 = Some bob
  ∧ slotAt Seat2 (claimSlot ann lobby Seat2 sl).1.1 = Some bob
  ∧ slotAt Seat2 (toggleReady ann lobby sl) = Some bob.
Proof.
  intros bob sl ann.
  apply (seats_of_others_untouched ann lobby Seat2 Seat2 sl bob); [reflexivity|].
  simpl. congruence.
Defined.

Lemma toggleReadyTx_twice (me : string) (cur : option Seat) :
  snapshot (runTransaction (Lobby.toggleReadyTx me)
              (snapshot (runTransaction (Lobby.toggleReadyTx me) cur))) = cur.
Proof.
  destruct cur as [[u nm rd]|]; [|done].
  unfold runTransaction, Lobby.toggleReadyTx. simpl.
  destruct (String.eqb u me) eqn:He; simpl; rewrite He; simpl; [|done].
  by rewrite negb_involutive.
Qed.

(** X2. Toggling ready twice gives back the stored seats, whoever calls it
    and whatever the seats hold; and on a seat the caller holds, in the
    lobby, one toggle flips [ready] and nothing else. *)
Theorem toggleReady_twice (c : Client) (st : Stage) (sl : Slots) :
  toggleReady c st (toggleReady c st sl) = sl
  ∧ ∀ n x, mySlot c = Some n → slotAt n sl = Some x →
      clientUid c = Some (uid x) → uid x ≠ "" → st = lobby →
      slotAt n (toggleReady c st sl)
      = Some {| uid := uid x; seatName := seatName x; ready := negb (ready x) |}.
Proof.
  split.
  - unfold toggleReady.
    destruct (truthyStr (clientUid c)); [|done]. cbn [negb].
    destruct (mySlot c) as [n|]; [|done].
    destruct (bool_decide (st = lobby)); [|done]. cbn [negb].
    unfold onSeat. cbn [snapshot].
    rewrite slotAt_setSlotAt, bool_decide_eq_true_2 by done.
    rewrite toggleReadyTx_twice. by destruct n, sl.
  - intros n x Hn Hx Hu Hne ->. unfold toggleReady. rewrite Hn, Hu. simpl.
    destruct (String.eqb_spec (uid x) "") as [?|_]; [done|]. simpl.
    unfold onSeat, runTransaction, Lobby.toggleReadyTx. cbn [snapshot].
    rewrite slotAt_setSlotAt, bool_decide_eq_true_2 by done.
    rewrite Hx. by rewrite String.eqb_refl.
Qed.

Lemma toggleReady_twice_witness :
  let sl := {| slot1 := Some {| uid := "u1"; seatName := "Ann"; ready := false |};
               slot2 := None; slot3 := None; slot4 := None |} in
  let ann := {| clientUid := Some "u1"; clientName := "Ann"; mySlot := Some Seat1 |} in
  slotAt Seat1 (toggleReady ann lobby sl)
  = Some {| uid := "u1"; seatName := "Ann"; ready := true |}.
Proof.
  intros sl ann.
  apply (proj2 (toggleReady_twice ann lobby sl) Seat1
           {| uid := "u1"; seatName := "Ann"; ready := false |});
    try reflexivity. done.
Defined.

Lemma truthyStr_nonempty (u : string) : u ≠ "" → truthyStr (Some u) = true.
Proof. intros Hne. simpl. by destruct (String.eqb_spec u ""). Qed.

Lemma leaveSlot_own (c : Client) (sl : Slots) (n : SeatNo) (x : Seat) :
  mySlot c = Some n → slotAt n sl = Some x → clientUid c = Some (uid x) → uid x ≠ "" →
  leaveSlot c sl = (setSlotAt n None sl, withMySlot None c).
Proof.
  intros Hn Hx Hu Hne. unfold leaveSlot. rewrite Hn, Hu, truthyStr_nonempty by done.
  cbn [negb default]. unfold onSeat, runTransaction, Lobby.leaveSlotTx. cbn [snapshot].
  rewrite Hx. simpl. by rewrite String.eqb_refl.
Qed.

Lemma setSlotAt_same (n : SeatNo) (sl : Slots) : setSlotAt n (slotAt n sl) sl = sl.
Proof. by destruct n, sl. Qed.

Lemma onSeat_claim_taken (me nm : string) (m : SeatNo) (sl : Slots) (y : Seat) :
  slotAt m sl = Some y → uid y ≠ me →
  onSeat m (Lobby.claimSlotTx me nm) sl = {| committed := false; snapshot := sl |}.
Proof.
  intros Hm Hne. unfold onSeat, runTransaction, Lobby.claimSlotTx. rewrite Hm.
  destruct (String.eqb_spec (uid y) me) as [?|_]; [done|]. cbn [committed snapshot].
  by rewrite <- Hm, setSlotAt_same.
Qed.

Lemma onSeat_claim_free (me nm : string) (m : SeatNo) (sl : Slots) :
  slotAt m sl = None →
  onSeat m (Lobby.claimSlotTx me nm) sl
  = {| committed := true;
       snapshot := setSlotAt m (Some {| uid := me; seatName := nm; ready := false |}) sl |}.
Proof.
  intros Hm. unfold onSeat, runTransaction, Lobby.claimSlotTx. by rewrite Hm.
Qed.

(** X3. A client that holds a seat and claims another one held by someone
    else loses its own seat and gets none: the old seat is released first,
    the claim then aborts, and the page is left with no seat ("Slot taken"). *)
Theorem claimSlot_taken_forfeits_seat (c : Client) (sl : Slots) (n m : SeatNo)
    (x y : Seat) :
  mySlot c = Some n → slotAt n sl = Some x → clientUid c = Some (uid x) →
  uid x ≠ "" → n ≠ m → slotAt m sl = Some y → uid y ≠ uid x →
  claimSlot c lobby m sl = (setSlotAt n None sl, withMySlot None c, SlotTaken)
  ∧ slotAt n (claimSlot c lobby m sl).1.1 = None
  ∧ slotAt m (claimSlot c lobby m sl).1.1 = Some y.
Proof.
  intros Hn Hx Hu Hne Hnm Hm Hyx.
  assert (Hclaim : claimSlot c lobby m sl
                   = (setSlotAt n None sl, withMySlot None c, SlotTaken)).
  { unfold claimSlot. rewrite Hu, truthyStr_nonempty by done. cbn [negb default].
    rewrite Hn. rewrite bool_decide_eq_true_2 by done. cbn [negb].
    rewrite bool_decide_eq_true_2 by done.
    rewrite (leaveSlot_own c sl n x) by done. cbn [fst snd].
    rewrite (onSeat_claim_taken _ _ m _ y); [done| |done].
    rewrite slotAt_setSlotAt. by rewrite bool_decide_eq_false_2 by congruence. }
  rewrite Hclaim. cbn [fst]. rewrite !slotAt_setSlotAt.
  rewrite bool_decide_eq_true_2 by done.
  by rewrite bool_decide_eq_false_2 by congruence.
Qed.

Lemma claimSlot_taken_forfeits_seat_witness :
  let ann := {| uid := "u1"; seatName := "Ann"; ready := true |} in
  let bob := {| uid := "u2"; seatName := "Bob"; ready := false |} in
  let sl := {| slot1 := Some ann; slot2 := Some bob; slot3 := None; slot4 := None |} in
  let c := {| clientUid := Some "u1"; clientName := "Ann"; mySlot := Some Seat1 |} in
  claimSlot c lobby Seat2 sl = (setSlotAt Seat1 None sl, withMySlot None c, SlotTaken)
  ∧ slotAt Seat1 (claimSlot c lobby Seat2 sl).1.1 = None
  ∧ slotAt Seat2 (claimSlot c lobby Seat2 sl).1.1 = Some bob.
Proof.
  intros ann bob sl c.
  apply (claimSlot_taken_forfeits_seat c sl Seat1 Seat2 ann bob); done.
Defined.

(** X4. A client that holds a seat and claims a free one ends up on the new
    seat only, not ready; its old seat is free again. *)
Theorem claimSlot_moves_to_free_seat (c : Client) (sl : Slots) (n m : SeatNo) (x : Seat) :
  mySlot c = Some n → slotAt n sl = Some x → clientUid c = Some (uid x) →
  uid x ≠ "" → n ≠ m → slotAt m sl = None →
  let mine := {| uid := uid x; seatName := clientName c; ready := false |} in
  claimSlot c lobby m sl
  = (setSlotAt m (Some mine) (setSlotAt n None sl), withMySlot (Some m) c, Seated)
  ∧ slotAt n (claimSlot c lobby m sl).1.1 = None
  ∧ slotAt m (claimSlot c lobby m sl).1.1 = Some mine.
Proof.
  intros Hn Hx Hu Hne Hnm Hm mine.
  assert (Hclaim : claimSlot c lobby m sl
    = (setSlotAt m (Some mine) (setSlotAt n None sl), withMySlot (Some m) c, Seated)).
  { unfold claimSlot. rewrite Hu, truthyStr_nonempty by done. cbn [negb default].
    rewrite Hn. rewrite bool_decide_eq_true_2 by done. cbn [negb].
    rewrite bool_decide_eq_true_2 by done.
    rewrite (leaveSlot_own c sl n x) by done. cbn [fst snd].
    rewrite onSeat_claim_free; [done|].
    rewrite slotAt_setSlotAt. by rewrite bool_decide_eq_false_2 by congruence. }
  rewrite Hclaim. cbn [fst]. rewrite !slotAt_setSlotAt.
  rewrite (bool_decide_eq_false_2 (n = m)) by done.
  by rewrite !bool_decide_eq_true_2 by done.
Qed.

Lemma claimSlot_moves_to_free_seat_witness :
  let ann := {| uid := "u1"; seatName := "Ann"; ready := true |} in
  let sl := {| slot1 := Some ann; slot2 := None; slot3 := None; slot4 := None |} in
  let c := {| clientUid := Some "u1"; clientName := "Annie"; mySlot := Some Seat1 |} in
  let mine := {| uid := "u1"; seatName := "Annie"; ready := false |} in
  claimSlot c lobby Seat3 sl
  = (setSlotAt Seat3 (Some mine) (setSlotAt Seat1 None sl), withMySlot (Some Seat3) c, Seated)
  ∧ slotAt Seat1 (claimSlot c lobby Seat3 sl).1.1 = None
  ∧ slotAt Seat3 (claimSlot c lobby Seat3 sl).1.1 = Some mine.
Proof.
  intros ann sl c mine.
  apply (claimSlot_moves_to_free_seat c sl Seat1 Seat3 ann); done.
Defined.

(** X5. The page forgets [mySlot] when it is loaded again.  A client whose
    identity still holds a seat, but whose page does not know it, claims a
    free seat without releasing the old one: the identity then holds two
    seats, which count as two occupied seats and as one joined identity. *)
Theorem claimSlot_without_mySlot_keeps_old_seat (c : Client) (sl : Slots)
    (n m : SeatNo) (x : Seat) :
  mySlot c = None → slotAt n sl = Some x → clientUid c = Some (uid x) →
  uid x ≠ "" → n ≠ m → slotAt m sl = None →
  let mine := {| uid := uid x; seatName := clientName c; ready := false |} in
  let after := (claimSlot c lobby m sl).1.1 in
  claimSlot c lobby m sl = (setSlotAt m (Some mine) sl, withMySlot (Some m) c, Seated)
  ∧ slotAt n after = Some x
  ∧ slotAt m after = Some mine
  ∧ occupiedCount after = S (occupiedCount sl)
  ∧ (∀ u, u ∈ joinedUids after ↔ u ∈ joinedUids sl).
Proof.
  intros Hn Hx Hu Hne Hnm Hm mine after.
  assert (Hclaim : claimSlot c lobby m sl
    = (setSlotAt m (Some mine) sl, withMySlot (Some m) c, Seated)).
  { unfold claimSlot. rewrite Hu, truthyStr_nonempty by done. cbn [negb default].
    rewrite Hn. rewrite bool_decide_eq_true_2 by done. cbn [negb fst snd].
    by rewrite onSeat_claim_free. }
  subst after. rewrite Hclaim. cbn [fst]. rewrite !slotAt_setSlotAt.
  rewrite (bool_decide_eq_false_2 (n = m)) by done.
  rewrite bool_decide_eq_true_2 by done.
  split; [done|]. split; [done|]. split; [done|]. split.
  - unfold occupiedCount. destruct m, sl as [[?|] [?|] [?|] [?|]]; simpl in Hm; try done.
  - intros u. rewrite !joinedUids_elem. split.
    + intros [Hu' (z & Hz & Huz)]. split; [done|].
      assert (Hcase : z = mine ∨ Some z ∈ seatList sl).
      { destruct m, sl as [s1 s2 s3 s4]; unfold seatList in *; simpl in *;
          rewrite !elem_of_cons in Hz; rewrite !elem_of_cons;
          destruct Hz as [Hz|[Hz|[Hz|[Hz|Hz]]]];
          try (by apply elem_of_nil in Hz); try (injection Hz as ->; by left);
          right; rewrite Hz; tauto. }
      destruct Hcase as [->|Hin]; [|by exists z].
      exists x. split; [|done].
      destruct n, sl as [s1 s2 s3 s4]; unfold seatList; simpl in *; rewrite <- Hx;
        rewrite !elem_of_cons; tauto.
    + intros [Hu' (z & Hz & Huz)]. split; [done|]. exists z. split; [|done].
      destruct m, sl as [s1 s2 s3 s4]; unfold seatList in *; simpl in *; subst;
        rewrite !elem_of_cons in Hz; rewrite !elem_of_cons;
        destruct Hz as [Hz|[Hz|[Hz|[Hz|Hz]]]];
        try (by apply elem_of_nil in Hz); try done; tauto.
Qed.

Lemma claimSlot_without_mySlot_keeps_old_seat_witness :
  let ann := {| uid := "u1"; seatName := "Ann"; ready := true |} in
  let sl := {| slot1 := Some ann; slot2 := None; slot3 := None; slot4 := None |} in
  let c := {| clientUid := Some "u1"; clientName := "Ann"; mySlot := None |} in
  let mine := {| uid := "u1"; seatName := "Ann"; ready := false |} in
  let after := (claimSlot c lobby Seat2 sl).1.1 in
  claimSlot c lobby Seat2 sl = (setSlotAt Seat2 (Some mine) sl, withMySlot (Some Seat2) c, Seated)
  ∧ slotAt Seat1 after = Some ann
  ∧ slotAt Seat2 after = Some mine
  ∧ occupiedCount after = S (occupiedCount sl)
  ∧ (∀ u, u ∈ joinedUids after ↔ u ∈ joinedUids sl).
Proof.
  intros ann sl c mine after.
  apply (claimSlot_without_mySlot_keeps_old_seat c sl Seat1 Seat2 ann); done.
Defined.

(** ** The start gate, from both sides *)

Lemma StartConditions_check (u : string) (rm : Room) :
  strictEqOpt (uid <$> slot1 (Lobby.slotsOf (Some rm))) u = true
  ∧ Lobby.startable (Lobby.statusOf (Some rm)) (Lobby.phaseOf (Some rm))
      (Lobby.currentPlayers (Lobby.slotsOf (Some rm))) = true
  ↔ StartConditions u rm.
Proof.
  split.
  - intros [Hs1 Hst].
    unfold Lobby.startable in Hst. rewrite !andb_true_iff in Hst.
    destruct Hst as [[[[Hstat Hph] Hlo] Hhi] Hready].
    apply bool_decide_eq_true_1 in Hstat, Hph.
    apply Nat.leb_le in Hlo, Hhi.
    rewrite occupiedCount_currentPlayers in Hlo, Hhi.
    pose proof (everyoneReady_all _ Hready) as Hall.
    unfold StartConditions, Lobby.slotsOf, Lobby.statusOf, Lobby.phaseOf in *.
    simpl in *. repeat split; try done.
    unfold strictEqOpt in Hs1.
    destruct (uid <$> slot1 (default EMPTY_SLOTS (slots rm))) as [v|]; [|done].
    by apply String.eqb_eq in Hs1 as ->.
  - intros (Hs1 & Hstat & Hph & [Hlo Hhi] & Hready).
    unfold Lobby.slotsOf, Lobby.statusOf, Lobby.phaseOf. simpl. split.
    + rewrite Hs1. simpl. apply String.eqb_refl.
    + unfold Lobby.startable. rewrite !andb_true_iff.
      rewrite <- occupiedCount_currentPlayers in Hlo, Hhi.
      repeat split.
      * by apply bool_decide_eq_true_2.
      * by apply bool_decide_eq_true_2.
      * by apply Nat.leb_le.
      * by apply Nat.leb_le.
      * unfold Lobby.everyoneReady. rewrite andb_true_iff. split.
        -- apply Nat.ltb_lt. lia.
        -- apply forallb_elem. intros p Hp. apply bool_decide_eq_true_2.
           apply Hready. unfold Lobby.currentPlayers in Hp.
           apply list_elem_of_omap in Hp as ([y|] & Hy & Hpy); [|done].
           simpl in Hpy. by injection Hpy as ->.
Qed.

Lemma startGameBySlot1_checks (u : string) (rv rl : Room) (now : Z) :
  u ≠ "" →
  let checks (r : Room) :=
    strictEqOpt (uid <$> slot1 (Lobby.slotsOf (Some r))) u
    && Lobby.startable (Lobby.statusOf (Some r)) (Lobby.phaseOf (Some r))
         (Lobby.currentPlayers (Lobby.slotsOf (Some r))) in
  (is_Some (Lobby.startGameBySlot1 (Some u) (Some rv) (Some rl) now)
   ↔ checks rv && checks rl = true)
  ∧ (is_Some (LobbyV1.startGameBySlot1 (Some u) (Some rv) (Some rl) now)
     ↔ checks rv && checks rl = true).
Proof.
  intros Hu checks. subst checks.
  unfold Lobby.startGameBySlot1, LobbyV1.startGameBySlot1, Lobby.canStart,
    LobbyV1.canStart, LobbyV1.currentPlayers, Lobby.startable.
  rewrite truthyStr_nonempty by done.
  change (default "" (Some u)) with u. cbn [negb].
  set (a := strictEqOpt (uid <$> slot1 (Lobby.slotsOf (Some rv))) u).
  set (b := _ && _ && _ && _ && Lobby.everyoneReady (Lobby.currentPlayers (Lobby.slotsOf (Some rv)))).
  set (c := strictEqOpt (uid <$> slot1 (Lobby.slotsOf (Some rl))) u).
  set (d := _ && _ && _ && _ && Lobby.everyoneReady (Lobby.currentPlayers (Lobby.slotsOf (Some rl)))).
  fold (Lobby.currentPlayers (Lobby.slotsOf (Some rv))).
  fold (Lobby.currentPlayers (Lobby.slotsOf (Some rl))).
  fold b. fold d.
  destruct a, b, c, d; cbn [negb andb]; split; split;
    try (intros [? ?]; discriminate); try discriminate; eauto.
Qed.

(** X6. The start gate opens exactly on the start conditions: with a
    non-empty uid, either version of [startGameBySlot1] issues its write if
    and only if both the client's snapshot and the room just fetched have
    the caller on seat 1, status and phase lobby, two to four occupied
    seats, and every occupied seat ready. *)
Theorem startGameBySlot1_exact (u : string) (rv rl : Room) (now : Z) :
  u ≠ "" →
  (is_Some (Lobby.startGameBySlot1 (Some u) (Some rv) (Some rl) now)
   ↔ StartConditions u rv ∧ StartConditions u rl)
  ∧ (is_Some (LobbyV1.startGameBySlot1 (Some u) (Some rv) (Some rl) now)
     ↔ StartConditions u rv ∧ StartConditions u rl).
Proof.
  intros Hu.
  destruct (startGameBySlot1_checks u rv rl now Hu) as [-> ->].
  rewrite <- !StartConditions_check. rewrite !andb_true_iff. tauto.
Qed.

Lemma startGameBySlot1_exact_witness :
  let seat u := Some {| uid := u; seatName := u; ready := true |} in
  let rm := {| roomCreatedAt := Some 1; status := Some lobby; hostUid := Some "u1";
               slots := Some {| slot1 := seat "u1"; slot2 := seat "u2";
                                slot3 := seat "u3"; slot4 := None |};
               game := Some lobbyGame |} in
  is_Some (Lobby.startGameBySlot1 (Some "u1") (Some rm) (Some rm) 7)
  ∧ ¬ is_Some (Lobby.startGameBySlot1 (Some "u2") (Some rm) (Some rm) 7).
Proof.
  intros seat rm. split.
  - apply (proj1 (startGameBySlot1_exact "u1" rm rm 7 ltac:(done))).
    assert (StartConditions "u1" rm); [|done].
    unfold StartConditions. simpl. repeat split; try done; try (vm_compute; lia).
    intros x Hx. unfold seatList in Hx. simpl in Hx.
    repeat (apply elem_of_cons in Hx as [Hx|Hx]);
      try (by injection Hx as ->); try done.
    by apply elem_of_nil in Hx.
  - intros Hs.
    apply (proj1 (startGameBySlot1_exact "u2" rm rm 7 ltac:(done))) in Hs.
    destruct Hs as [(Hs1 & _) _]. simpl in Hs1. done.
Defined.

Lemma setFrom_head (a : string) (seen xs : list string) :
  setFrom (a :: seen) xs !! O = Some a.
Proof.
  revert seen. induction xs as [|x xs IH]; intros seen; simpl; [done|].
  case_bool_decide; [apply IH|]. apply (IH (seen ++ [x])).
Qed.

Lemma joinedUids_head (sl : Slots) (x : Seat) :
  slot1 sl = Some x → uid x ≠ "" → joinedUids sl !! O = Some (uid x).
Proof.
  intros Hx Hne. unfold joinedUids, seatList. rewrite Hx. simpl.
  rewrite filter_cons_True by done. simpl. apply setFrom_head.
Qed.

Lemma startGameBySlot1_write (me : option string) (room latest : option Room)
    (now : Z) (write : Room → Room) :
  Lobby.startGameBySlot1 me room latest now = Some write
  ∨ LobbyV1.startGameBySlot1 me room latest now = Some write →
  ∃ (u : string) (x : Seat),
    me = Some u ∧ u ≠ "" ∧ slot1 (Lobby.slotsOf latest) = Some x ∧ uid x = u
    ∧ (Lobby.startGameBySlot1 me room latest now = Some write →
       write = Lobby.updateStatusGame playing (Lobby.startedGame (Some u) now))
    ∧ (LobbyV1.startGameBySlot1 me room latest now = Some write →
       write = LobbyV1.startWrites now).
Proof.
  intros Hstart.
  assert (Hme : truthyStr me = true).
  { destruct Hstart as [H|H];
      [unfold Lobby.startGameBySlot1 in H | unfold LobbyV1.startGameBySlot1 in H];
      by destruct (truthyStr me). }
  destruct (truthyStr_Some me Hme) as (u & -> & Hu).
  assert (Hs1 : strictEqOpt (uid <$> slot1 (Lobby.slotsOf latest)) u = true).
  { destruct Hstart as [H|H].
    - unfold Lobby.startGameBySlot1 in H. rewrite Hme in H. change (default "" (Some u)) with u in H. cbn [negb] in H.
      destruct (strictEqOpt (uid <$> slot1 (Lobby.slotsOf room)) u); [|done].
      destruct (Lobby.canStart room); [|done]. cbn [negb] in H.
      destruct latest as [rl|]; [|done].
      by destruct (strictEqOpt (uid <$> slot1 (Lobby.slotsOf (Some rl))) u).
    - unfold LobbyV1.startGameBySlot1 in H. rewrite Hme in H. change (default "" (Some u)) with u in H. cbn [negb] in H.
      destruct (strictEqOpt (uid <$> slot1 (Lobby.slotsOf room)) u); [|done].
      destruct (LobbyV1.canStart room); [|done]. cbn [negb] in H.
      destruct latest as [rl|]; [|done].
      by destruct (strictEqOpt (uid <$> slot1 (Lobby.slotsOf (Some rl))) u). }
  unfold strictEqOpt in Hs1.
  destruct (slot1 (Lobby.slotsOf latest)) as [x|] eqn:Hx; [|done]. simpl in Hs1.
  apply String.eqb_eq in Hs1.
  exists u, x. split; [done|]. split; [done|]. split; [done|]. split; [done|].
  split.
  - intros H. unfold Lobby.startGameBySlot1 in H.
    rewrite Hme in H. change (default "" (Some u)) with u in H. cbn [negb] in H.
    destruct (strictEqOpt (uid <$> slot1 (Lobby.slotsOf room)) u); [|done].
    destruct (Lobby.canStart room); [|done]. cbn [negb] in H.
    destruct latest as [rl|]; [|done].
    rewrite Hx in H. simpl in H. rewrite Hs1, String.eqb_refl in H. cbn [negb] in H.
    destruct (Lobby.startable _ _ _); [|done]. cbn [negb] in H. by injection H as <-.
  - intros H. unfold LobbyV1.startGameBySlot1 in H.
    rewrite Hme in H. change (default "" (Some u)) with u in H. cbn [negb] in H.
    destruct (strictEqOpt (uid <$> slot1 (Lobby.slotsOf room)) u); [|done].
    destruct (LobbyV1.canStart room); [|done]. cbn [negb] in H.
    destruct latest as [rl|]; [|done].
    rewrite Hx in H. simpl in H. rewrite Hs1, String.eqb_refl in H. cbn [negb] in H.
    destruct (_ && _ && _ && _ && _); [|done]. cbn [negb] in H. by injection H as <-.
Qed.

(** X7. Seat 1 moves first.  After a start by either version, the deal
    made by a client that sees the seats the start saw gives the first turn
    to the starter, who is among the players dealt to, at step draw, with
    all 52 cards in hands, stock and pile.  (The earlier version leaves
    [turnUid] to the deal, which takes the first joined identity; for it the
    stored game is taken as the lobby leaves it: phase lobby, no turn, no
    cards.) *)
Theorem first_turn_is_seat1 (me : option string) (room latest : option Room)
    (now : Z) (write : Room → Room) (stored : Room) (g0 : GameState)
    (uuid : nat → string) (rnd : nat → nat) (now' : Z) :
  let dealt (u : string) (gd : GameState) :=
    status (write stored) = Some playing
    ∧ propose (dealTx (joinedUids (Lobby.slotsOf latest)) uuid rnd now')
        (game (write stored)) = Some gd
    ∧ me = Some u
    ∧ turnUid gd = Some u
    ∧ is_Some (objGet u (players gd))
    ∧ step gd = Some StepDraw
    ∧ inPlay gd = 52%nat in
  (Lobby.startGameBySlot1 me room latest now = Some write → ∃ u gd, dealt u gd)
  ∧ (LobbyV1.startGameBySlot1 me room latest now = Some write →
     game stored = Some g0 → phase g0 = Some lobby → turnUid g0 = None →
     stock g0 = [] → discard g0 = [] →
     ∃ u gd, dealt u gd).
Proof.
  intros dealt. subst dealt. cbv beta.
  assert (Hgen : ∀ u x g,
    slot1 (Lobby.slotsOf latest) = Some x → uid x = u → u ≠ "" →
    isPlaying g = true → stock g = [] → discard g = [] →
    (turnUid g = Some u ∨ turnUid g = None) →
    ∃ gd, propose (dealTx (joinedUids (Lobby.slotsOf latest)) uuid rnd now') (Some g)
          = Some gd
          ∧ turnUid gd = Some u ∧ is_Some (objGet u (players gd))
          ∧ step gd = Some StepDraw ∧ inPlay gd = 52%nat).
  { intros u x g Hx Hxu Hu Hplay Hstock Hpile Hturn.
    destruct (dealTx_joinedUids (Lobby.slotsOf latest) uuid rnd now' g Hplay Hstock Hpile)
      as (gd & Hgd & Hfresh).
    destruct (FreshDeal_counts _ _ _ _ _ Hfresh) as (H52 & _ & _).
    destruct Hfresh as (Hkeys & _ & _ & _ & _ & _ & Hstep & Hturn' & _).
    exists gd. split; [done|]. split; [|split; [|done]].
    - rewrite Hturn'. destruct Hturn as [->| ->]; [done|].
      subst u. by apply joinedUids_head.
    - apply objGet_is_Some. rewrite Hkeys.
      rewrite keysOf_Permutation by apply joinedUids_NoDup. apply joinedUids_elem.
      split; [done|]. exists x. split; [|done].
      unfold seatList. rewrite Hx. left. }
  split.
  - intros Hstart.
    destruct (startGameBySlot1_write me room latest now write (or_introl Hstart))
      as (u & x & -> & Hu & Hx & Hxu & Hw & _).
    rewrite (Hw Hstart). cbn [Lobby.updateStatusGame status game].
    destruct (Hgen u x (Lobby.startedGame (Some u) now) Hx Hxu Hu) as (gd & ? & ? & ? & ? & ?);
      [done | done | done | by left |].
    exists u, gd. done.
  - intros Hstart Hg0 Hphase Hturn Hstock Hpile.
    destruct (startGameBySlot1_write me room latest now write (or_intror Hstart))
      as (u & x & -> & Hu & Hx & Hxu & _ & Hw).
    rewrite (Hw Hstart). unfold LobbyV1.startWrites. cbn [status game].
    rewrite Hg0. unfold runTransaction, LobbyV1.startTx.
    rewrite bool_decide_eq_true_2 by done. cbn [negb snapshot].
    match goal with
    | |- context [propose _ (Some ?g)] =>
        destruct (Hgen u x g Hx Hxu Hu) as (gd & ? & ? & ? & ? & ?);
          [done | done | done | by right |]
    end.
    exists u, gd. done.
Qed.

Lemma first_turn_is_seat1_witness :
  let seat u := Some {| uid := u; seatName := u; ready := true |} in
  let rm := {| roomCreatedAt := Some 1; status := Some lobby; hostUid := Some "u1";
               slots := Some {| slot1 := seat "u1"; slot2 := seat "u2";
                                slot3 := None; slot4 := None |};
               game := Some lobbyGame |} in
  ∃ u gd,
    status (LobbyV1.startWrites 7 rm) = Some playing
    ∧ propose (dealTx (joinedUids (Lobby.slotsOf (Some rm))) (λ _, "") (λ i, i) 8)
        (game (LobbyV1.startWrites 7 rm)) = Some gd
    ∧ Some "u1" = Some u
    ∧ turnUid gd = Some u
    ∧ is_Some (objGet u (players gd))
    ∧ step gd = Some StepDraw
    ∧ inPlay gd = 52%nat.
Proof.
  intros seat rm.
  apply (proj2 (first_turn_is_seat1 (Some "u1") (Some rm) (Some rm) 7
                  (LobbyV1.startWrites 7) rm lobbyGame (λ _, "") (λ i, i) 8));
    reflexivity.
Defined.

(** ** Old rooms and room codes *)

(** X8. The migration of an old room writes every one of [slots], [game],
    [status] and [createdAt]; a field the snapshot already has is written
    back as it is, a missing one gets its default (empty seats, a lobby
    game, status lobby, the current time); [hostUid] is not written.  A
    [createdAt] of 0 counts as missing for triggering the write but is
    written back as 0. *)
Theorem autoMigrate_fills_missing_only (rm : Room) (now : Z) (write : Room → Room)
    (stored : Room) :
  autoMigrate (Some rm) now = Some write →
  slots (write stored) = Some (default EMPTY_SLOTS (slots rm))
  ∧ game (write stored) = Some (default lobbyGame (game rm))
  ∧ status (write stored) = Some (default lobby (status rm))
  ∧ roomCreatedAt (write stored) = Some (default now (roomCreatedAt rm))
  ∧ hostUid (write stored) = hostUid stored
  ∧ (is_Some (slots rm) → slots (write stored) = slots rm)
  ∧ (is_Some (game rm) → game (write stored) = game rm)
  ∧ (is_Some (status rm) → status (write stored) = status rm)
  ∧ (is_Some (roomCreatedAt rm) → roomCreatedAt (write stored) = roomCreatedAt rm)
  ∧ (slots rm = None ∨ game rm = None ∨ status rm = None
     ∨ roomCreatedAt rm = None ∨ roomCreatedAt rm = Some 0).
Proof.
  unfold autoMigrate.
  destruct (slots rm) as [sl|] eqn:Hsl; destruct (game rm) as [gm|] eqn:Hgm;
    destruct (status rm) as [st|] eqn:Hst;
    destruct (roomCreatedAt rm) as [t0|] eqn:Ht; simpl;
    try (intros [= <-]; simpl; repeat split; (by intros [? ?]) || tauto).
  destruct (Z.eqb_spec t0 0) as [->|Hne]; simpl; [|done].
  intros [= <-]. simpl. repeat split; (by intros [? ?]) || tauto.
Qed.

Lemma autoMigrate_fills_missing_only_witness :
  let seats := {| slot1 := Some {| uid := "u1"; seatName := "Ann"; ready := true |};
                  slot2 := None; slot3 := None; slot4 := None |} in
  let old := {| roomCreatedAt := None; status := None; hostUid := Some "u1";
                slots := Some seats; game := None |} in
  ∃ write, autoMigrate (Some old) 9 = Some write
           ∧ write old = {| roomCreatedAt := Some 9; status := Some lobby;
                            hostUid := Some "u1"; slots := Some seats;
                            game := Some lobbyGame |}.
Proof.
  intros seats old. eexists. split; [reflexivity|].
  destruct (autoMigrate_fills_missing_only old 9 _ old eq_refl)
    as (H1 & H2 & H3 & H4 & H5 & _).
  reflexivity.
Defined.

(** A room with all four fields (and a non-zero [createdAt]) is left alone. *)
Lemma autoMigrate_complete_room (rm : Room) (now : Z) :
  is_Some (slots rm) → is_Some (game rm) → is_Some (status rm) →
  truthyNum (roomCreatedAt rm) = true →
  autoMigrate (Some rm) now = None.
Proof.
  intros [? Hs] [? Hg] [? Ht] Hc. unfold autoMigrate. rewrite Hs, Hg, Ht, Hc.
  by rewrite !bool_decide_eq_true_2 by eauto.
Qed.

Lemma roomCodeChars_get (k : nat) :
  (k < 32)%nat →
  ∃ ch, String.get k roomCodeChars = Some ch
        ∧ ch ∈ String.list_ascii_of_string roomCodeChars.
Proof.
  intros Hk.
  do 32 (destruct k as [|k]; [eexists; split; [reflexivity|];
                              apply (bool_decide_unpack _); by vm_compute|]).
  lia.
Qed.

(** X9. A room code has exactly the requested length and consists of
    characters of the alphabet only, which has no [I], [O], [0] or [1], for
    whatever random numbers below 32 it is drawn from. *)
Theorem genRoomCode_shape (rnd : nat → nat) (len : nat) :
  (∀ i, rnd i < 32)%nat →
  String.length (genRoomCode rnd len) = len
  ∧ ∀ ch, ch ∈ String.list_ascii_of_string (genRoomCode rnd len) →
      ch ∈ String.list_ascii_of_string roomCodeChars
      ∧ ch ∉ String.list_ascii_of_string "IO01".
Proof.
  intros Hrnd. unfold genRoomCode.
  assert (Hlen : ∀ l, String.length
      (foldr (λ i acc, match String.get (rnd i) roomCodeChars with
                       | Some ch => String ch acc
                       | None => acc
                       end) "" l) = length l).
  { induction l as [|i l IH]; [done|]. cbn [foldr].
    destruct (roomCodeChars_get (rnd i) (Hrnd i)) as (ch & -> & _).
    cbn [String.length length]. by rewrite IH. }
  assert (Halpha : ∀ l ch, ch ∈ String.list_ascii_of_string
      (foldr (λ i acc, match String.get (rnd i) roomCodeChars with
                       | Some ch => String ch acc
                       | None => acc
                       end) "" l) → ch ∈ String.list_ascii_of_string roomCodeChars).
  { induction l as [|i l IH]; intros ch; [by intros ?%elem_of_nil|]. cbn [foldr].
    destruct (roomCodeChars_get (rnd i) (Hrnd i)) as (c0 & -> & Hc0).
    cbn [String.list_ascii_of_string].
    intros [->|Hin]%elem_of_cons; [done|]. by apply IH. }
  split.
  - by rewrite Hlen, length_seq.
  - intros ch Hch. apply Halpha in Hch. split; [done|].
    assert (Hall : Forall (λ a, a ∉ String.list_ascii_of_string "IO01")
                     (String.list_ascii_of_string roomCodeChars)).
    { apply (bool_decide_unpack _). by vm_compute. }
    rewrite Forall_forall in Hall. by apply Hall.
Qed.

Lemma genRoomCode_shape_witness :
  genRoomCode (λ i, (7 * i + 3) `mod` 32)%nat 6 = "DLT29G"
  ∧ String.length (genRoomCode (λ i, (7 * i + 3) `mod` 32)%nat 6) = 6%nat.
Proof.
  split; [reflexivity|].
  apply (proj1 (genRoomCode_shape (λ i, (7 * i + 3) `mod` 32)%nat 6
                  ltac:(intros i; apply Nat.mod_upper_bound; lia))).
Defined.


(** ** Deck, shuffle and classifier *)

Lemma makeDeck_faces (uuid : nat → string) :
  (λ c, (s c, r c)) <$> makeDeck uuid = x ← suits; (λ rank : Z, (x, rank)) <$> ranks.
Proof.
  unfold makeDeck. apply list_eq. intros n.
  rewrite list_lookup_fmap, list_lookup_imap.
  by destruct ((x ← suits; (λ rank : Z, (x, rank)) <$> ranks) !! n) as [[x rk]|].
Qed.

(** X10. A fresh deck is the 52 cards: every suit with every rank from 1 to
    13 exactly once, no other rank, each id being the suit letter, the rank
    and the card's own UUID, and no id twice. *)
Theorem makeDeck_complete (uuid : nat → string) :
  length (makeDeck uuid) = 52%nat
  ∧ NoDup ((λ c, (s c, r c)) <$> makeDeck uuid)
  ∧ (∀ c, c ∈ makeDeck uuid → 1 ≤ r c ≤ 13)
  ∧ (∀ (x : Suit) (rk : Z), 1 ≤ rk ≤ 13 →
       ∃ c, c ∈ makeDeck uuid ∧ s c = x ∧ r c = rk)
  ∧ (∀ n c, makeDeck uuid !! n = Some c → id c = cardId (s c) (r c) (uuid n))
  ∧ NoDup (id <$> makeDeck uuid).
Proof.
  split; [apply makeDeck_length|]. rewrite makeDeck_faces.
  split; [apply (bool_decide_unpack _); by vm_compute|].
  split; [|split; [|split; [|apply makeDeck_NoDup_id]]].
  - intros c Hc. apply (list_elem_of_fmap_2 (λ c, (s c, r c))) in Hc.
    rewrite makeDeck_faces in Hc.
    assert (Hall : Forall (λ p : Suit * Z, 1 ≤ p.2 ≤ 13)
                     (x ← suits; (λ rank : Z, (x, rank)) <$> ranks)).
    { apply (bool_decide_unpack _). by vm_compute. }
    rewrite Forall_forall in Hall. apply (Hall _ Hc).
  - intros x rk Hrk.
    assert (Hin : (x, rk) ∈ (λ c, (s c, r c)) <$> makeDeck uuid).
    { rewrite makeDeck_faces.
      assert (rk = 1 ∨ rk = 2 ∨ rk = 3 ∨ rk = 4 ∨ rk = 5 ∨ rk = 6 ∨ rk = 7 ∨ rk = 8
              ∨ rk = 9 ∨ rk = 10 ∨ rk = 11 ∨ rk = 12 ∨ rk = 13) as Hcases by lia.
      destruct x; destruct_or! Hcases; subst rk;
        apply (bool_decide_unpack _); by vm_compute. }
    apply list_elem_of_fmap in Hin as (c & [= -> ->] & Hc). by exists c.
  - intros n c Hn. unfold makeDeck in Hn. rewrite list_lookup_imap in Hn.
    destruct (_ !! n) as [[x rk]|]; [|done]. simpl in Hn. by injection Hn as <-.
Qed.

(** X11. Whatever the random numbers, as long as each is an index up to the
    loop's position (what [Math.floor(Math.random() * (i + 1))] gives),
    [shuffle] returns a rearrangement of its input: the same elements the
    same number of times, hence the same length; it leaves arrays of at
    most one element as they are. *)
Theorem shuffle_rearranges {A : Type} (rnd : nat → nat) (arr : list A) :
  (∀ i, rnd i ≤ i)%nat →
  shuffle rnd arr ≡ₚ arr
  ∧ length (shuffle rnd arr) = length arr
  ∧ ((length arr ≤ 1)%nat → shuffle rnd arr = arr).
Proof.
  intros _. split; [apply shuffle_Permutation|]. split.
  - by rewrite shuffle_Permutation.
  - intros Hlen. unfold shuffle.
    replace (length arr - 1)%nat with O by lia. reflexivity.
Qed.

Lemma shuffle_rearranges_witness :
  shuffle (λ i, i / 2)%nat [1; 2; 3; 4; 5] ≡ₚ [1; 2; 3; 4; 5]
  ∧ shuffle (λ i, i / 2)%nat [1; 2; 3; 4; 5] = [5; 1; 4; 2; 3].
Proof.
  split; [|reflexivity].
  apply (proj1 (shuffle_rearranges (λ i, i / 2)%nat [1; 2; 3; 4; 5]
                  ltac:(intros i; apply Nat.Div0.div_le_upper_bound; lia))).
Defined.

Lemma SetShape_Permutation (cs cs' : list CardT) : cs ≡ₚ cs' → SetShape cs → SetShape cs'.
Proof.
  intros Hp (Hlen & Hrank & Hnd). split; [by rewrite <- Hp|]. split.
  - intros c c' Hc Hc'. apply Hrank; by rewrite Hp.
  - by rewrite <- Hp.
Qed.

Lemma RunShape_Permutation (cs cs' : list CardT) : cs ≡ₚ cs' → RunShape cs → RunShape cs'.
Proof.
  intros Hp (Hlen & Hsuit & rs & Hrs & Hsorted & Hsteps).
  split; [by rewrite <- Hp|]. split.
  - intros c c' Hc Hc'. apply Hsuit; by rewrite Hp.
  - exists rs. split; [by rewrite <- Hp|done].
Qed.

(** X12. The classifier does not depend on the order in which the cards
    were selected: rearranging the cards gives the same answer. *)
Theorem classifyMeld_order_independent (cs cs' : list CardT) :
  cs ≡ₚ cs' → classifyMeld cs = classifyMeld cs'.
Proof.
  intros Hp.
  assert (Hset : isValidSet cs = isValidSet cs').
  { apply eq_true_iff_eq. rewrite !isValidSet_spec.
    split; apply SetShape_Permutation; done. }
  assert (Hrun : isValidRun cs = isValidRun cs').
  { apply eq_true_iff_eq. rewrite !isValidRun_spec.
    split; apply RunShape_Permutation; done. }
  unfold classifyMeld. by rewrite Hset, Hrun.
Qed.

Lemma classifyMeld_order_independent_witness :
  classifyMeld [mkCard "a" 6 Spades; mkCard "b" 4 Spades; mkCard "c" 5 Spades]
  = classifyMeld [mkCard "b" 4 Spades; mkCard "c" 5 Spades; mkCard "a" 6 Spades].
Proof.
  apply classifyMeld_order_independent.
  apply (Permutation_app_comm [mkCard "a" 6 Spades]
           [mkCard "b" 4 Spades; mkCard "c" 5 Spades]).
Defined.

Lemma StepsOfOne_lookup (rs : list Z) (a : Z) (i : nat) (b : Z) :
  StepsOfOne rs → rs !! O = Some a → rs !! i = Some b → b = a + Z.of_nat i.
Proof.
  intros Hsteps H0. revert b. induction i as [|i IH]; intros b Hi.
  - rewrite H0 in Hi. injection Hi as <-. lia.
  - destruct (rs !! i) as [c|] eqn:Hc.
    + rewrite (Hsteps i c b Hc Hi), (IH c eq_refl). lia.
    + apply lookup_ge_None in Hc. apply lookup_lt_Some in Hi. lia.
Qed.

Lemma StepsOfOne_NoDup (rs : list Z) : StepsOfOne rs → NoDup rs.
Proof.
  intros Hsteps. destruct rs as [|a rs'] eqn:E; [constructor|]. rewrite <- E in *.
  assert (H0 : rs !! O = Some a) by (by subst).
  apply NoDup_alt. intros i j x Hi Hj.
  pose proof (StepsOfOne_lookup rs a i x Hsteps H0 Hi).
  pose proof (StepsOfOne_lookup rs a j x Hsteps H0 Hj). lia.
Qed.

(** X13. What an accepted meld looks like: at least three cards, no two of
    the same rank and suit; a set has at most four cards (one per suit); a
    run of cards ranked 1 to 13 has at most thirteen. *)
Theorem accepted_meld_shape (cs : list CardT) :
  ok (classifyMeld cs) = true →
  (3 ≤ length cs)%nat
  ∧ NoDup ((λ c, (r c, s c)) <$> cs)
  ∧ (kind (classifyMeld cs) = Some KindSet → (length cs ≤ 4)%nat)
  ∧ (kind (classifyMeld cs) = Some KindRun →
     (∀ c, c ∈ cs → 1 ≤ r c ≤ 13) → (length cs ≤ 13)%nat).
Proof.
  intros Hok.
  unfold classifyMeld in *.
  destruct (isValidSet cs) eqn:Es; [|destruct (isValidRun cs) eqn:Er; [|done]].
  - destruct (proj1 (isValidSet_spec cs) Es) as (Hlen & Hrank & Hnd).
    split; [done|]. split; [|split; [|done]].
    + apply (NoDup_fmap_1 snd). rewrite <- list_fmap_compose. exact Hnd.
    + intros _. rewrite <- (length_fmap s).
      assert (Hsub : s <$> cs ⊆+ suits).
      { apply NoDup_submseteq; [done|]. intros x _. unfold suits. rewrite !elem_of_cons. destruct x; tauto. }
      apply submseteq_length in Hsub. simpl in Hsub. lia.
  - destruct (proj1 (isValidRun_spec cs) Er) as (Hlen & Hsuit & rs & Hperm & Hsorted & Hsteps).
    pose proof (StepsOfOne_NoDup rs Hsteps) as Hnd.
    split; [done|]. split; [|split; [done|]].
    + apply (NoDup_fmap_1 fst). rewrite <- list_fmap_compose.
      change (fst ∘ (λ c : CardT, (r c, s c))) with r. by rewrite <- Hperm.
    + intros _ Hrange.
      assert (Hlen' : length rs = length cs).
      { by rewrite Hperm, length_fmap. }
      destruct rs as [|a rs'] eqn:E; [simpl in Hlen'; lia|]. rewrite <- E in *.
      assert (H0 : rs !! O = Some a) by (by subst).
      destruct (rs !! (length rs - 1)%nat) as [b|] eqn:Hb.
      2:{ apply lookup_ge_None in Hb. lia. }
      pose proof (StepsOfOne_lookup rs a _ b Hsteps H0 Hb) as Hab.
      assert (Hin : ∀ x, x ∈ rs → 1 ≤ x ≤ 13).
      { intros x Hx. rewrite Hperm in Hx.
        apply list_elem_of_fmap in Hx as (c & -> & Hc). by apply Hrange. }
      pose proof (Hin a (list_elem_of_lookup_2 _ _ _ H0)).
      pose proof (Hin b (list_elem_of_lookup_2 _ _ _ Hb)). lia.
Qed.

Lemma accepted_meld_shape_witness :
  let cs := [mkCard "a" 7 Hearts; mkCard "b" 7 Spades; mkCard "c" 7 Clubs;
             mkCard "d" 7 Diamonds] in
  (3 ≤ length cs)%nat
  ∧ NoDup ((λ c, (r c, s c)) <$> cs)
  ∧ (kind (classifyMeld cs) = Some KindSet → (length cs ≤ 4)%nat)
  ∧ (kind (classifyMeld cs) = Some KindRun →
     (∀ c, c ∈ cs → 1 ≤ r c ≤ 13) → (length cs ≤ 13)%nat).
Proof.
  intros cs. apply (accepted_meld_shape cs). reflexivity.
Defined.

(** ** The actions as steps *)

Lemma removelast_pop {A : Type} (l : list A) :
  default l (snd <$> pop l) = removelast l.
Proof.
  destruct (pop l) as [[x l']|] eqn:Hpop.
  - unfold pop in Hpop. destruct (last l); by simplify_eq.
  - apply pop_None in Hpop. by subst.
Qed.

(** An update function returns the stored game as it is, or passes its
    checks. *)
Lemma perform_Effect (a : Action) (g : GameState) :
  perform (Some g) a = Some g
  ∨ ∃ g', perform (Some g) a = Some g' ∧ Effect a g g'.
Proof.
  unfold perform, propose, runTransaction.
  destruct a as [me|me|me now|me cardId now|me ids meldUuid now]; simpl.
  - destruct (myMove me StepDraw g) eqn:Hmv; simpl; [|by left].
    apply myMove_CallersTurn in Hmv.
    destruct (pop (stock g)) as [[c st]|] eqn:Hpop; [|by left].
    destruct (objGet me (players g)) as [p|] eqn:Hp; simpl; [|by left].
    right. eexists. split; [reflexivity|].
    apply pop_Some in Hpop. by apply Effect_draw.
  - destruct (myMove me StepDraw g) eqn:Hmv; simpl; [|by left].
    apply myMove_CallersTurn in Hmv.
    destruct (length (discard g) <? 2)%nat eqn:Hlen; [by left|].
    destruct (pop (discard g)) as [[d pile]|] eqn:Hpop; [|by left].
    destruct (objGet me (players g)) as [p|] eqn:Hp; simpl; [|by left].
    right. eexists. split; [reflexivity|].
    apply pop_Some in Hpop. apply Effect_take; [done..|].
    intros ->. rewrite Hpop in Hlen. done.
  - destruct (myMove me StepDraw g) eqn:Hmv; simpl; [|by left].
    apply myMove_CallersTurn in Hmv.
    destruct (objGet me (players g)) as [p|] eqn:Hp; simpl; [|by left].
    right. eexists. split; [|by apply (Effect_eat me now g p)].
    rewrite removelast_pop, pop_last. reflexivity.
  - destruct (myMove me StepDiscard g) eqn:Hmv; simpl; [|by left].
    apply myMove_CallersTurn in Hmv.
    destruct (objGet me (players g)) as [p|] eqn:Hp; simpl; [|by left].
    destruct (findCard cardId (hand p)) as [[idx c]|] eqn:Hf; [|by left].
    right. eexists. split; [|by apply (Effect_discard me cardId now g p idx c)].
    rewrite objSet_keys by eauto.
    rewrite nextUid_spec by (apply objGet_is_Some; eauto). reflexivity.
  - destruct (myMove me StepDiscard g) eqn:Hmv; simpl; [|by left].
    apply myMove_CallersTurn in Hmv.
    destruct (mapM _ ids) as [found|] eqn:Hm; [|by left].
    destruct (ok (classifyMeld found.*2)) eqn:Hok; simpl; [|by left].
    destruct (existsb _ _) eqn:Hex; simpl; [|by left].
    destruct (objGet me (players g)) as [p|] eqn:Hp; simpl; [|by left].
    simpl in Hm. right. eexists. split; [reflexivity|].
    by apply Effect_meld.
Qed.

(** Conversely, an action that passes its checks is what [perform] stores. *)
Lemma Effect_perform (a : Action) (g g' : GameState) :
  Effect a g g' → perform (Some g) a = Some g'.
Proof.
  intros He. unfold perform, propose, runTransaction.
  destruct He as [me g p c st Ht Hp Hst|me g p d pile Ht Hp Hd Hne|me now g p Ht Hp
                 |me cardId now g p idx c Ht Hp Hf|me ids meldUuid now g p found Ht Hp Hm Hok Hex];
    apply myMove_CallersTurn in Ht; simpl; rewrite Ht; simpl.
  - rewrite Hst, pop_snoc, Hp. reflexivity.
  - rewrite Hd, pop_snoc, Hp, length_app.
    destruct pile; [done|]. simpl.
    replace (S (length pile + 1) <? 2)%nat with false; [done|].
    symmetry. apply Nat.ltb_ge. lia.
  - rewrite Hp. simpl. rewrite removelast_pop, pop_last. reflexivity.
  - rewrite Hp, Hf. rewrite objSet_keys by eauto.
    rewrite nextUid_spec by (apply objGet_is_Some; eauto). reflexivity.
  - rewrite Hp. simpl. rewrite Hm, Hok, Hex. reflexivity.
Qed.

Lemma Effect_CallersTurn (a : Action) (g g' : GameState) :
  Effect a g g' → CallersTurn (actor a) (stepOf a) g.
Proof. by destruct 1. Qed.

(** ** Moves out of turn, and what no move touches *)

(** X14. An action proposed by someone whose move it is not (the game is
    not being played, has a winner or an end mark, it is another identity's
    turn, or the step is the other one) leaves the stored game as it is;
    and on a room without a game every action leaves it without one. *)
Theorem move_out_of_turn_rejected (a : Action) (g : GameState) :
  perform None a = None
  ∧ (¬ CallersTurn (actor a) (stepOf a) g →
     actionTx a (Some g) = Value (Some g) ∧ perform (Some g) a = Some g).
Proof.
  split; [by destruct a|].
  intros Hnot.
  assert (Hmv : myMove (actor a) (stepOf a) g = false).
  { destruct (myMove (actor a) (stepOf a) g) eqn:Hmv; [|done].
    by apply myMove_CallersTurn in Hmv. }
  assert (Htx : actionTx a (Some g) = Value (Some g)).
  { destruct a; simpl in *; by rewrite Hmv. }
  split; [done|]. unfold perform, propose, runTransaction. by rewrite Htx.
Qed.

Lemma move_out_of_turn_rejected_witness :
  perform None (TakeTopDiscard "u1") = None
  ∧ actionTx (TakeTopDiscard "u1") (Some (runInHand FromStock))
    = Value (Some (runInHand FromStock))
  ∧ perform (Some (runInHand FromStock)) (TakeTopDiscard "u1")
    = Some (runInHand FromStock).
Proof.
  split; [apply (proj1 (move_out_of_turn_rejected (TakeTopDiscard "u1") (runInHand FromStock)))|].
  apply (proj2 (move_out_of_turn_rejected (TakeTopDiscard "u1") (runInHand FromStock))).
  intros (_ & _ & _ & _ & Hstep). discriminate Hstep.
Defined.

(** X15. [drawStock] by the identity on turn at step draw: on an empty
    stock nothing changes; otherwise the last card of the stock goes to the
    end of the caller's hand with origin stock, the caller's record of whom
    the last pile card was taken from is cleared, the other players, the
    pile, the head and the melds stay, and it is the caller's turn at step
    discard. *)
Theorem drawStock_contract (me : string) (g : GameState) (p : GamePlayer) :
  CallersTurn me StepDraw g → objGet me (players g) = Some p →
  (stock g = [] → perform (Some g) (DrawStock me) = Some g)
  ∧ (∀ st c, stock g = st ++ [c] →
     ∃ g', perform (Some g) (DrawStock me) = Some g'
       ∧ stock g' = st
       ∧ objGet me (players g')
         = Some (setLastTook None (setHand (hand p ++ [c]) p))
       ∧ (∀ u, u ≠ me → objGet u (players g') = objGet u (players g))
       ∧ cardOrigins g' !! id c
         = Some {| originKind := FromStock; originFromUid := None |}
       ∧ discard g' = discard g ∧ headCardId g' = headCardId g
       ∧ tableMelds g' = tableMelds g
       ∧ CallersTurn me StepDiscard g').
Proof.
  intros Hturn Hp. split.
  - intros Hst. unfold perform, propose, runTransaction. simpl.
    rewrite (proj2 (myMove_CallersTurn me StepDraw g) Hturn), Hst. reflexivity.
  - intros st c Hst. eexists. split.
    { apply Effect_perform. by apply (Effect_draw me g p c st). }
    simpl. split; [done|]. split.
    { rewrite objGet_objSet. by rewrite bool_decide_eq_true_2. }
    split.
    { intros u Hu. rewrite objGet_objSet. by rewrite bool_decide_eq_false_2. }
    split; [apply lookup_insert_eq|].
    destruct Hturn as (? & ? & ? & ? & ?). by repeat split.
Qed.

Lemma drawStock_contract_witness :
  let g := setStep (Some StepDraw) (runInHand FromStock) in
  let p := {| name := "Ann";
              hand := [mkCard "a" 4 Spades; mkCard "b" 5 Spades;
                       mkCard "c" 6 Spades; mkCard "d" 12 Hearts];
              hasMelded := false; score := 0; scoredCards := [];
              lastTurnTookDiscardFromUid := None |} in
  ∃ g', perform (Some g) (DrawStock "u1") = Some g'
    ∧ stock g' = []
    ∧ objGet "u1" (players g')
      = Some (setLastTook None (setHand (hand p ++ [mkCard "x" 9 Hearts]) p))
    ∧ (∀ u, u ≠ "u1" → objGet u (players g') = objGet u (players g))
    ∧ cardOrigins g' !! "x"
      = Some {| originKind := FromStock; originFromUid := None |}
    ∧ discard g' = discard g ∧ headCardId g' = headCardId g
    ∧ tableMelds g' = tableMelds g
    ∧ CallersTurn "u1" StepDiscard g'.
Proof.
  intros g p.
  apply (proj2 (drawStock_contract "u1" g p ltac:(by repeat split) eq_refl)
           [] (mkCard "x" 9 Hearts) eq_refl).
Defined.

Lemma objSet_same_setup (me : string) (p p' : GamePlayer) (ps : list (string * GamePlayer)) :
  objGet me ps = Some p → name p' = name p → score p' = score p →
  (λ kp : string * GamePlayer, (kp.1, name kp.2, score kp.2)) <$> objSet me p' ps
  = (λ kp : string * GamePlayer, (kp.1, name kp.2, score kp.2)) <$> ps.
Proof.
  intros Hg Hn Hs. destruct (objSet_split me p p' ps Hg) as (o1 & o2 & -> & ->).
  rewrite !fmap_app, !fmap_cons. simpl. by rewrite Hn, Hs.
Qed.

Lemma SameSetup_refl (g : GameState) : SameSetup g g.
Proof. by repeat split. Qed.

Lemma SameSetup_trans (g1 g2 g3 : GameState) :
  SameSetup g1 g2 → SameSetup g2 g3 → SameSetup g1 g3.
Proof.
  intros (? & ? & ? & ? & ?) (? & ? & ? & ? & ?).
  repeat split; congruence.
Qed.

Lemma Effect_SameSetup (a : Action) (g g' : GameState) :
  Effect a g g' → SameSetup g g'.
Proof.
  destruct 1 as [me g p c st Ht Hp Hst|me g p d pile Ht Hp Hd Hne|me now g p Ht Hp
                |me cardId now g p idx c Ht Hp Hf|me ids meldUuid now g p found Ht Hp Hm Hok Hex];
    unfold SameSetup; simpl; (repeat split; try done);
    by apply (objSet_same_setup me p).
Qed.

Lemma run_SameSetup (acts : list Action) (g : GameState) :
  ∃ g', foldl perform (Some g) acts = Some g' ∧ SameSetup g g'.
Proof.
  revert g. induction acts as [|a acts IH]; intros g.
  - exists g. split; [done|apply SameSetup_refl].
  - simpl. destruct (perform_Effect a g) as [->|(g1 & -> & He)]; [apply IH|].
    destruct (IH g1) as (g' & Hg' & Hs). exists g'. split; [done|].
    eapply SameSetup_trans; [|exact Hs]. by apply (Effect_SameSetup a).
Qed.

Lemma SameSetup_players (g g' : GameState) :
  SameSetup g g' →
  objKeys (players g') = objKeys (players g)
  ∧ (name <$> objValues (players g')) = (name <$> objValues (players g))
  ∧ (score <$> objValues (players g')) = (score <$> objValues (players g)).
Proof.
  intros (_ & _ & _ & _ & Hv). unfold objKeys, objValues.
  split; [|split].
  - transitivity ((λ t : string * string * Z, t.1.1)
                    <$> ((λ kp : string * GamePlayer, (kp.1, name kp.2, score kp.2))
                           <$> players g')).
    + by rewrite <- list_fmap_compose.
    + rewrite Hv. by rewrite <- list_fmap_compose.
  - rewrite <- !list_fmap_compose.
    transitivity ((λ t : string * string * Z, t.1.2)
                    <$> ((λ kp : string * GamePlayer, (kp.1, name kp.2, score kp.2))
                           <$> players g')).
    + by rewrite <- list_fmap_compose.
    + rewrite Hv. by rewrite <- list_fmap_compose.
  - rewrite <- !list_fmap_compose.
    transitivity ((λ t : string * string * Z, t.2)
                    <$> ((λ kp : string * GamePlayer, (kp.1, name kp.2, score kp.2))
                           <$> players g')).
    + by rewrite <- list_fmap_compose.
    + rewrite Hv. by rewrite <- list_fmap_compose.
Qed.

(** X16. No action ends the game or scores it.  After a deal that takes
    effect, whatever actions follow, by whomever: the game is still being
    played, it has no winner and no end mark, its start mark is the one
    the deal found, the players record has the keys the deal gave it, in
    the same order, which are the joined identities, each once, with the
    names the deal gave them, and every score is 0. *)
Theorem game_never_ends (sl : Slots) (uuid : nat → string) (rnd : nat → nat)
    (now : Z) (g : GameState) (acts : list Action) :
  isPlaying g = true → stock g = [] → discard g = [] →
  ∃ g0 g1,
    propose (dealTx (joinedUids sl) uuid rnd now) (Some g) = Some g0
    ∧ foldl perform (Some g0) acts = Some g1
    ∧ isPlaying g1 = true ∧ isEnded g1 = false
    ∧ winnerUid g1 = None ∧ endedAt g1 = None
    ∧ startedAt g1 = startedAt g
    ∧ objKeys (players g1) = objKeys (players g0)
    ∧ objKeys (players g1) ≡ₚ joinedUids sl
    ∧ (name <$> objValues (players g1)) = (name <$> objValues (players g0))
    ∧ Forall (λ p, score p = 0) (objValues (players g1)).
Proof.
  intros Hplay Hstock Hpile.
  destruct (dealTx_joinedUids sl uuid rnd now g Hplay Hstock Hpile) as (g0 & Hg0 & Hfresh).
  destruct (run_SameSetup acts g0) as (g1 & Hg1 & Hsame).
  exists g0, g1. split; [done|]. split; [done|].
  destruct (SameSetup_players _ _ Hsame) as (Hk & Hn & Hsc).
  destruct Hsame as (Hph & Hsa & Hw & He & _).
  destruct Hfresh as (Hkeys & Hhands & _ & _ & _ & Hph0 & _ & _ & Hw0 & He0).
  assert (Hstart : startedAt g0 = startedAt g).
  { unfold propose, runTransaction in Hg0. unfold dealTx in Hg0.
    rewrite Hplay, Hstock, Hpile in Hg0. cbn [negb length Nat.ltb Nat.leb orb] in Hg0.
    destruct (dealRounds _ _ _) as [st| |]; cbn [mbind TxReturn_bind] in Hg0.
    2,3: simpl in Hg0; congruence.
    destruct (foldTx _ _ _) as [pc| |]; cbn [mbind TxReturn_bind] in Hg0.
    2,3: simpl in Hg0; congruence.
    simpl in Hg0. injection Hg0 as <-. done. }
  unfold isPlaying, isEnded in *.
  rewrite Hph, Hph0, Hw, He, Hw0, He0, Hsa, Hstart, Hk.
  split; [done|]. split; [done|]. split; [done|]. split; [done|]. split; [done|].
  split; [done|]. split.
  { rewrite Hkeys. apply keysOf_Permutation, joinedUids_NoDup. }
  split; [done|].
  apply Forall_fmap with (f := score) (P := λ z, z = 0). rewrite Hsc.
  apply Forall_fmap. eapply Forall_impl; [exact Hhands|]. by intros p (_ & _ & ? & _).
Qed.

Lemma game_never_ends_witness :
  let seat u := Some {| uid := u; seatName := u; ready := true |} in
  let sl := {| slot1 := seat "u1"; slot2 := seat "u2"; slot3 := None; slot4 := None |} in
  let acts := [DrawStock "u1"; Discard "u1" "S-11-" 8; TakeTopDiscard "u2";
               LayMeld "u2" ["S-10-"; "S-11-"; "S-12-"] "m" 9; Discard "u2" "S-9-" 10] in
  ∃ g0 g1,
    propose (dealTx (joinedUids sl) (λ _, "") (λ i, i) 7)
      (Some (Lobby.startedGame (Some "u1") 5)) = Some g0
    ∧ foldl perform (Some g0) acts = Some g1
    ∧ isPlaying g1 = true ∧ isEnded g1 = false
    ∧ winnerUid g1 = None ∧ endedAt g1 = None
    ∧ startedAt g1 = startedAt (Lobby.startedGame (Some "u1") 5)
    ∧ objKeys (players g1) = objKeys (players g0)
    ∧ objKeys (players g1) ≡ₚ joinedUids sl
    ∧ (name <$> objValues (players g1)) = (name <$> objValues (players g0))
    ∧ Forall (λ p, score p = 0) (objValues (players g1)).
Proof.
  intros seat sl acts.
  apply (game_never_ends sl (λ _, "") (λ i, i) 7 (Lobby.startedGame (Some "u1") 5) acts);
    reflexivity.
Defined.

(** ** Every card is at one place *)

Lemma omap_ext_Forall {A B : Type} (f g : A → option B) (l : list A) :
  Forall (λ x, f x = g x) l → omap f l = omap g l.
Proof. induction 1 as [|x l Hx _ IH]; csimpl; [done|]. by rewrite Hx, IH. Qed.

Lemma foldl_delete_Permutation (l : list nat) (h : list CardT) :
  StronglySorted descending l → NoDup l → Forall (λ i, i < length h)%nat l →
  h ≡ₚ omap (h !!.) l ++ foldl (λ acc i, delete i acc) h l.
Proof.
  revert h. induction l as [|i l IH]; intros h Hs Hnd Hlt; [done|].
  apply StronglySorted_inv in Hs as [Hs Hi].
  apply NoDup_cons in Hnd as [Hni Hnd].
  apply Forall_cons in Hlt as [Hih Hlt].
  destruct (lookup_lt_is_Some_2 h i Hih) as [x Hx].
  assert (Hbelow : Forall (λ j, j < i)%nat l).
  { rewrite Forall_forall in Hi. apply Forall_forall. intros j Hj.
    specialize (Hi j Hj). unfold descending in Hi.
    assert (j ≠ i) by (intros ->; done). lia. }
  csimpl. rewrite Hx. simpl.
  etrans; [apply (delete_Permutation h i x Hx)|]. apply Permutation_skip.
  rewrite (omap_ext_Forall (h !!.) (delete i h !!.) l).
  - apply IH; [done..|].
    rewrite length_delete by eauto.
    eapply Forall_impl; [exact Hbelow|]. simpl. intros j Hj. lia.
  - eapply Forall_impl; [exact Hbelow|]. simpl. intros j Hj.
    symmetry. by apply list_lookup_delete_lt.
Qed.

(** Splicing the picked positions out of a hand leaves the hand without the
    picked cards. *)
Lemma spliceAll_Permutation (found : list (nat * CardT)) (h : list CardT) :
  Forall (λ f, h !! f.1 = Some f.2) found → NoDup found.*1 →
  h ≡ₚ found.*2 ++ spliceAll found.*1 h.
Proof.
  intros Hall Hnd. unfold spliceAll.
  pose proof (merge_sort_Permutation descending found.*1) as Hperm.
  assert (Hpicked : omap (h !!.) found.*1 = found.*2).
  { clear Hnd Hperm. induction Hall as [|[i c] found Hic _ IH]; [done|].
    csimpl in *. by rewrite Hic, IH. }
  rewrite <- Hpicked, <- Hperm at 1.
  apply foldl_delete_Permutation.
  - apply (StronglySorted_merge_sort descending).
  - by rewrite Hperm.
  - rewrite Hperm. apply Forall_fmap. eapply Forall_impl; [exact Hall|].
    intros [i c] Hic. simpl in *. by apply lookup_lt_Some in Hic.
Qed.

Lemma hands_objSet (me : string) (p p' : GamePlayer) (ps : list (string * GamePlayer)) :
  objGet me ps = Some p →
  ∃ l1 l2, mjoin (hand <$> objValues ps) = l1 ++ hand p ++ l2
           ∧ mjoin (hand <$> objValues (objSet me p' ps)) = l1 ++ hand p' ++ l2.
Proof.
  intros Hg. destruct (objSet_split me p p' ps Hg) as (o1 & o2 & -> & ->).
  exists (mjoin (hand <$> objValues o1)), (mjoin (hand <$> objValues o2)).
  unfold objValues. rewrite !fmap_app, !fmap_cons, !join_app. done.
Qed.

Lemma Effect_everyCard (a : Action) (g g' : GameState) :
  Effect a g g' → wellFormed a → everyCard g' ≡ₚ everyCard g.
Proof.
  intros He Hwf.
  destruct He as [me g p c st Ht Hp Hst|me g p d pile Ht Hp Hd Hne|me now g p Ht Hp
                 |me cardId now g p idx c Ht Hp Hf|me ids meldUuid now g p found Ht Hp Hm Hok Hex];
    unfold everyCard, allCards, meldedCards; simpl;
    match goal with
    | |- context [objSet me ?q (players g)] =>
        destruct (hands_objSet me p q (players g) Hp) as (l1 & l2 & -> & ->)
    end; simpl.
  - rewrite Hst. solve_Permutation.
  - rewrite Hd, fmap_app. simpl. solve_Permutation.
  - destruct (stock g) as [|c st _] using rev_ind.
    + unfold rebasedPile. simpl. solve_Permutation.
    + unfold rebasedPile. rewrite last_snoc, removelast_last. simpl. solve_Permutation.
  - apply list_find_Some in Hf as (Hidx & _).
    rewrite fmap_app. simpl.
    rewrite (delete_Permutation (hand p) idx c Hidx) at 2. solve_Permutation.
  - destruct (picked_spec _ _ _ Hm) as (Hall & _ & _ & Hnd).
    rewrite fmap_app, join_app. simpl. rewrite app_nil_r.
    rewrite (spliceAll_Permutation found (hand p) Hall (Hnd Hwf)) at 2.
    solve_Permutation.
Qed.

Lemma run_everyCard (acts : list Action) (g : GameState) :
  Forall wellFormed acts →
  ∃ g', foldl perform (Some g) acts = Some g' ∧ everyCard g' ≡ₚ everyCard g.
Proof.
  revert g. induction acts as [|a acts IH]; intros g Hwf.
  - by exists g.
  - apply Forall_cons in Hwf as [Ha Hwf]. simpl.
    destruct (perform_Effect a g) as [->|(g1 & -> & He)]; [by apply IH|].
    destruct (IH g1 Hwf) as (g' & Hg' & Hp). exists g'. split; [done|].
    rewrite Hp. by apply (Effect_everyCard a).
Qed.

(** X17. The cards themselves are conserved.  After a deal that takes
    effect, whatever actions follow (a meld listing no id twice, as the
    selection gives them), the cards in the hands, the stock, the pile and
    the melds on the table are a rearrangement of the deck the deal made:
    all 52 of them, no card identity at two places. *)
Theorem every_card_at_one_place (sl : Slots) (uuid : nat → string) (rnd : nat → nat)
    (now : Z) (g : GameState) (acts : list Action) :
  isPlaying g = true → stock g = [] → discard g = [] →
  Forall wellFormed acts →
  ∃ g0 g1,
    propose (dealTx (joinedUids sl) uuid rnd now) (Some g) = Some g0
    ∧ foldl perform (Some g0) acts = Some g1
    ∧ everyCard g1 ≡ₚ makeDeck uuid
    ∧ length (everyCard g1) = 52%nat
    ∧ NoDup (id <$> everyCard g1).
Proof.
  intros Hplay Hstock Hpile Hwf.
  destruct (dealTx_joinedUids sl uuid rnd now g Hplay Hstock Hpile) as (g0 & Hg0 & Hfresh).
  destruct (run_everyCard acts g0 Hwf) as (g1 & Hg1 & Hperm).
  exists g0, g1. split; [done|]. split; [done|].
  assert (Hdeck : everyCard g1 ≡ₚ makeDeck uuid).
  { rewrite Hperm. destruct Hfresh as (_ & _ & Hall & _ & Hmelds & _).
    unfold everyCard, meldedCards. rewrite Hmelds. simpl. by rewrite app_nil_r. }
  split; [done|]. rewrite Hdeck. split; [apply makeDeck_length|apply makeDeck_NoDup_id].
Qed.

Lemma every_card_at_one_place_witness :
  let seat u := Some {| uid := u; seatName := u; ready := true |} in
  let sl := {| slot1 := seat "u1"; slot2 := seat "u2"; slot3 := None; slot4 := None |} in
  let acts := [DrawStock "u1"; Discard "u1" "S-11-" 8; TakeTopDiscard "u2";
               LayMeld "u2" ["S-10-"; "S-11-"; "S-12-"] "m" 9] in
  ∃ g0 g1,
    propose (dealTx (joinedUids sl) (λ _, "") (λ i, i) 7)
      (Some (Lobby.startedGame (Some "u1") 5)) = Some g0
    ∧ foldl perform (Some g0) acts = Some g1
    ∧ everyCard g1 ≡ₚ makeDeck (λ _, "")
    ∧ length (everyCard g1) = 52%nat
    ∧ NoDup (id <$> everyCard g1).
Proof.
  intros seat sl acts.
  apply (every_card_at_one_place sl (λ _, "") (λ i, i) 7
           (Lobby.startedGame (Some "u1") 5) acts);
    [reflexivity | reflexivity | reflexivity |].
  repeat (apply Forall_cons_2;
          [first [exact I | apply (bool_decide_unpack _); by vm_compute]|]).
  apply Forall_nil_2.
Defined.

(** ** The head of the pile *)

Lemma makeDeck_id_nonempty (uuid : nat → string) :
  Forall (λ c, id c ≠ "") (makeDeck uuid).
Proof.
  apply Forall_forall. intros c Hc. unfold makeDeck in Hc.
  apply elem_of_lookup_imap_1 in Hc as (n & [x rk] & -> & _). simpl.
  by destruct x.
Qed.

Lemma headCard_at_bottom (g : GameState) :
  HeadAtBottom g → (∀ h, headCardId g = Some h → h ≠ "") →
  headCard (Some g)
  = match headCardId g with Some _ => discard g !! O | None => None end.
Proof.
  unfold HeadAtBottom, headCard. intros Hb Hne.
  destruct (headCardId g) as [h|]; [|done].
  rewrite truthyStr_nonempty by (by apply Hne). cbn [negb].
  destruct (discard g) as [|d pile]; [done|]. simpl in Hb.
  injection Hb as Hb.
  subst h. cbn [list_find]. by rewrite decide_True.
Qed.

Lemma Effect_head (a : Action) (g g' : GameState) :
  Effect a g g' →
  HeadAtBottom g ∧ Forall (λ c, id c ≠ "") (stock g)
  ∧ (∀ h, headCardId g = Some h → h ≠ "") →
  HeadAtBottom g' ∧ Forall (λ c, id c ≠ "") (stock g')
  ∧ (∀ h, headCardId g' = Some h → h ≠ "").
Proof.
  intros He (Hb & Hst & Hne). unfold HeadAtBottom in *.
  destruct He as [me g p c st Ht Hp Hs|me g p d pile Ht Hp Hd Hnil|me now g p Ht Hp
                 |me cardId now g p idx c Ht Hp Hf|me ids meldUuid now g p found Ht Hp Hm Hok Hex];
    simpl.
  - split; [done|]. split; [|done].
    rewrite Hs in Hst. by apply Forall_app in Hst as [? _].
  - split; [|done]. destruct (headCardId g) as [h|]; [|done].
    rewrite Hd in Hb. destruct pile as [|x pile]; [done|]. exact Hb.
  - destruct (stock g) as [|c st _] using rev_ind.
    + by repeat split.
    + rewrite last_snoc, removelast_last. unfold rebasedPile. rewrite last_snoc. simpl.
      apply Forall_app in Hst as [Hst Hc]. rewrite Forall_singleton in Hc.
      split; [done|]. split; [done|]. intros h [= Hh]. by subst h.
  - split; [|done]. destruct (headCardId g) as [h|]; [|done].
    destruct (discard g) as [|x pile]; [done|]. exact Hb.
  - done.
Qed.

Lemma run_head (acts : list Action) (g : GameState) :
  HeadAtBottom g ∧ Forall (λ c, id c ≠ "") (stock g)
  ∧ (∀ h, headCardId g = Some h → h ≠ "") →
  ∃ g', foldl perform (Some g) acts = Some g'
        ∧ HeadAtBottom g' ∧ Forall (λ c, id c ≠ "") (stock g')
        ∧ (∀ h, headCardId g' = Some h → h ≠ "").
Proof.
  revert g. induction acts as [|a acts IH]; intros g Hg.
  - by exists g.
  - simpl. destruct (perform_Effect a g) as [->|(g1 & -> & He)]; [by apply IH|].
    apply IH. by apply (Effect_head a g).
Qed.

(** X18. The head stays at the bottom of the pile.  After a deal that takes
    effect, whatever actions follow, [headCardId], when set, is the id of
    the first card of the pile; so the head the page shows is that first
    card, and no take removes it. *)
Theorem head_stays_at_bottom (sl : Slots) (uuid : nat → string) (rnd : nat → nat)
    (now : Z) (g : GameState) (acts : list Action) :
  isPlaying g = true → stock g = [] → discard g = [] →
  ∃ g0 g1,
    propose (dealTx (joinedUids sl) uuid rnd now) (Some g) = Some g0
    ∧ foldl perform (Some g0) acts = Some g1
    ∧ HeadAtBottom g1
    ∧ headCard (Some g1)
      = match headCardId g1 with Some _ => discard g1 !! O | None => None end.
Proof.
  intros Hplay Hstock Hpile.
  destruct (dealTx_joinedUids sl uuid rnd now g Hplay Hstock Hpile) as (g0 & Hg0 & Hfresh).
  destruct Hfresh as (_ & _ & Hall & (head & Hd & Hh) & _).
  assert (Hids : Forall (λ c, id c ≠ "") (allCards g0)).
  { rewrite Hall. apply makeDeck_id_nonempty. }
  unfold allCards in Hids. apply Forall_app in Hids as (_ & Hids).
  apply Forall_app in Hids as (Hst & Hpl).
  destruct (run_head acts g0) as (g1 & Hg1 & Hb & _ & Hne).
  { unfold HeadAtBottom. rewrite Hh, Hd. split; [done|]. split; [done|].
    intros h [= <-]. rewrite Hd in Hpl. csimpl in Hpl. by apply Forall_inv in Hpl. }
  exists g0, g1. split; [done|]. split; [done|]. split; [done|].
  by apply headCard_at_bottom.
Qed.

Lemma head_stays_at_bottom_witness :
  let seat u := Some {| uid := u; seatName := u; ready := true |} in
  let sl := {| slot1 := seat "u1"; slot2 := seat "u2"; slot3 := None; slot4 := None |} in
  let acts := [DrawStock "u1"; Discard "u1" "S-11-" 8; TakeTopDiscard "u2";
               Discard "u2" "S-9-" 10; EatHead "u1" 11] in
  ∃ g0 g1,
    propose (dealTx (joinedUids sl) (λ _, "") (λ i, i) 7)
      (Some (Lobby.startedGame (Some "u1") 5)) = Some g0
    ∧ foldl perform (Some g0) acts = Some g1
    ∧ HeadAtBottom g1
    ∧ headCard (Some g1)
      = match headCardId g1 with Some _ => discard g1 !! O | None => None end.
Proof.
  intros seat sl acts.
  apply (head_stays_at_bottom sl (λ _, "") (λ i, i) 7
           (Lobby.startedGame (Some "u1") 5) acts); reflexivity.
Defined.

(** ** Melds and scored cards *)

Lemma classifyMeld_ok_length (cs : list CardT) :
  ok (classifyMeld cs) = true → (3 ≤ length cs)%nat.
Proof.
  unfold classifyMeld.
  destruct (isValidSet cs) eqn:Es; [|destruct (isValidRun cs) eqn:Er; [|done]]; intros _.
  - by destruct (proj1 (isValidSet_spec cs) Es) as (? & _).
  - by destruct (proj1 (isValidRun_spec cs) Er) as (? & _).
Qed.

Lemma meldsOf_snoc (u : string) (ms : list Meld) (m : Meld) :
  mjoin (cards <$> filter (λ m0, ownerUid m0 = u) (ms ++ [m]))
  = mjoin (cards <$> filter (λ m0, ownerUid m0 = u) ms)
    ++ (if decide (ownerUid m = u) then cards m else []).
Proof.
  rewrite filter_app, fmap_app, join_app. f_equal.
  rewrite filter_cons. destruct (decide (ownerUid m = u)); [|done].
  simpl. by rewrite app_nil_r.
Qed.

Lemma Effect_ScoredAreMelded (a : Action) (g g' : GameState) :
  Effect a g g' → ScoredAreMelded g → ScoredAreMelded g'.
Proof.
  intros He Hinv u q.
  destruct He as [me g p c st Ht Hp Hs|me g p d pile Ht Hp Hd Hnil|me now g p Ht Hp
                 |me cardId now g p idx c Ht Hp Hf|me ids meldUuid now g p found Ht Hp Hm Hok Hex];
    unfold meldsOf; simpl; rewrite objGet_objSet; case_bool_decide as Hu;
    try (intros Hq; exact (Hinv u q Hq));
    try (intros [= <-]; subst u; exact (Hinv me p Hp)).
  - intros [= <-]. subst u. simpl. rewrite meldsOf_snoc. simpl.
    rewrite decide_True by done.
    destruct (Hinv me p Hp) as [-> _]. split; [done|]. split; [|done].
    intros _ Hnil. apply app_eq_nil in Hnil as [_ Hnil].
    apply classifyMeld_ok_length in Hok. rewrite Hnil in Hok. simpl in Hok. lia.
  - intros Hq. rewrite meldsOf_snoc. simpl. rewrite decide_False by done.
    rewrite app_nil_r. exact (Hinv u q Hq).
Qed.

Lemma run_ScoredAreMelded (acts : list Action) (g : GameState) :
  ScoredAreMelded g →
  ∃ g', foldl perform (Some g) acts = Some g' ∧ ScoredAreMelded g'.
Proof.
  revert g. induction acts as [|a acts IH]; intros g Hg.
  - by exists g.
  - simpl. destruct (perform_Effect a g) as [->|(g1 & -> & He)]; [by apply IH|].
    apply IH. by apply (Effect_ScoredAreMelded a g).
Qed.

(** X19. What a player has scored is what the player has laid.  After a
    deal that takes effect, whatever actions follow, each player's
    [scoredCards] are exactly the cards of the melds on the table that the
    player owns, in the order laid, and [hasMelded] is set exactly when
    there is such a meld. *)
Theorem scored_cards_are_own_melds (sl : Slots) (uuid : nat → string)
    (rnd : nat → nat) (now : Z) (g : GameState) (acts : list Action) :
  isPlaying g = true → stock g = [] → discard g = [] →
  ∃ g0 g1,
    propose (dealTx (joinedUids sl) uuid rnd now) (Some g) = Some g0
    ∧ foldl perform (Some g0) acts = Some g1
    ∧ ∀ (u : string) (p : GamePlayer), objGet u (players g1) = Some p →
        scoredCards p = meldsOf u g1 ∧ (hasMelded p = true ↔ meldsOf u g1 ≠ []).
Proof.
  intros Hplay Hstock Hpile.
  destruct (dealTx_joinedUids sl uuid rnd now g Hplay Hstock Hpile) as (g0 & Hg0 & Hfresh).
  destruct Hfresh as (_ & Hhands & _ & _ & Hmelds & _).
  destruct (run_ScoredAreMelded acts g0) as (g1 & Hg1 & Hinv).
  { intros u p Hp. unfold meldsOf. rewrite Hmelds. simpl.
    apply objGet_Some_elem in Hp. rewrite Forall_forall in Hhands.
    destruct (Hhands p) as (_ & Hm & _ & Hs).
    { unfold objValues. by apply (list_elem_of_fmap_2 snd) in Hp. }
    rewrite Hm, Hs. by split. }
  by exists g0, g1.
Qed.

Lemma scored_cards_are_own_melds_witness :
  let seat u := Some {| uid := u; seatName := u; ready := true |} in
  let sl := {| slot1 := seat "u1"; slot2 := seat "u2"; slot3 := None; slot4 := None |} in
  let acts := [DrawStock "u1"; Discard "u1" "S-11-" 8; TakeTopDiscard "u2";
               LayMeld "u2" ["S-10-"; "S-11-"; "S-12-"] "m" 9] in
  ∃ g0 g1,
    propose (dealTx (joinedUids sl) (λ _, "") (λ i, i) 7)
      (Some (Lobby.startedGame (Some "u1") 5)) = Some g0
    ∧ foldl perform (Some g0) acts = Some g1
    ∧ ∀ (u : string) (p : GamePlayer), objGet u (players g1) = Some p →
        scoredCards p = meldsOf u g1 ∧ (hasMelded p = true ↔ meldsOf u g1 ≠ []).
Proof.
  intros seat sl acts.
  apply (scored_cards_are_own_melds sl (λ _, "") (λ i, i) 7
           (Lobby.startedGame (Some "u1") 5) acts); reflexivity.
Defined.

(** ** The opening move *)

Lemma handCount_sevens (ps : list GamePlayer) :
  Forall (λ p, length (hand p) = 7%nat) ps →
  sum_list ((λ p, length (hand p)) <$> ps) = (7 * length ps)%nat.
Proof. induction 1 as [|p ps Hp _ IH]; csimpl; [done|]. rewrite Hp, IH. lia. Qed.

(** X20. Right after the deal the stock holds the 51 cards left beside the
    head, less seven for each joined identity, and the dealt game can only
    be changed by the identity on turn, by drawing from the stock or eating
    the head: a take, a discard or a meld, by anyone, leaves it as it is. *)
Theorem opening_move (sl : Slots) (uuid : nat → string) (rnd : nat → nat)
    (now : Z) (g : GameState) :
  isPlaying g = true → stock g = [] → discard g = [] →
  ∃ g0,
    propose (dealTx (joinedUids sl) uuid rnd now) (Some g) = Some g0
    ∧ (length (stock g0) + 7 * length (joinedUids sl) = 51)%nat
    ∧ ∀ a : Action, perform (Some g0) a ≠ Some g0 →
        turnUid g0 = Some (actor a)
        ∧ (a = DrawStock (actor a) ∨ ∃ now', a = EatHead (actor a) now').
Proof.
  intros Hplay Hstock Hpile.
  destruct (dealTx_joinedUids sl uuid rnd now g Hplay Hstock Hpile) as (g0 & Hg0 & Hfresh).
  exists g0. split; [done|].
  destruct (FreshDeal_counts _ _ _ _ _ Hfresh) as (H52 & _ & _).
  destruct Hfresh as (Hkeys & Hhands & _ & (head & Hd & _) & _ & _ & Hstep & _).
  split.
  - unfold inPlay, handCount in H52. rewrite Hd in H52. simpl in H52.
    rewrite handCount_sevens in H52.
    2:{ eapply Forall_impl; [exact Hhands|]. by intros p (? & _). }
    rewrite <- (Permutation_length (keysOf_Permutation _ (joinedUids_NoDup sl))).
    rewrite <- Hkeys. unfold objKeys, objValues in *.
    rewrite length_fmap in H52. rewrite length_fmap. lia.
  - intros a Hchg.
    destruct (perform_Effect a g0) as [Hsame|(g' & _ & He)]; [done|].
    pose proof (Effect_CallersTurn a g0 g' He) as (_ & _ & _ & Hturn & Hst).
    split; [done|].
    destruct He as [me g0 p c st Ht Hp Hs|me g0 p d pile Ht Hp Hd' Hnil|me now' g0 p Ht Hp
                   |me cardId now' g0 p idx c Ht Hp Hf
                   |me ids meldUuid now' g0 p found Ht Hp Hm Hok Hex]; simpl in *.
    + by left.
    + rewrite Hd in Hd'. apply (f_equal length) in Hd'. rewrite length_app in Hd'.
      destruct pile; [done|]. simpl in Hd'. lia.
    + right. by exists now'.
    + congruence.
    + congruence.
Qed.

Lemma opening_move_witness :
  let seat u := Some {| uid := u; seatName := u; ready := true |} in
  let sl := {| slot1 := seat "u1"; slot2 := seat "u2"; slot3 := seat "u3"; slot4 := None |} in
  ∃ g0,
    propose (dealTx (joinedUids sl) (λ _, "") (λ i, i) 7)
      (Some (Lobby.startedGame (Some "u1") 5)) = Some g0
    ∧ (length (stock g0) + 7 * length (joinedUids sl) = 51)%nat
    ∧ ∀ a : Action, perform (Some g0) a ≠ Some g0 →
        turnUid g0 = Some (actor a)
        ∧ (a = DrawStock (actor a) ∨ ∃ now', a = EatHead (actor a) now').
Proof.
  intros seat sl.
  apply (opening_move sl (λ _, "") (λ i, i) 7 (Lobby.startedGame (Some "u1") 5));
    reflexivity.
Defined.

(** ** Discard, take, eat and meld *)

(** X21. A card discarded can be taken back by the next player.  When the
    caller discards a card onto a pile that is not empty, and the identity
    next in order then takes the top of the pile, the pile is what it was,
    the card is at the end of that identity's hand, its recorded origin is
    the pile with the discarder's identity, the taker's record names the
    discarder, and it is the taker's turn at step discard. *)
Theorem discard_then_take (me u cardId : string) (now : Z) (g : GameState)
    (p q : GamePlayer) (idx : nat) (c : CardT) :
  CallersTurn me StepDiscard g → objGet me (players g) = Some p →
  findCard cardId (hand p) = Some (idx, c) →
  nextInOrder (objKeys (players g)) me = Some u →
  objGet u (players g) = Some q →
  discard g ≠ [] →
  ∃ g2 q2,
    foldl perform (Some g) [Discard me cardId now; TakeTopDiscard u] = Some g2
    ∧ discard g2 = discard g
    ∧ objGet u (players g2) = Some q2
    ∧ hand q2 = (if decide (me = u) then delete idx (hand p) else hand q) ++ [c]
    ∧ lastTurnTookDiscardFromUid q2 = Some me
    ∧ cardOrigins g2 !! id c
      = Some {| originKind := FromDiscard; originFromUid := Some me |}
    ∧ stock g2 = stock g ∧ headCardId g2 = headCardId g
    ∧ CallersTurn u StepDiscard g2.
Proof.
  intros Ht Hp Hf Hnext Hq Hpile.
  pose proof (Effect_discard me cardId now g p idx c Ht Hp Hf) as He1.
  set (g1 := setStep _ _) in He1.
  set (q1 := if decide (me = u) then setHand (delete idx (hand p)) p else q).
  assert (Hq1 : objGet u (players g1) = Some q1).
  { unfold g1, q1. simpl. rewrite objGet_objSet.
    case_bool_decide; [by rewrite decide_True|by rewrite decide_False]. }
  assert (Ht1 : CallersTurn u StepDraw g1).
  { destruct Ht as (? & ? & ? & ? & ?). unfold g1. by repeat split. }
  pose proof (Effect_take u g1 q1
                {| card := c; fromUid := Some me; at_ := now |} (discard g)
                Ht1 Hq1 eq_refl Hpile) as He2.
  eexists. exists (setLastTook (Some me) (setHand (hand q1 ++ [c]) q1)).
  split.
  { simpl. rewrite (Effect_perform _ _ _ He1). apply (Effect_perform _ _ _ He2). }
  simpl. split; [done|]. split.
  { rewrite objGet_objSet. by rewrite bool_decide_eq_true_2. }
  split. { unfold q1. by destruct (decide (me = u)). }
  split; [done|]. split; [apply lookup_insert_eq|].
  destruct Ht as (? & ? & ? & ? & ?). by repeat split.
Qed.

Lemma discard_then_take_witness :
  let g := runInHand FromStock in
  let p := {| name := "Ann";
              hand := [mkCard "a" 4 Spades; mkCard "b" 5 Spades;
                       mkCard "c" 6 Spades; mkCard "d" 12 Hearts];
              hasMelded := false; score := 0; scoredCards := [];
              lastTurnTookDiscardFromUid := None |} in
  ∃ g2 q2,
    foldl perform (Some g) [Discard "u1" "d" 9; TakeTopDiscard "u1"] = Some g2
    ∧ discard g2 = discard g
    ∧ objGet "u1" (players g2) = Some q2
    ∧ hand q2 = (if decide ("u1" = "u1") then delete 3%nat (hand p) else hand p)
                ++ [mkCard "d" 12 Hearts]
    ∧ lastTurnTookDiscardFromUid q2 = Some "u1"
    ∧ cardOrigins g2 !! "d"
      = Some {| originKind := FromDiscard; originFromUid := Some "u1" |}
    ∧ stock g2 = stock g ∧ headCardId g2 = headCardId g
    ∧ CallersTurn "u1" StepDiscard g2.
Proof.
  intros g p.
  apply (discard_then_take "u1" "u1" "d" 9 g p p 3 (mkCard "d" 12 Hearts));
    [by repeat split | reflexivity | reflexivity | reflexivity | reflexivity | done].
Defined.

Lemma eaten_origins (pile : list DiscardCard) (o : gmap string Origin) :
  let o' := foldl (λ o d, markDiscard (fromUid d) o (id (card d))) o pile in
  (∀ cid, cid ∈ (id ∘ card <$> pile) →
     ∃ from, o' !! cid = Some {| originKind := FromDiscard; originFromUid := from |})
  ∧ (∀ cid, cid ∉ (id ∘ card <$> pile) → o' !! cid = o !! cid).
Proof.
  revert o. induction pile as [|d pile IH]; intros o; cbn [foldl].
  { split; [|done]. intros cid Hin. by apply elem_of_nil in Hin. }
  destruct (IH (markDiscard (fromUid d) o (id (card d)))) as [IH1 IH2].
  split.
  - intros cid Hin. rewrite fmap_cons in Hin.
    destruct (decide (cid ∈ (id ∘ card <$> pile))) as [Hp|Hp]; [by apply IH1|].
    apply elem_of_cons in Hin as [->|Hin]; [|done].
    rewrite IH2 by done. exists (fromUid d). apply lookup_insert_eq.
  - intros cid Hnot. rewrite fmap_cons in Hnot.
    apply not_elem_of_cons in Hnot as [Hne Hnot].
    rewrite IH2 by done. unfold markDiscard. by rewrite lookup_insert_ne.
Qed.

(** X22. [eatHead] by the identity on turn at step draw takes the whole
    pile, head included: its cards go to the end of the caller's hand in
    pile order, each with the pile as recorded origin, so that any of them
    lets a later meld pass the origin check; the origins of all other cards
    stay; the stock gives up its last card, which alone is the new pile. *)
Theorem eatHead_takes_whole_pile (me : string) (now : Z) (g : GameState) (p : GamePlayer) :
  CallersTurn me StepDraw g → objGet me (players g) = Some p →
  ∃ g', perform (Some g) (EatHead me now) = Some g'
    ∧ objGet me (players g')
      = Some (setLastTook None (setHand (hand p ++ (card <$> discard g)) p))
    ∧ (∀ d, d ∈ discard g → hasDiscardOrigin (cardOrigins g') (card d) = true)
    ∧ (∀ cid, cid ∉ (id ∘ card <$> discard g) →
         cardOrigins g' !! cid = cardOrigins g !! cid)
    ∧ stock g' = removelast (stock g)
    ∧ (card <$> discard g') = option_list (last (stock g))
    ∧ headCardId g' = id <$> last (stock g)
    ∧ tableMelds g' = tableMelds g
    ∧ CallersTurn me StepDiscard g'.
Proof.
  intros Ht Hp. eexists. split.
  { apply Effect_perform. by apply (Effect_eat me now g p). }
  simpl.
  destruct (eaten_origins (discard g) (cardOrigins g)) as [Ho1 Ho2]. simpl in Ho1, Ho2.
  split. { rewrite objGet_objSet. by rewrite bool_decide_eq_true_2. }
  split.
  { intros d Hd. unfold hasDiscardOrigin.
    destruct (Ho1 (id (card d))) as (from & ->); [|done].
    apply list_elem_of_fmap. by exists d. }
  split; [exact Ho2|]. split; [done|]. split.
  { unfold rebasedPile. by destruct (last (stock g)). }
  destruct Ht as (? & ? & ? & ? & ?). by repeat split.
Qed.

Lemma eatHead_takes_whole_pile_witness :
  let g := setStep (Some StepDraw) (runInHand FromStock) in
  let p := {| name := "Ann";
              hand := [mkCard "a" 4 Spades; mkCard "b" 5 Spades;
                       mkCard "c" 6 Spades; mkCard "d" 12 Hearts];
              hasMelded := false; score := 0; scoredCards := [];
              lastTurnTookDiscardFromUid := None |} in
  ∃ g', perform (Some g) (EatHead "u1" 9) = Some g'
    ∧ objGet "u1" (players g')
      = Some (setLastTook None (setHand (hand p ++ (card <$> discard g)) p))
    ∧ (∀ d, d ∈ discard g → hasDiscardOrigin (cardOrigins g') (card d) = true)
    ∧ (∀ cid, cid ∉ (id ∘ card <$> discard g) →
         cardOrigins g' !! cid = cardOrigins g !! cid)
    ∧ stock g' = removelast (stock g)
    ∧ (card <$> discard g') = option_list (last (stock g))
    ∧ headCardId g' = id <$> last (stock g)
    ∧ tableMelds g' = tableMelds g
    ∧ CallersTurn "u1" StepDiscard g'.
Proof.
  intros g p.
  apply (eatHead_takes_whole_pile "u1" 9 g p); [by repeat split | reflexivity].
Defined.

Lemma mapM_findCard_ids (h : list CardT) (ids : list string) (found : list (nat * CardT)) :
  mapM (λ cid, findCard cid h) ids = Some found →
  ∀ cid, cid ∈ ids → cid ∈ (id <$> h).
Proof.
  intros Hm cid Hin.
  destruct (picked_spec h ids found Hm) as (Hall & Hids & _).
  rewrite Hids in Hin. apply list_elem_of_fmap in Hin as ([i c] & -> & Hf).
  rewrite Forall_forall in Hall. specialize (Hall _ Hf). simpl in *.
  apply list_elem_of_fmap. exists c. split; [done|].
  by apply list_elem_of_lookup_2 in Hall.
Qed.

(** X23. Requests that name cards the caller does not hold are refused.
    On the caller's turn at step discard, a discard of an id that is not in
    the caller's hand leaves the game as it is, and so does a meld that
    lists such an id or fewer than three ids. *)
Theorem cards_not_held_refused (me : string) (g : GameState) (p : GamePlayer) :
  CallersTurn me StepDiscard g → objGet me (players g) = Some p →
  (∀ cardId now, cardId ∉ (id <$> hand p) →
     perform (Some g) (Discard me cardId now) = Some g)
  ∧ (∀ ids meldUuid now,
       (∃ cid, cid ∈ ids ∧ cid ∉ (id <$> hand p)) ∨ (length ids < 3)%nat →
       perform (Some g) (LayMeld me ids meldUuid now) = Some g).
Proof.
  intros Ht Hp. split.
  - intros cardId now Hnot.
    destruct (perform_Effect (Discard me cardId now) g) as [Hsame|(g' & _ & He)]; [done|].
    exfalso. inversion He as [| | |me' cid' now' g0 p' idx c _ Hp' Hf|]; subst.
    rewrite Hp in Hp'. injection Hp' as <-.
    apply list_find_Some in Hf as (Hidx & Hid & _). apply Hnot.
    apply list_elem_of_fmap. exists c. split; [done|].
    by apply list_elem_of_lookup_2 in Hidx.
  - intros ids meldUuid now Hbad.
    destruct (perform_Effect (LayMeld me ids meldUuid now) g) as [Hsame|(g' & _ & He)];
      [done|].
    exfalso. inversion He as [| | | |me' ids' m' now' g0 p' found _ Hp' Hm Hok _]; subst.
    rewrite Hp in Hp'. injection Hp' as <-.
    destruct Hbad as [(cid & Hin & Hnot)|Hlen].
    + apply Hnot. by apply (mapM_findCard_ids (hand p) ids found Hm).
    + apply classifyMeld_ok_length in Hok. rewrite length_fmap in Hok.
      rewrite (length_mapM _ _ _ Hm) in Hlen. lia.
Qed.

Lemma cards_not_held_refused_witness :
  let g := runInHand FromDiscard in
  perform (Some g) (Discard "u1" "x" 9) = Some g
  ∧ perform (Some g) (LayMeld "u1" ["a"; "b"; "h"] "m" 9) = Some g
  ∧ perform (Some g) (LayMeld "u1" ["a"; "b"] "m" 9) = Some g.
Proof.
  intros g.
  pose proof (cards_not_held_refused "u1" g
                {| name := "Ann";
                   hand := [mkCard "a" 4 Spades; mkCard "b" 5 Spades;
                            mkCard "c" 6 Spades; mkCard "d" 12 Hearts];
                   hasMelded := false; score := 0; scoredCards := [];
                   lastTurnTookDiscardFromUid := None |}
                ltac:(by repeat split) eq_refl) as [Hd Hm].
  split; [|split].
  - apply Hd. apply (bool_decide_unpack _). by vm_compute.
  - apply Hm. left. exists "h". split; apply (bool_decide_unpack _); by vm_compute.
  - apply Hm. right. simpl. lia.
Defined.

(** X24. A meld that passes its checks: the picked cards leave the caller's
    hand, no others, and are appended as one meld to the table and to the
    caller's scored cards; stock, pile, head and origins stay, and it is
    still the caller's turn at step discard, so the caller may meld again
    and has yet to discard. *)
Theorem layMeld_contract (me : string) (ids : list string) (meldUuid : string) (now : Z)
    (g : GameState) (p : GamePlayer) (found : list (nat * CardT)) :
  CallersTurn me StepDiscard g → objGet me (players g) = Some p →
  NoDup ids →
  mapM (λ cid, findCard cid (hand p)) ids = Some found →
  ok (classifyMeld found.*2) = true →
  existsb (hasDiscardOrigin (cardOrigins g)) found.*2 = true →
  ∃ g' p',
    perform (Some g) (LayMeld me ids meldUuid now) = Some g'
    ∧ objGet me (players g') = Some p'
    ∧ hand p ≡ₚ found.*2 ++ hand p'
    ∧ (id <$> found.*2) = ids
    ∧ scoredCards p' = scoredCards p ++ found.*2
    ∧ hasMelded p' = true
    ∧ tableMelds g'
      = tableMelds g ++ [{| meldId := meldUuid; ownerUid := me;
                            meldKind := kind (classifyMeld found.*2);
                            cards := found.*2; createdAt := now |}]
    ∧ (∀ u, u ≠ me → objGet u (players g') = objGet u (players g))
    ∧ stock g' = stock g ∧ discard g' = discard g
    ∧ headCardId g' = headCardId g ∧ cardOrigins g' = cardOrigins g
    ∧ CallersTurn me StepDiscard g'.
Proof.
  intros Ht Hp Hnd Hm Hok Hex.
  destruct (picked_spec _ _ _ Hm) as (Hall & Hids & _ & Hnd').
  eexists. eexists. split.
  { apply Effect_perform. by apply (Effect_meld me ids meldUuid now g p found). }
  simpl. split. { rewrite objGet_objSet. by rewrite bool_decide_eq_true_2. }
  simpl. split; [by apply spliceAll_Permutation; auto|].
  split. { rewrite Hids. by rewrite <- list_fmap_compose. }
  split; [done|]. split; [done|]. split; [done|]. split.
  { intros u Hu. rewrite objGet_objSet. by rewrite bool_decide_eq_false_2. }
  destruct Ht as (? & ? & ? & ? & ?). by repeat split.
Qed.

Lemma layMeld_contract_witness :
  let g := runInHand FromDiscard in
  let p := {| name := "Ann";
              hand := [mkCard "a" 4 Spades; mkCard "b" 5 Spades;
                       mkCard "c" 6 Spades; mkCard "d" 12 Hearts];
              hasMelded := false; score := 0; scoredCards := [];
              lastTurnTookDiscardFromUid := None |} in
  let found := [(2%nat, mkCard "c" 6 Spades); (0%nat, mkCard "a" 4 Spades);
                (1%nat, mkCard "b" 5 Spades)] in
  ∃ g' p',
    perform (Some g) (LayMeld "u1" ["c"; "a"; "b"] "m" 9) = Some g'
    ∧ objGet "u1" (players g') = Some p'
    ∧ hand p ≡ₚ found.*2 ++ hand p'
    ∧ (id <$> found.*2) = ["c"; "a"; "b"]
    ∧ scoredCards p' = scoredCards p ++ found.*2
    ∧ hasMelded p' = true
    ∧ tableMelds g'
      = tableMelds g ++ [{| meldId := "m"; ownerUid := "u1";
                            meldKind := kind (classifyMeld found.*2);
                            cards := found.*2; createdAt := 9 |}]
    ∧ (∀ u, u ≠ "u1" → objGet u (players g') = objGet u (players g))
    ∧ stock g' = stock g ∧ discard g' = discard g
    ∧ headCardId g' = headCardId g ∧ cardOrigins g' = cardOrigins g
    ∧ CallersTurn "u1" StepDiscard g'.
Proof.
  intros g p found.
  apply (layMeld_contract "u1" ["c"; "a"; "b"] "m" 9 g p found);
    [by repeat split | reflexivity | apply (bool_decide_unpack _); by vm_compute
    | reflexivity | reflexivity | reflexivity].
Defined.

(** ** What the play page shows and selects *)

Lemma objDelete_keys {V : Type} (k : string) (o : list (string * V)) :
  objKeys (objDelete k o) = filter (λ x, x ≠ k) (objKeys o).
Proof.
  unfold objKeys, objDelete. induction o as [|[k0 v0] o IH]; [done|].
  rewrite fmap_cons, !filter_cons. simpl.
  destruct (decide (k0 ≠ k)); [rewrite fmap_cons; simpl; by f_equal|done].
Qed.

Lemma toggleSelect_keys (cardId : string) (selected : list (string * unit)) :
  NoDup (objKeys selected) →
  NoDup (objKeys (toggleSelect cardId selected))
  ∧ ∀ k, k ∈ objKeys (toggleSelect cardId selected)
         ↔ (if decide (k = cardId) then k ∉ objKeys selected else k ∈ objKeys selected).
Proof.
  intros Hnd. unfold toggleSelect. case_bool_decide as Hin.
  - apply objGet_is_Some in Hin. rewrite objDelete_keys. split.
    + by apply NoDup_filter.
    + intros k. rewrite list_elem_of_filter.
      destruct (decide (k = cardId)) as [->|Hne]; tauto.
  - assert (Hnone : objGet cardId selected = None).
    { destruct (objGet cardId selected) eqn:E; [|done]. destruct Hin. eauto. }
    pose proof (objSet_new_keys cardId () selected Hnone) as Hperm.
    apply objGet_None in Hnone. split.
    + rewrite Hperm. by apply NoDup_cons.
    + intros k. rewrite Hperm, elem_of_cons.
      destruct (decide (k = cardId)) as [->|Hne]; tauto.
Qed.

(** X25. The selection never lists a card twice.  Starting from the empty
    selection, after any sequence of toggles the keys of [selected], which
    are the ids [layMeld] sends, are pairwise distinct, and an id is among
    them exactly when it was toggled an odd number of times. *)
Theorem selection_keys_distinct (toggled : list string) :
  let selected := foldl (λ sel cid, toggleSelect cid sel) clearSelection toggled in
  NoDup (objKeys selected)
  ∧ (∀ meldUuid me now, wellFormed (LayMeld me (objKeys selected) meldUuid now))
  ∧ ∀ cid, cid ∈ objKeys selected
           ↔ Nat.odd (length (filter (λ x, x = cid) toggled)) = true.
Proof.
  simpl.
  assert (H : NoDup (objKeys (foldl (λ sel cid, toggleSelect cid sel) clearSelection toggled))
              ∧ ∀ cid, cid ∈ objKeys (foldl (λ sel cid, toggleSelect cid sel)
                                        clearSelection toggled)
                       ↔ Nat.odd (length (filter (λ x, x = cid) toggled)) = true).
  { induction toggled as [|t toggled IH] using rev_ind.
    - split; [apply NoDup_nil_2|]. intros cid. simpl. split; [|done].
      intros Hin. by apply elem_of_nil in Hin.
    - destruct IH as [Hnd Hodd]. rewrite foldl_app. cbn [foldl].
      destruct (toggleSelect_keys t _ Hnd) as [Hnd' Hk].
      split; [done|]. intros cid. rewrite Hk, filter_app, length_app.
      rewrite filter_cons, filter_nil.
      destruct (decide (cid = t)) as [->|Hne].
      + rewrite decide_True by done. simpl. rewrite Hodd.
        rewrite Nat.add_1_r, Nat.odd_succ, <- Nat.negb_odd.
        destruct (Nat.odd _); simpl; split; intros Hc; try done; by destruct Hc.
      + rewrite decide_False by done. simpl. by rewrite Nat.add_0_r. }
  destruct H as [Hnd Hodd]. split; [done|]. split; [by intros|done].
Qed.

Lemma filter_all {A : Type} (P : A → Prop) `{∀ x, Decision (P x)} (l : list A) :
  Forall P l → filter P l = l.
Proof.
  induction 1 as [|x l Hx _ IH]; [done|]. rewrite filter_cons_True by done. by f_equal.
Qed.

Lemma drop_elem {A : Type} (n : nat) (l : list A) (x : A) : x ∈ drop n l → x ∈ l.
Proof. intros Hx. rewrite <- (take_drop n l). apply elem_of_app. by right. Qed.

Lemma drop_elem_tail {A : Type} (a : A) (l : list A) (x : A) :
  (2 ≤ length l)%nat → x ∈ drop (length (a :: l) - 2) (a :: l) → x ∈ l.
Proof.
  intros Hlen Hx.
  replace (length (a :: l) - 2)%nat with (S (length l - 2)) in Hx by (simpl; lia).
  rewrite skipn_cons in Hx. by apply drop_elem in Hx.
Qed.

(** X26. What the page shows of the pile.  When no card id occurs twice on
    the pile, a pile of one or two cards is shown whole, and of a longer
    pile the head followed by the last two cards; at most three cards are
    shown, the first is the bottom card and the last is the top of the
    pile. *)
Theorem showDiscard_spec (g : GameState) :
  NoDup (id ∘ card <$> discard g) →
  ((length (discard g) ≤ 2)%nat → showDiscard g = discard g)
  ∧ (∀ d0, (3 ≤ length (discard g))%nat → discard g !! O = Some d0 →
       showDiscard g = d0 :: drop (length (discard g) - 2) (discard g))
  ∧ (length (showDiscard g) ≤ 3)%nat
  ∧ showDiscard g !! O = discard g !! O
  ∧ last (showDiscard g) = topDiscard (Some g).
Proof.
  intros Hnd. unfold showDiscard, topDiscard.
  destruct (discard g) as [|a [|b [|c rest]]] eqn:E.
  - by repeat split; intros; simplify_eq/=; try lia.
  - by repeat split; intros; simplify_eq/=; try lia.
  - apply NoDup_cons in Hnd as [Hab _]. rewrite list_elem_of_singleton in Hab.
    assert (Hshow : option_list ([a; b] !! O)
                    ++ filter (λ x, Some (id (card x)) ≠ (id ∘ card <$> [a; b] !! O))
                         (if (1 <? length [a; b])%nat
                          then drop (length [a; b] - 2) [a; b] else [])
                    = [a; b]).
    { simpl. rewrite filter_cons, decide_False by (intros H; by apply H).
      rewrite filter_cons, decide_True; [done|]. simpl. intros [= Heq]. by apply Hab. }
    rewrite Hshow. repeat split; try done; [|simpl; lia].
    intros d0 Hlen. simpl in Hlen. lia.
  - assert (Ha : id (card a) ∉ (id ∘ card <$> b :: c :: rest)).
    { rewrite fmap_cons in Hnd. by apply NoDup_cons in Hnd as [? _]. }
    clear Hnd. set (l := a :: b :: c :: rest) in *.
    assert (Hlen : (3 ≤ length l)%nat) by (simpl; lia).
    assert (Hfil : filter (λ x, Some (id (card x)) ≠ (id ∘ card <$> l !! O))
                     (drop (length l - 2) l) = drop (length l - 2) l).
    { apply filter_all, Forall_forall. intros x Hx.
      apply (drop_elem_tail a (b :: c :: rest) x) in Hx; [|simpl; lia].
      simpl. intros [= Heq]. apply Ha.
      rewrite <- Heq. apply list_elem_of_fmap. by exists x. }
    assert (H1 : (1 <? length l)%nat = true) by (apply Nat.ltb_lt; lia).
    rewrite H1, Hfil.
    assert (Hdrop : length (drop (length l - 2) l) = 2%nat).
    { rewrite length_drop. lia. }
    change (option_list (l !! O)) with [a].
    split; [intros; lia|]. split; [by intros d0 _ [= <-]|].
    split; [rewrite length_app, Hdrop; simpl; lia|]. split; [done|].
    destruct (drop (length l - 2) l) as [|x [|y tl]] eqn:Ed; simpl in Hdrop; try lia.
    destruct tl; [|simpl in Hdrop; lia].
    assert (Hl : last l = last (drop (length l - 2) l)).
    { rewrite <- (take_drop (length l - 2) l) at 1. rewrite Ed.
      by rewrite last_app_cons. }
    rewrite Hl, Ed. done.
Qed.

Lemma showDiscard_spec_witness :
  let d c := {| card := c; fromUid := None; at_ := 1 |} in
  let g := setDiscard [d (mkCard "h" 2 Clubs); d (mkCard "a" 4 Spades);
                       d (mkCard "b" 5 Spades); d (mkCard "c" 6 Spades)]
             (runInHand FromStock) in
  showDiscard g = [d (mkCard "h" 2 Clubs); d (mkCard "b" 5 Spades); d (mkCard "c" 6 Spades)]
  ∧ (length (showDiscard g) ≤ 3)%nat
  ∧ showDiscard g !! O = discard g !! O
  ∧ last (showDiscard g) = topDiscard (Some g).
Proof.
  intros d g.
  assert (Hnd : NoDup (id ∘ card <$> discard g)).
  { apply (bool_decide_unpack _). by vm_compute. }
  destruct (showDiscard_spec g Hnd) as (_ & H3 & Hlen & Hhead & Htop).
  split; [|by repeat split].
  apply (H3 (d (mkCard "h" 2 Clubs))); [simpl; lia|reflexivity].
Defined.

Lemma substring_all (x : string) : String.substring 0 (String.length x) x = x.
Proof. induction x as [|a x IH]; simpl; [done|]. by rewrite IH. Qed.

Lemma replaceFirst_prefix (x : string) : replaceFirst "hand:" "" ("hand:" +:+ x) = x.
Proof.
  unfold replaceFirst.
  assert (Hidx : String.index 0 "hand:" ("hand:" +:+ x) = Some O).
  { simpl. by destruct x. }
  rewrite Hidx. simpl. rewrite Nat.sub_0_r. apply substring_all.
Qed.

(** X27. Dragging a hand card recovers its id.  Every card of the hand is
    draggable under the id ["hand:"] followed by the card's id; dropped on
    the discard zone it asks to discard exactly that card, dropped on the
    meld zone it toggles exactly that card in the selection, whatever the
    card's id is, and dropped anywhere else or on nothing it does
    nothing. *)
Theorem onDragEnd_recovers_card (c : CardT) (overId : option string) :
  onDragEnd (dragId c) overId
  = if decide (overId = Some "zone:discard") then DragDiscard (id c)
    else if decide (overId = Some "zone:meld") then DragToggle (id c)
    else DragIgnored.
Proof.
  unfold onDragEnd, dragId. rewrite replaceFirst_prefix.
  assert (Hpre : String.prefix "hand:" ("hand:" +:+ id c) = true).
  { simpl. by destruct (id c). }
  rewrite Hpre. cbn [negb].
  destruct overId as [o|]; simpl.
  - destruct (String.eqb_spec o "zone:discard") as [->|Hd]; [done|].
    rewrite decide_False by congruence.
    destruct (String.eqb_spec o "zone:meld") as [->|Hm]; [done|].
    by rewrite decide_False by congruence.
  - done.
Qed.

Lemma cardLabel_faces :
  NoDup ((λ f : Z * Suit, cardLabel (mkCard "" f.1 f.2))
           <$> (rk ← ranks; (λ x, (rk, x)) <$> suits)).
Proof. apply (bool_decide_unpack _). by vm_compute. Qed.

(** X28. The 52 faces have 52 different labels: two cards with ranks from
    1 to 13 and the same label have the same rank and the same suit. *)
Theorem cardLabel_distinct (c c' : CardT) :
  1 ≤ r c ≤ 13 → 1 ≤ r c' ≤ 13 →
  cardLabel c = cardLabel c' → r c = r c' ∧ s c = s c'.
Proof.
  intros Hr Hr' Heq.
  assert (Hface : ∀ x : CardT, 1 ≤ r x ≤ 13 →
            (r x, s x) ∈ (rk ← ranks; (λ y, (rk, y)) <$> suits)).
  { intros x Hx. apply list_elem_of_bind. exists (r x). split.
    - apply list_elem_of_fmap. exists (s x). split; [done|].
      unfold suits. rewrite !elem_of_cons. destruct (s x); tauto.
    - unfold ranks. rewrite !elem_of_cons. lia. }
  assert (Hinj : (r c, s c) = (r c', s c')).
  { pose proof cardLabel_faces as Hnd.
    destruct (proj1 (list_elem_of_lookup _ _) (Hface c Hr)) as [i Hi].
    destruct (proj1 (list_elem_of_lookup _ _) (Hface c' Hr')) as [j Hj].
    assert (i = j) as ->.
    { eapply (NoDup_lookup _ i j (cardLabel c) Hnd).
      - rewrite list_lookup_fmap, Hi. done.
      - rewrite list_lookup_fmap, Hj. simpl. by rewrite Heq. }
    congruence. }
  by injection Hinj.
Qed.

Lemma cardLabel_distinct_witness :
  cardLabel (mkCard "a" 12 Hearts) = "Q♥"
  ∧ (cardLabel (mkCard "a" 12 Hearts) = cardLabel (mkCard "b" 12 Hearts) →
     12 = 12 ∧ Hearts = Hearts).
Proof.
  split; [reflexivity|].
  apply (cardLabel_distinct (mkCard "a" 12 Hearts) (mkCard "b" 12 Hearts)); simpl; lia.
Defined.

(** ** The first lobby page and the guard against a double start *)

(** X29. The first lobby page decides the start on the client's snapshot
    alone.  For a caller with a [uid], its [startGameBySlot1] issues its
    writes exactly when the snapshot has its seats, the status lobby, a
    game in phase lobby, and passes the start conditions with the caller on
    seat 1; the stored room is not read, and whatever it holds, the writes
    set its status to playing, keep its seats and run the start transaction
    on its game. *)
Theorem first_page_starts_on_snapshot (u : string) (rm : Room) (now : Z) :
  u ≠ "" →
  (is_Some (LobbyV0.startGameBySlot1 (Some u) (Some rm) now)
   ↔ is_Some (slots rm) ∧ status rm = Some lobby
     ∧ (game rm ≫= phase) = Some lobby ∧ StartConditions u rm)
  ∧ ∀ write, LobbyV0.startGameBySlot1 (Some u) (Some rm) now = Some write →
      ∀ stored : Room,
        status (write stored) = Some playing
        ∧ slots (write stored) = slots stored
        ∧ game (write stored)
          = snapshot (runTransaction (LobbyV1.startTx now) (game stored)).
Proof.
  intros Hu. unfold LobbyV0.startGameBySlot1, LobbyV0.canStartNow.
  rewrite truthyStr_nonempty by done. cbn [negb].
  split.
  - rewrite <- StartConditions_check.
    unfold Lobby.startable, Lobby.everyoneReady, Lobby.currentPlayers,
      Lobby.slotsOf, Lobby.statusOf, Lobby.phaseOf.
    destruct rm as [created st host osl og]. cbn -[seatList Nat.leb Nat.ltb].
    destruct osl as [sl|]; cbn -[seatList Nat.leb Nat.ltb].
    2:{ split; [by intros [? ?]|]. by intros ([? ?] & _). }
    set (n := length (omap (λ x, x) (seatList sl))).
    set (allReady := forallb _ _).
    set (starter := strictEqOpt (uid <$> slot1 sl) u).
    destruct st as [[|]|]; cbn -[seatList Nat.leb Nat.ltb].
    2,3: split; [by intros [? ?]|]; by intros (_ & ? & _).
    destruct og as [g|]; cbn -[seatList Nat.leb Nat.ltb].
    2:{ split; [by intros [? ?]|]. by intros (_ & _ & ? & _). }
    destruct (phase g) as [[|]|] eqn:Hph; cbn -[seatList Nat.leb Nat.ltb].
    2,3: split; [by intros [? ?]|]; by intros (_ & _ & ? & _).
    destruct (2 <=? n)%nat eqn:H2; cbn -[seatList Nat.leb Nat.ltb].
    2:{ split; [by intros [? ?]|]. intros (_ & _ & _ & _ & H).
        by rewrite !andb_false_r in H. }
    assert (H0 : (0 <? n)%nat = true).
    { apply Nat.ltb_lt. apply Nat.leb_le in H2. lia. }
    rewrite H0.
    destruct (n <=? 4)%nat, allReady, starter; cbn; split;
      try (by intros [? ?]); try (intros (_ & _ & _ & ? & ?); done);
      intros _; by repeat split; eauto.
  - intros write Hw stored.
    destruct (slots rm) as [sl|]; [|done].
    destruct (negb (bool_decide (status rm = Some lobby))); [done|].
    destruct (game rm) as [g|]; [|done].
    destruct (_ && _); [|done]. injection Hw as <-. done.
Qed.

Lemma first_page_starts_on_snapshot_witness :
  let seat u rdy := Some {| uid := u; seatName := u; ready := rdy |} in
  let snap := {| roomCreatedAt := Some 1; status := Some lobby; hostUid := Some "u1";
                 slots := Some {| slot1 := seat "u1" true; slot2 := seat "u2" true;
                                  slot3 := None; slot4 := None |};
                 game := Some lobbyGame |} in
  let stored := {| roomCreatedAt := Some 1; status := Some lobby; hostUid := Some "u1";
                   slots := Some {| slot1 := seat "u1" true; slot2 := None;
                                    slot3 := None; slot4 := None |};
                   game := Some lobbyGame |} in
  is_Some (LobbyV0.startGameBySlot1 (Some "u1") (Some snap) 7)
  ∧ ¬ StartConditions "u1" stored
  ∧ ∀ write, LobbyV0.startGameBySlot1 (Some "u1") (Some snap) 7 = Some write →
      status (write stored) = Some playing
      ∧ slots (write stored) = slots stored
      ∧ game (write stored)
        = snapshot (runTransaction (LobbyV1.startTx 7) (game stored)).
Proof.
  intros seat snap stored.
  pose proof (first_page_starts_on_snapshot "u1" snap 7 ltac:(done)) as [Hgate Hwrite].
  split; [|split].
  - apply Hgate. split; [by eexists|]. split; [done|]. split; [done|].
    unfold StartConditions. simpl. split; [done|]. split; [done|]. split; [done|].
    split; [vm_compute; lia|].
    intros x Hx. unfold seatList in Hx. simpl in Hx.
    rewrite !elem_of_cons in Hx.
    destruct Hx as [Hx|[Hx|[Hx|[Hx|Hx]]]];
      try (injection Hx as ->; done); try done.
    by apply elem_of_nil in Hx.
  - intros (_ & _ & _ & [Hlo _] & _). vm_compute in Hlo. lia.
  - intros write Hw. apply (Hwrite write Hw stored).
Defined.

(** X30. The start transaction guards against a double start, the write of
    the newest page does not.  The writes of the two earlier pages turn a
    stored game in phase lobby into phase playing with the start mark and
    nothing else changed, leave any other game as it is, and issued a
    second time change nothing; the write of the newest page replaces
    whatever game is stored by an empty one. *)
Theorem start_writes_once (now1 now2 : Z) (stored : Room) (slot1Uid : option string) :
  LobbyV1.startWrites now2 (LobbyV1.startWrites now1 stored)
  = LobbyV1.startWrites now1 stored
  ∧ (∀ g, game stored = Some g → phase g = Some lobby →
       game (LobbyV1.startWrites now1 stored)
       = Some {| phase := Some playing; startedAt := Some now1; turnUid := turnUid g;
                 step := step g; headCardId := headCardId g; stock := stock g;
                 discard := discard g; cardOrigins := cardOrigins g;
                 tableMelds := tableMelds g; players := players g;
                 winnerUid := winnerUid g; endedAt := endedAt g |})
  ∧ (∀ g, game stored = Some g → phase g ≠ Some lobby →
       game (LobbyV1.startWrites now1 stored) = Some g)
  ∧ game (Lobby.updateStatusGame playing (Lobby.startedGame slot1Uid now2) stored)
    = Some (Lobby.startedGame slot1Uid now2)
  ∧ stock (Lobby.startedGame slot1Uid now2) = []
  ∧ players (Lobby.startedGame slot1Uid now2) = [].
Proof.
  unfold LobbyV1.startWrites, LobbyV1.startTx, runTransaction.
  split; [|split; [|split; [|done]]].
  - destruct (game stored) as [g|]; simpl; [|done].
    case_bool_decide as Hph; simpl; [|by rewrite bool_decide_eq_false_2].
    done.
  - intros g -> Hph. simpl. by rewrite bool_decide_eq_true_2.
  - intros g -> Hph. simpl. by rewrite bool_decide_eq_false_2.
Qed.

Lemma start_writes_once_witness :
  let stored := {| roomCreatedAt := Some 1; status := Some lobby; hostUid := Some "u1";
                   slots := Some EMPTY_SLOTS; game := Some lobbyGame |} in
  game (LobbyV1.startWrites 8 (LobbyV1.startWrites 7 stored)) ≫= startedAt = Some 7
  ∧ game (LobbyV1.startWrites 7 (Lobby.updateStatusGame playing (runInHand FromStock) stored))
    = Some (runInHand FromStock).
Proof.
  intros stored.
  pose proof (start_writes_once 7 8 stored None) as (Htwice & Hfirst & _).
  pose proof (start_writes_once 7 8
                (Lobby.updateStatusGame playing (runInHand FromStock) stored) None)
    as (_ & _ & Hkept & _).
  split.
  - rewrite Htwice. by rewrite (Hfirst lobbyGame eq_refl eq_refl).
  - by apply Hkept.
Defined.
